(** * boost.afio: the dispatcher engine and the file handle constructors

    A shallow embedding of
    - [triplegit/src/async_file_io.cpp]: the operation registry, id
      allocation, chaining, completion dispatch, the POSIX and Windows
      primitives of the asynchronous dispatcher, the destructors of the
      handles and the emulation of [preadv] and [pwritev];
    - [include/boost/afio/v2.0/file_handle.hpp]: [random_file] and
      [temp_file], and from its second half (map_handle.hpp) the
      printer of the section flags and the moves of [section_handle];
    - [fs_probe/benchmark_locking.cpp]: the labels of the children.

    The definitions come first (one module per source file), the facts
    proved about them follow. *)

From Stdlib Require Import ZArith Lia Sorted.
From stdpp Require Import gmap strings list fin_maps.

Local Open Scope Z_scope.

(** ** file_handle.hpp *)

Module file_handle.

(** [result<T>] of Outcome: a value or an error code. *)
Inductive result (T : Type) : Type :=
| has_value (v : T)
| has_error (code : Z).
Arguments has_value {T} v.
Arguments has_error {T} code.

(** [EEXIST] of <errno.h>. *)
Definition EEXIST : Z := 17.

(** What the header leaves to other translation units: the enumerations of
    handle.hpp, the path type, [file] (defined in the platform .ipp),
    [utils::random_string] and the temporary directory probe.  They act on
    a [world]: the file system together with the state of the random
    generator. *)
Class Env := {
  world : Type;
  path_type : Type;
  mode : Type;
  creation : Type;
  caching : Type;
  flag : Type;
  handle : Type;
  only_if_not_exist : creation;
  path_div : path_type -> path_type -> path_type;
  path_of_string : string -> path_type;
  path_empty : path_type -> bool;
  file : path_type -> mode -> creation -> caching -> flag ->
         world -> result handle * world;
  random_string : nat -> world -> string * world;
  fixme_temporary_files_directory : world -> path_type * world
}.

Section constructors.
Context {E : Env}.

(** [!ret && ret.get_error().value() != EEXIST] *)
Definition failed_not_eexist (ret : result handle) : bool :=
  match ret with
  | has_value _ => false
  | has_error code => negb (code =? EEXIST)
  end.

(** [!ret] *)
Definition not_ok (ret : result handle) : bool :=
  match ret with
  | has_value _ => false
  | has_error _ => true
  end.

(** [file_handle::random_file], lines 146-161.  The do-while loop has no
    bound of its own; [fuel] bounds the number of iterations and [None]
    means the bound was reached.  [utils::random_string] and the path
    concatenation are taken as not throwing, so the handler that closes
    the try block is never entered. *)
Fixpoint random_file (fuel : nat) (dirpath : path_type) (_mode : mode)
    (_caching : caching) (flags : flag) (w : world)
  : option (result handle * world) :=
  match fuel with
  | O => None
  | S fuel' =>
      let (randomname, w1) := random_string 32 w in
      let (ret, w2) :=
        file (path_div dirpath (path_of_string randomname)) _mode
             only_if_not_exist _caching flags w1 in
      if failed_not_eexist ret then Some (ret, w2)
      else if not_ok ret then
             random_file fuel' dirpath _mode _caching flags w2
           else Some (ret, w2)
  end.

(** [file_handle::temp_file], lines 178-181. *)
Definition temp_file (fuel : nat) (name : path_type) (_mode : mode)
    (_creation : creation) (_caching : caching) (flags : flag) (w : world)
  : option (result handle * world) :=
  if path_empty name then
    let (tmp, w1) := fixme_temporary_files_directory w in
    random_file fuel tmp _mode _caching flags w1
  else
    let (tmp, w1) := fixme_temporary_files_directory w in
    Some (file (path_div tmp name) _mode _creation _caching flags w1).

(** The probing the specification describes, to compare [random_file]
    with: the [k]-th probe (counting from zero) draws a name, tries the
    exclusive creation of that name under [dirpath], and starts from the
    world the earlier probes left. *)
Definition probe_once (dirpath : path_type) (_mode : mode)
    (_caching : caching) (flags : flag) (w : world) : result handle * world :=
  let (randomname, w1) := random_string 32 w in
  file (path_div dirpath (path_of_string randomname)) _mode
       only_if_not_exist _caching flags w1.

Fixpoint probe (k : nat) (dirpath : path_type) (_mode : mode)
    (_caching : caching) (flags : flag) (w : world) : result handle * world :=
  match k with
  | O => probe_once dirpath _mode _caching flags w
  | S k' =>
      probe k' dirpath _mode _caching flags
            (snd (probe_once dirpath _mode _caching flags w))
  end.

(** A probe collided: it failed, with [EEXIST]. *)
Definition collided (ret : result handle) : bool :=
  match ret with
  | has_value _ => false
  | has_error code => code =? EEXIST
  end.

End constructors.

(** A small environment to run the constructors in: the generator is the
    list of names it will draw, the file system the list of paths that
    exist; a path that starts with "ro" cannot be written to. *)
Definition EACCES : Z := 13.

Record toy_world := {
  names : list string;
  existing : list string
}.

Definition toy_file (p : string) (_ : unit) (excl : bool) (_ _ : unit)
    (w : toy_world) : result string * toy_world :=
  if bool_decide (p ∈ existing w) then
    if excl then (has_error EEXIST, w) else (has_value p, w)
  else if String.prefix "tmp/ro" p then (has_error EACCES, w)
  else (has_value p, {| names := names w; existing := p :: existing w |}).

Definition toy_random_string (_ : nat) (w : toy_world) : string * toy_world :=
  match names w with
  | [] => ("dflt"%string, w)
  | n :: rest => (n, {| names := rest; existing := existing w |})
  end.

Definition toy_div (a b : string) : string := (a +:+ "/" +:+ b)%string.

Definition toy_env : Env := {|
  world := toy_world;
  path_type := string;
  mode := unit;
  creation := bool;
  caching := unit;
  flag := unit;
  handle := string;
  only_if_not_exist := true;
  path_div := toy_div;
  path_of_string := fun s => s;
  path_empty := fun s => bool_decide (s = ""%string);
  file := toy_file;
  random_string := toy_random_string;
  fixme_temporary_files_directory := fun w => ("tmp"%string, w)
|}.

(** Two names collide with existing files, the third is free. *)
Definition busy : toy_world :=
  {| names := ["a"; "b"; "c"; "d"]%string;
     existing := ["tmp/a"; "tmp/b"]%string |}.

End file_handle.

(** ** async_file_io.cpp *)

Module async_io.

(** *** Integers *)

(** [size_t]: unsigned, 64 bits wide (LP64 and LLP64 targets). *)
Definition SIZE_BITS : Z := 64.
Definition SIZE_MAX : Z := 2 ^ SIZE_BITS - 1.
Definition to_size_t (x : Z) : Z := x mod 2 ^ SIZE_BITS.

(** The cast [(long) x]: two's complement on [bits] bits ([bits] is 64
    on LP64 targets, 32 on Windows). *)
Definition to_long (bits : Z) (x : Z) : Z :=
  let m := x mod 2 ^ bits in
  if m <? 2 ^ (bits - 1) then m else m - 2 ^ bits.

(** The cast [(int) x]. *)
Definition to_int (x : Z) : Z := to_long 32 x.

(** *** file_flags *)

(** Modelled from the spec: the enumeration [file_flags] is declared in
    async_file_io.hpp, which is not part of the sources; the values are
    those of section 6 of the specification. *)
Module file_flags.
Definition None : Z := 0.
Definition Read : Z := 1.
Definition Write : Z := 2.
Definition Append : Z := 4.
Definition Truncate : Z := 8.
Definition Create : Z := 16.
Definition CreateOnlyIfNotExist : Z := 32.
Definition AutoFlush : Z := 64.
Definition WillBeSequentiallyAccessed : Z := 128.
Definition OSDirect : Z := 256.
Definition OSSync : Z := 512.
End file_flags.

(** The idiom [f == (flags & f)] of the source. *)
Definition has_flags (f flags : Z) : bool := f =? Z.land flags f.

(** *** Exceptions and the ways a call can end *)

Inductive exn :=
| runtime_error (what : string)
| os_error (code : Z) (path : string)
| bad_alloc
| future_uninitialized.

(** A call returns, throws, terminates the process ([assert],
    [std::terminate], a null dereference), or waits on a future that
    nothing has made ready. *)
Inductive outcome (A : Type) : Type :=
| Returns (a : A)
| Throws (e : exn)
| Aborts
| Blocks.
Arguments Returns {A} a.
Arguments Throws {A} e.
Arguments Aborts {A}.
Arguments Blocks {A}.

Definition bind {A B : Type} (c : outcome A) (k : A -> outcome B) : outcome B :=
  match c with
  | Returns a => k a
  | Throws e => Throws e
  | Aborts => Aborts
  | Blocks => Blocks
  end.

Definition is_returns {A : Type} (c : outcome A) : bool :=
  match c with Returns _ => true | _ => false end.

(** *** Operation references and requests *)

(** A [shared_future] of a handle names the shared state it reads:
    none (default constructed), that of the pool task running the
    operation [id], or that of the detached promise of the operation
    [id]. *)
Inductive shared_future :=
| no_state
| task_future (id : Z)
| promise_future (id : Z).

Definition valid (f : shared_future) : bool :=
  match f with no_state => false | _ => true end.

(** A [shared_ptr<async_io_handle>]: null, or the address of the handle. *)
Definition handle_ptr : Type := option nat.

(** [async_io_op] (the parent back-reference is left out). *)
Record async_io_op := {
  id : Z;
  h : shared_future
}.

Record async_path_op_req := {
  precondition : async_io_op;
  path : string;
  flags : Z
}.

(** [async_data_op_req<T>]: the buffers are (base, length) pairs. *)
Record async_data_op_req := {
  data_precondition : async_io_op;
  buffers : list (Z * Z);
  where_ : Z
}.

Module OpType.
Inductive t :=
| Unknown | UserCompletion | dir | rmdir | file | rmfile | sync | close
| read | write.
End OpType.

(** The implementation routine a chained operation was bound to, with
    the arguments bound to it ([std::bind (wrapperf, this, thisid, _1, f,
    args...)] without its id, which [completion_t] pairs it with). *)
Inductive routine :=
| invoke_user_completion (callback : nat)
| dodir (req : async_path_op_req)
| dormdir (req : async_path_op_req)
| dofile (req : async_path_op_req)
| dormfile (req : async_path_op_req)
| dosync (op : async_io_op)
| doclose (op : async_io_op)
| doread (req : async_data_op_req)
| dowrite (req : async_data_op_req).

(** [async_file_io_dispatcher_op::completion_t] *)
Definition completion_t : Type := Z * routine.

(** A task of the thread pool: [std::bind (c.second, h)]. *)
Definition task : Type := completion_t * handle_ptr.

(** [async_file_io_dispatcher_op].  [detached_promise] tells whether the
    pointer is set. *)
Record async_file_io_dispatcher_op := {
  optype : OpType.t;
  op_h : shared_future;
  detached_promise : bool;
  completions : list completion_t
}.

(** What a future holds once ready. *)
Inductive ready :=
| value (hp : handle_ptr)
| exception (e : exn).

(** [async_file_io_dispatcher_base_p], with the queue of the pool it
    refers to and the shared states of the futures made ready so far
    ([task_results] by the pool, [promise_results] by
    [complete_async_op]).  [fds] maps a descriptor to the address of its
    handle. *)
Record async_file_io_dispatcher_base_p := {
  pool : list task;
  flagsforce : Z;
  flagsmask : Z;
  fds : gmap Z nat;
  monotoniccount : Z;
  ops : gmap Z async_file_io_dispatcher_op;
  task_results : gmap Z ready;
  promise_results : gmap Z ready
}.

Definition with_pool (q : list task) (p : async_file_io_dispatcher_base_p) :=
  {| pool := q; flagsforce := flagsforce p; flagsmask := flagsmask p;
     fds := fds p; monotoniccount := monotoniccount p; ops := ops p;
     task_results := task_results p; promise_results := promise_results p |}.

Definition with_fds (t : gmap Z nat) (p : async_file_io_dispatcher_base_p) :=
  {| pool := pool p; flagsforce := flagsforce p; flagsmask := flagsmask p;
     fds := t; monotoniccount := monotoniccount p; ops := ops p;
     task_results := task_results p; promise_results := promise_results p |}.

Definition with_monotoniccount (c : Z) (p : async_file_io_dispatcher_base_p) :=
  {| pool := pool p; flagsforce := flagsforce p; flagsmask := flagsmask p;
     fds := fds p; monotoniccount := c; ops := ops p;
     task_results := task_results p; promise_results := promise_results p |}.

Definition with_ops (m : gmap Z async_file_io_dispatcher_op)
    (p : async_file_io_dispatcher_base_p) :=
  {| pool := pool p; flagsforce := flagsforce p; flagsmask := flagsmask p;
     fds := fds p; monotoniccount := monotoniccount p; ops := m;
     task_results := task_results p; promise_results := promise_results p |}.

Definition with_task_results (m : gmap Z ready)
    (p : async_file_io_dispatcher_base_p) :=
  {| pool := pool p; flagsforce := flagsforce p; flagsmask := flagsmask p;
     fds := fds p; monotoniccount := monotoniccount p; ops := ops p;
     task_results := m; promise_results := promise_results p |}.

Definition with_promise_results (m : gmap Z ready)
    (p : async_file_io_dispatcher_base_p) :=
  {| pool := pool p; flagsforce := flagsforce p; flagsmask := flagsmask p;
     fds := fds p; monotoniccount := monotoniccount p; ops := ops p;
     task_results := task_results p; promise_results := m |}.

(** The constructor of [async_file_io_dispatcher_base_p], lines 205-212. *)
Definition new_dispatcher (_flagsforce _flagsmask : Z)
  : async_file_io_dispatcher_base_p :=
  {| pool := []; flagsforce := _flagsforce; flagsmask := _flagsmask;
     fds := ∅; monotoniccount := 0; ops := ∅;
     task_results := ∅; promise_results := ∅ |}.

(** [async_file_io_dispatcher_base::fileflags], lines 246-249. *)
Definition fileflags (p : async_file_io_dispatcher_base_p) (_flags : Z) : Z :=
  Z.lor (Z.land _flags (Z.lnot (flagsmask p))) (flagsforce p).

(** [wait_queue_depth], lines 251-255. *)
Definition wait_queue_depth (p : async_file_io_dispatcher_base_p) : nat :=
  size (ops p).

(** *** The build *)

(** What the preprocessor decides, and what the absent header does:
    - [linux]: [__linux__] is defined;
    - [ndebug]: [NDEBUG] is defined, so [assert] expands to nothing;
    - [implicit_optype]: lines 825-827 call [chain_async_op] without its
      first argument; this is the kind those calls register;
    - [parent_path]: [std::filesystem::path::parent_path]. *)
Record build := {
  linux : bool;
  ndebug : bool;
  implicit_optype : OpType.t;
  parent_path : string -> string
}.

(** *** Futures *)

(** [f.get ()]: the value the future holds, the exception it holds
    rethrown, or a wait that does not end while nothing makes it ready.
    On a future without state the call throws. *)
Definition get (p : async_file_io_dispatcher_base_p) (f : shared_future)
  : outcome handle_ptr :=
  match f with
  | no_state => Throws future_uninitialized
  | task_future i =>
      match task_results p !! i with
      | Some (value hp) => Returns hp
      | Some (exception e) => Throws e
      | None => Blocks
      end
  | promise_future i =>
      match promise_results p !! i with
      | Some (value hp) => Returns hp
      | Some (exception e) => Throws e
      | None => Blocks
      end
  end.

(** [threadpool ().enqueue (task)]: the task goes to the back of the
    queue. *)
Definition enqueue (t : task) (p : async_file_io_dispatcher_base_p)
  : async_file_io_dispatcher_base_p :=
  with_pool (pool p ++ [t]) p.

(** *** Id allocation *)

(** [while(!(thisid=++p->monotoniccount));], line 402: the result is the
    id and the new value of the counter.  [fuel] bounds the iterations;
    two are always enough ([allocate_total]). *)
Fixpoint allocate_loop (fuel : nat) (count : Z) : option (Z * Z) :=
  match fuel with
  | O => None
  | S fuel' =>
      let count' := to_size_t (count + 1) in
      if count' =? 0 then allocate_loop fuel' count' else Some (count', count')
  end.

Definition allocate (count : Z) : Z * Z :=
  match allocate_loop 2 count with
  | Some r => r
  | None => (0, count)
  end.

(** The ids of [n] allocations in a row, and the counter after them. *)
Fixpoint allocations (n : nat) (count : Z) : list Z :=
  match n with
  | O => []
  | S n' => fst (allocate count) :: allocations n' (snd (allocate count))
  end.

Fixpoint count_after (n : nat) (count : Z) : Z :=
  match n with
  | O => count
  | S n' => count_after n' (snd (allocate count))
  end.

(** *** chain_async_op *)

(** Where an allocation fails with [std::bad_alloc] during one call of
    [chain_async_op]: nowhere, in [completions.push_back] (line 426), in
    [enqueue] (line 445), in [ops.insert] (line 447) or in [new promise]
    (line 456). *)
Inductive fault :=
| no_fault
| fault_push_back
| fault_enqueue
| fault_insert
| fault_promise.

Definition fault_eqb (a b : fault) : bool :=
  match a, b with
  | no_fault, no_fault | fault_push_back, fault_push_back
  | fault_enqueue, fault_enqueue | fault_insert, fault_insert
  | fault_promise, fault_promise => true
  | _, _ => false
  end.

Definition push_back_completion (c : completion_t)
    (o : async_file_io_dispatcher_op) : async_file_io_dispatcher_op :=
  {| optype := optype o; op_h := op_h o;
     detached_promise := detached_promise o;
     completions := completions o ++ [c] |}.

Definition pop_back_completion (o : async_file_io_dispatcher_op)
  : async_file_io_dispatcher_op :=
  {| optype := optype o; op_h := op_h o;
     detached_promise := detached_promise o;
     completions := removelast (completions o) |}.

Definition set_op_h (f : shared_future) (o : async_file_io_dispatcher_op)
  : async_file_io_dispatcher_op :=
  {| optype := optype o; op_h := f;
     detached_promise := detached_promise o;
     completions := completions o |}.

Definition set_detached_promise (o : async_file_io_dispatcher_op)
  : async_file_io_dispatcher_op :=
  {| optype := optype o; op_h := op_h o;
     detached_promise := true;
     completions := completions o |}.

Definition clear_completions (o : async_file_io_dispatcher_op)
  : async_file_io_dispatcher_op :=
  {| optype := optype o; op_h := op_h o;
     detached_promise := detached_promise o;
     completions := [] |}.

(** The undo action [undep], lines 430-436. *)
Definition undep (done : bool) (_precondition : async_io_op)
    (p : async_file_io_dispatcher_base_p) : async_file_io_dispatcher_base_p :=
  if done then with_ops (alter pop_back_completion (id _precondition) (ops p)) p
  else p.

(** The undo action [unopsit], lines 450-453. *)
Definition unopsit (thisid : Z) (p : async_file_io_dispatcher_base_p)
  : async_file_io_dispatcher_base_p :=
  with_ops (delete thisid (ops p)) p.

(** Lines 420-429: the precondition names an operation that is still in
    the registry. *)
Definition in_flight (_precondition : async_io_op)
    (p : async_file_io_dispatcher_base_p) : bool :=
  negb (id _precondition =? 0) &&
  bool_decide (is_Some (ops p !! id _precondition)).

(** Line 426: [dep->second.completions.push_back (boundf)]. *)
Definition link (boundf : completion_t) (_precondition : async_io_op)
    (p : async_file_io_dispatcher_base_p) : async_file_io_dispatcher_base_p :=
  with_ops (alter (push_back_completion boundf) (id _precondition) (ops p)) p.

(** Lines 440-444: the handle of the precondition, null when its
    future has no state. *)
Definition bound_handle (p : async_file_io_dispatcher_base_p)
    (_precondition : async_io_op) : outcome handle_ptr :=
  if valid (h _precondition) then get p (h _precondition) else Returns None.

(** Lines 437-446: the handle of the precondition is bound and the
    routine handed to the pool at once. *)
Definition bind_and_enqueue (flt : fault) (boundf : completion_t)
    (_precondition : async_io_op) (p : async_file_io_dispatcher_base_p)
  : outcome (async_io_op * async_file_io_dispatcher_base_p) :=
  bind (bound_handle p _precondition)
       (fun hp =>
          if fault_eqb flt fault_enqueue then Throws bad_alloc
          else Returns ({| id := fst boundf; h := task_future (fst boundf) |},
                        enqueue (boundf, hp) p)).

(** Line 447: [ops.insert] leaves a record that is already there. *)
Definition insert_op (thisid : Z) (o : async_file_io_dispatcher_op)
    (p : async_file_io_dispatcher_base_p) : async_file_io_dispatcher_base_p :=
  if bool_decide (ops p !! thisid = None)
  then with_ops (<[thisid := o]> (ops p)) p
  else p.

(** Lines 454-459. *)
Definition attach_promise (done : bool) (thisid : Z)
    (p : async_file_io_dispatcher_base_p) : async_file_io_dispatcher_base_p :=
  let p5 := with_ops (alter set_detached_promise thisid (ops p)) p in
  if done then p5
  else with_ops (alter (set_op_h (promise_future thisid)) thisid (ops p5)) p5.

(** Lines 447-462: the record is inserted and, when asked for, given its
    detached promise; an exception runs the undo actions that are armed,
    last armed first. *)
Definition register (b : build) (flt : fault) (_optype : OpType.t)
    (_precondition : async_io_op) (detachedfuture done : bool)
    (ret : async_io_op) (p3 : async_file_io_dispatcher_base_p)
  : outcome async_io_op * async_file_io_dispatcher_base_p :=
  if fault_eqb flt fault_insert
  then (Throws bad_alloc, undep done _precondition p3)
  else
    let inserted := bool_decide (ops p3 !! id ret = None) in
    let p4 :=
      insert_op (id ret)
                {| optype := _optype; op_h := h ret;
                   detached_promise := false; completions := [] |} p3 in
    if negb inserted && negb (ndebug b) then (Aborts, p4) else
    (* unopsit is armed *)
    if detachedfuture then
      if fault_eqb flt fault_promise
      then (Throws bad_alloc, undep done _precondition (unopsit (id ret) p4))
      else (Returns ret, attach_promise done (id ret) p4)
    else (Returns ret, p4).

(** [chain_async_op], lines 392-463.  The caller holds [opslock]; the
    debug check of that (lines 395-401) is left out, every caller in the
    file takes the lock first. *)
Definition chain_async_op (b : build) (flt : fault) (_optype : OpType.t)
    (_precondition : async_io_op) (detachedfuture : bool) (f : routine)
    (p : async_file_io_dispatcher_base_p)
  : outcome async_io_op * async_file_io_dispatcher_base_p :=
  let thisid := fst (allocate (monotoniccount p)) in
  let p1 := with_monotoniccount (snd (allocate (monotoniccount p))) p in
  let boundf : completion_t := (thisid, f) in
  let ret := {| id := thisid; h := no_state |} in
  if in_flight _precondition p1 then
    if fault_eqb flt fault_push_back then (Throws bad_alloc, p1)
    else
      (* done; undep is armed *)
      register b flt _optype _precondition detachedfuture true ret
               (link boundf _precondition p1)
  else
    match bind_and_enqueue flt boundf _precondition p1 with
    | Returns (ret', p3) =>
        register b flt _optype _precondition detachedfuture false ret' p3
    | Throws e => (Throws e, p1)
    | Aborts => (Aborts, p1)
    | Blocks => (Blocks, p1)
    end.

(** *** complete_async_op *)

Definition not_found : string :=
  "Failed to find this operation in list of currently executing operations".
Definition completion_not_found : string :=
  "Failed to find this completion operation in list of currently executing operations".

(** The loop of lines 301-316: every completion is handed to the pool
    bound to the handle [hp], in the order of the list. *)
Fixpoint enqueue_completions (cs : list completion_t) (hp : handle_ptr)
    (p : async_file_io_dispatcher_base_p)
  : outcome unit * async_file_io_dispatcher_base_p :=
  match cs with
  | [] => (Returns tt, p)
  | c :: cs' =>
      match ops p !! fst c with
      | None => (Throws (runtime_error completion_not_found), p)
      | Some it =>
          let f := if detached_promise it then promise_future (fst c)
                   else task_future (fst c) in
          let p1 := with_ops (<[fst c := set_op_h f it]> (ops p)) p in
          enqueue_completions cs' hp (enqueue (c, hp) p1)
      end
  end.

(** Lines 330-336: the detached promise of the operation, if it has
    one, is given the exception or the handle. *)
Definition fulfil (_id : Z) (hp : handle_ptr) (e : option exn)
    (p : async_file_io_dispatcher_base_p) : async_file_io_dispatcher_base_p :=
  match ops p !! _id with
  | Some it =>
      if detached_promise it then
        with_promise_results
          (<[_id := match e with
                    | Some x => exception x
                    | None => value hp
                    end]> (promise_results p)) p
      else p
  | None => p
  end.

(** Lines 297-329: the completions are moved out of the record and
    queued, and the record is looked up again. *)
Definition dispatch_completions (_id : Z) (hp : handle_ptr)
    (it : async_file_io_dispatcher_op) (p : async_file_io_dispatcher_base_p)
  : outcome unit * async_file_io_dispatcher_base_p :=
  match completions it with
  | [] => (Returns tt, p)
  | _ :: _ =>
      let p1 := with_ops (<[_id := clear_completions it]> (ops p)) p in
      match enqueue_completions (completions it) hp p1 with
      | (Returns tt, p2) =>
          match ops p2 !! _id with
          | None => (Throws (runtime_error not_found), p2)
          | Some _ => (Returns tt, p2)
          end
      | r => r
      end
  end.

(** [complete_async_op (id, h, e)], lines 282-339. *)
Definition complete_async_op (_id : Z) (hp : handle_ptr) (e : option exn)
    (p : async_file_io_dispatcher_base_p)
  : outcome unit * async_file_io_dispatcher_base_p :=
  match ops p !! _id with
  | None => (Throws (runtime_error not_found), p)
  | Some it =>
      match dispatch_completions _id hp it p with
      | (Returns tt, p2) =>
          let p3 := fulfil _id hp e p2 in
          (Returns tt, with_ops (delete _id (ops p3)) p3)
      | r => r
      end
  end.

(** *** invoke_async_op_completions *)

(** What the implementation routine did: returned its pair, or threw. *)
Inductive routine_result :=
| returned (done_now : bool) (hp : handle_ptr)
| threw (e : exn).

(** The handler of lines 379-388: the operation is completed with the
    exception, which is then thrown again. *)
Definition on_exception (_id : Z) (hp : handle_ptr) (e : exn)
    (p : async_file_io_dispatcher_base_p)
  : outcome handle_ptr * async_file_io_dispatcher_base_p :=
  match complete_async_op _id hp (Some e) p with
  | (Returns tt, p1) => (Throws e, p1)
  | (Throws e1, p1) => (Throws e1, p1)
  | (Aborts, p1) => (Aborts, p1)
  | (Blocks, p1) => (Blocks, p1)
  end.

(** [invoke_async_op_completions], lines 342-389, given what the routine
    did with the handle [hp]. *)
Definition invoke_async_op_completions (b : build) (_id : Z)
    (hp : handle_ptr) (r : routine_result)
    (p : async_file_io_dispatcher_base_p)
  : outcome handle_ptr * async_file_io_dispatcher_base_p :=
  match r with
  | threw e => on_exception _id hp e p
  | returned true hp' =>
      match complete_async_op _id hp' None p with
      | (Returns tt, p1) => (Returns hp', p1)
      | (Throws e, p1) => on_exception _id hp e p1
      | (Aborts, p1) => (Aborts, p1)
      | (Blocks, p1) => (Blocks, p1)
      end
  | returned false hp' =>
      if ndebug b then (Returns hp', p)
      else
        match ops p !! _id with
        | None => on_exception _id hp (runtime_error not_found) p
        | Some it =>
            if detached_promise it then (Returns hp', p) else (Aborts, p)
        end
  end.

(** A worker takes the [n]-th task of the queue, runs its routine (which
    does [r]) inside the wrapper, and makes the future of the task ready
    with what the wrapper returned or threw. *)
Definition run_task (b : build) (n : nat) (r : routine_result)
    (p : async_file_io_dispatcher_base_p)
  : option (outcome handle_ptr * async_file_io_dispatcher_base_p) :=
  match pool p !! n with
  | None => None
  | Some (c, hp) =>
      let p0 := with_pool (delete n (pool p)) p in
      match invoke_async_op_completions b (fst c) hp r p0 with
      | (Returns hp', p1) =>
          Some (Returns hp',
                with_task_results (<[fst c := value hp']> (task_results p1)) p1)
      | (Throws e, p1) =>
          Some (Throws e,
                with_task_results (<[fst c := exception e]> (task_results p1)) p1)
      | other => Some other
      end
  end.

(** *** Handles *)

(** [async_io_handle_posix], lines 140-170, with the members of its base
    [async_io_handle] that this file uses.  The base class is declared in
    the absent header; its constructor starts both counters at zero. *)
Record async_io_handle_posix := {
  handle_path : string;
  byteswritten : Z;
  byteswrittenatlastfsync : Z;
  fd : Z;
  has_been_added : bool;
  autoflush : bool;
  has_ever_been_fsynced : bool
}.

(** Modelled from the spec: [write_count_since_fsync] is a member of
    the absent base class; the specification flushes when
    [bytes_written_total > bytes_written_at_last_fsync], so it is the
    bytes written since the last fsync. *)
Definition write_count_since_fsync (hd : async_io_handle_posix) : Z :=
  byteswritten hd - byteswrittenatlastfsync hd.

(** The objects owned through [shared_ptr], by address. *)
Definition heap_t : Type := list async_io_handle_posix.

(** *** Batches *)

(** The loop shared by the three overloads of [chain_async_ops], lines
    464-490: [pre] picks the precondition of an element and [f] binds the
    routine to it.  No allocation fails inside a batch. *)
Fixpoint chain_loop {T : Type} (b : build) (_optype : OpType.t)
    (pre : T -> async_io_op) (detachedfuture : bool) (f : T -> routine)
    (container : list T) (ret : list async_io_op)
    (p : async_file_io_dispatcher_base_p)
  : outcome (list async_io_op) * async_file_io_dispatcher_base_p :=
  match container with
  | [] => (Returns ret, p)
  | i :: rest =>
      match chain_async_op b no_fault _optype (pre i) detachedfuture (f i) p with
      | (Returns op, p1) =>
          chain_loop b _optype pre detachedfuture f rest (ret ++ [op]) p1
      | (Throws e, p1) => (Throws e, p1)
      | (Aborts, p1) => (Aborts, p1)
      | (Blocks, p1) => (Blocks, p1)
      end
  end.

(** [chain_async_ops] over [async_io_op], lines 464-472. *)
Definition chain_async_ops (b : build) (_optype : OpType.t)
    (container : list async_io_op) (detachedfuture : bool)
    (f : async_io_op -> routine) (p : async_file_io_dispatcher_base_p) :=
  chain_loop b _optype (fun i => i) detachedfuture f container [] p.

(** [chain_async_ops] over [async_path_op_req], lines 473-481. *)
Definition chain_async_ops_path (b : build) (_optype : OpType.t)
    (container : list async_path_op_req) (detachedfuture : bool)
    (f : async_path_op_req -> routine) (p : async_file_io_dispatcher_base_p) :=
  chain_loop b _optype precondition detachedfuture f container [] p.

(** [chain_async_ops] over [async_data_op_req<T>], lines 482-490. *)
Definition chain_async_ops_data (b : build) (_optype : OpType.t)
    (container : list async_data_op_req) (detachedfuture : bool)
    (f : async_data_op_req -> routine) (p : async_file_io_dispatcher_base_p) :=
  chain_loop b _optype data_precondition detachedfuture f container [] p.

(** [completion], lines 269-279: the loop walks the two vectors together
    and ends with the shorter.  A callback is the pair of its deferral
    flag and the function, named by a number. *)
Fixpoint completion_loop (b : build) (_ops : list async_io_op)
    (callbacks : list (bool * nat)) (ret : list async_io_op)
    (p : async_file_io_dispatcher_base_p)
  : outcome (list async_io_op) * async_file_io_dispatcher_base_p :=
  match _ops, callbacks with
  | i :: ops', c :: callbacks' =>
      match chain_async_op b no_fault OpType.UserCompletion i (fst c)
                           (invoke_user_completion (snd c)) p with
      | (Returns op, p1) => completion_loop b ops' callbacks' (ret ++ [op]) p1
      | (Throws e, p1) => (Throws e, p1)
      | (Aborts, p1) => (Aborts, p1)
      | (Blocks, p1) => (Blocks, p1)
      end
  | _, _ => (Returns ret, p)
  end.

Definition completion (b : build) (_ops : list async_io_op)
    (callbacks : list (bool * nat)) (p : async_file_io_dispatcher_base_p) :=
  completion_loop b _ops callbacks [] p.

(** The three calls that follow a close on Linux, lines 824-828: open the
    containing directory after [op], sync it, close it.  The result is the
    last of the three references. *)
Definition chain_dirsync (b : build) (op : async_io_op)
    (hd : async_io_handle_posix) (p : async_file_io_dispatcher_base_p)
  : outcome async_io_op * async_file_io_dispatcher_base_p :=
  let containingdir :=
    {| precondition := op; path := parent_path b (handle_path hd);
       flags := file_flags.Read |} in
  match chain_async_op b no_fault (implicit_optype b)
                       (precondition containingdir) false
                       (dofile containingdir) p with
  | (Returns diropenop, p1) =>
      match chain_async_op b no_fault (implicit_optype b) diropenop false
                           (dosync diropenop) p1 with
      | (Returns syncdirop, p2) =>
          chain_async_op b no_fault (implicit_optype b) syncdirop false
                         (doclose syncdirop) p2
      | r => r
      end
  | r => r
  end.

(** One turn of the loop of [async_file_io_dispatcher_compat::close],
    lines 816-834.  A null or dangling handle behind the future is a
    crash. *)
Definition close_one (b : build) (heap : heap_t) (i : async_io_op)
    (p : async_file_io_dispatcher_base_p)
  : outcome async_io_op * async_file_io_dispatcher_base_p :=
  match chain_async_op b no_fault OpType.close i false (doclose i) p with
  | (Returns op, p1) =>
      if linux b then
        match get p1 (h i) with
        | Returns (Some a) =>
            match heap !! a with
            | Some hd =>
                if has_ever_been_fsynced hd then chain_dirsync b op hd p1
                else (Returns op, p1)
            | None => (Aborts, p1)
            end
        | Returns None => (Aborts, p1)
        | Throws e => (Throws e, p1)
        | Aborts => (Aborts, p1)
        | Blocks => (Blocks, p1)
        end
      else (Returns op, p1)
  | r => r
  end.

Fixpoint close_loop (b : build) (heap : heap_t) (_ops : list async_io_op)
    (ret : list async_io_op) (p : async_file_io_dispatcher_base_p)
  : outcome (list async_io_op) * async_file_io_dispatcher_base_p :=
  match _ops with
  | [] => (Returns ret, p)
  | i :: rest =>
      match close_one b heap i p with
      | (Returns op, p1) => close_loop b heap rest (ret ++ [op]) p1
      | (Throws e, p1) => (Throws e, p1)
      | (Aborts, p1) => (Aborts, p1)
      | (Blocks, p1) => (Blocks, p1)
      end
  end.

(** The entry points of [async_file_io_dispatcher_compat], lines
    789-845. *)
Module compat.
Definition dir b reqs p := chain_async_ops_path b OpType.dir reqs false dodir p.
Definition rmdir b reqs p := chain_async_ops_path b OpType.rmdir reqs false dormdir p.
Definition file b reqs p := chain_async_ops_path b OpType.file reqs false dofile p.
Definition rmfile b reqs p := chain_async_ops_path b OpType.rmfile reqs false dormfile p.
Definition sync b _ops p := chain_async_ops b OpType.sync _ops false dosync p.
Definition close b (heap : heap_t) _ops p := close_loop b heap _ops [] p.
Definition read b reqs p := chain_async_ops_data b OpType.read reqs false doread p.
Definition write b reqs p := chain_async_ops_data b OpType.write reqs false dowrite p.
End compat.

(** The entry points of [async_file_io_dispatcher_windows], lines
    619-650: reads and writes complete through a detached promise. *)
Module windows.
Definition dir b reqs p := chain_async_ops_path b OpType.dir reqs false dodir p.
Definition rmdir b reqs p := chain_async_ops_path b OpType.rmdir reqs false dormdir p.
Definition file b reqs p := chain_async_ops_path b OpType.file reqs false dofile p.
Definition rmfile b reqs p := chain_async_ops_path b OpType.rmfile reqs false dormfile p.
Definition sync b _ops p := chain_async_ops b OpType.sync _ops false dosync p.
Definition close b _ops p := chain_async_ops b OpType.close _ops false doclose p.
Definition read b reqs p := chain_async_ops_data b OpType.read reqs true doread p.
Definition write b reqs p := chain_async_ops_data b OpType.write reqs true dowrite p.
End windows.

(** The interface of [async_file_io_dispatcher_base]: a batch handed to
    one of its entry points, on the class the factory of lines 849-856
    made. *)
Inductive backend := backend_compat | backend_windows.

Inductive batch :=
| dir_batch (reqs : list async_path_op_req)
| rmdir_batch (reqs : list async_path_op_req)
| file_batch (reqs : list async_path_op_req)
| rmfile_batch (reqs : list async_path_op_req)
| sync_batch (_ops : list async_io_op)
| close_batch (_ops : list async_io_op)
| read_batch (reqs : list async_data_op_req)
| write_batch (reqs : list async_data_op_req)
| completion_batch (_ops : list async_io_op) (callbacks : list (bool * nat)).

Definition submit (k : backend) (b : build) (heap : heap_t) (x : batch)
    (p : async_file_io_dispatcher_base_p)
  : outcome (list async_io_op) * async_file_io_dispatcher_base_p :=
  match k, x with
  | backend_compat, dir_batch reqs => compat.dir b reqs p
  | backend_compat, rmdir_batch reqs => compat.rmdir b reqs p
  | backend_compat, file_batch reqs => compat.file b reqs p
  | backend_compat, rmfile_batch reqs => compat.rmfile b reqs p
  | backend_compat, sync_batch o => compat.sync b o p
  | backend_compat, close_batch o => compat.close b heap o p
  | backend_compat, read_batch reqs => compat.read b reqs p
  | backend_compat, write_batch reqs => compat.write b reqs p
  | backend_windows, dir_batch reqs => windows.dir b reqs p
  | backend_windows, rmdir_batch reqs => windows.rmdir b reqs p
  | backend_windows, file_batch reqs => windows.file b reqs p
  | backend_windows, rmfile_batch reqs => windows.rmfile b reqs p
  | backend_windows, sync_batch o => windows.sync b o p
  | backend_windows, close_batch o => windows.close b o p
  | backend_windows, read_batch reqs => windows.read b reqs p
  | backend_windows, write_batch reqs => windows.write b reqs p
  | _, completion_batch o callbacks => completion b o callbacks p
  end.

(** The length of the input vector of a batch (of [ops], for
    [completion]). *)
Definition input_length (x : batch) : nat :=
  match x with
  | dir_batch reqs | rmdir_batch reqs | file_batch reqs | rmfile_batch reqs =>
      length reqs
  | sync_batch o | close_batch o => length o
  | read_batch reqs | write_batch reqs => length reqs
  | completion_batch o _ => length o
  end.

(** *** Executions *)

(** The dispatcher at work: besides its own state, the operations whose
    routine has returned "not done" and whose completion is still to be
    reported (by the completion handler of lines 588-595, or by the
    user). *)
Record config := {
  disp : async_file_io_dispatcher_base_p;
  deferred : gset Z
}.

Definition pool_ids (p : async_file_io_dispatcher_base_p) : list Z :=
  (fun t : task => fst (fst t)) <$> pool p.

Definition completion_ids (o : async_file_io_dispatcher_op) : list Z :=
  fst <$> completions o.

(** What can happen next:
    - a call of [chain_async_op] (by any entry point, with any
      arguments) that returns or throws, before the counter wraps;
    - a worker runs a task of the queue, whose routine does [r];
    - the completion of a deferred operation is reported. *)
Inductive step (b : build) : config -> config -> Prop :=
| step_chain flt ot pre det f c r p' :
    monotoniccount (disp c) < SIZE_MAX ->
    chain_async_op b flt ot pre det f (disp c) = (r, p') ->
    r <> Aborts -> r <> Blocks ->
    step b c {| disp := p'; deferred := deferred c |}
| step_run n t r c out p' :
    pool (disp c) !! n = Some t ->
    run_task b n r (disp c) = Some (out, p') ->
    out <> Aborts ->
    step b c {| disp := p';
                deferred :=
                  match r with
                  | returned false _ =>
                      if is_returns out then {[ fst (fst t) ]} ∪ deferred c
                      else deferred c
                  | _ => deferred c
                  end |}
| step_deferred x hp e c out p' :
    x ∈ deferred c ->
    complete_async_op x hp e (disp c) = (out, p') ->
    step b c {| disp := p'; deferred := deferred c ∖ {[ x ]} |}.

Definition reachable (b : build) : config -> config -> Prop := rtc (step b).

(** The completion list of the operation [a], when it is registered. *)
Definition waiting (p : async_file_io_dispatcher_base_p) (a : Z)
  : option (list completion_t) :=
  completions <$> ops p !! a.

(** The invariant of the executions: ids come from the counter; a
    routine waiting on a completion list belongs to a registered
    operation, waits on that list only, and is neither queued nor
    deferred. *)
Record well_formed (c : config) : Prop := {
  wf_count : 0 <= monotoniccount (disp c) <= SIZE_MAX;
  wf_ops : forall a, is_Some (waiting (disp c) a) ->
                     0 < a <= monotoniccount (disp c);
  wf_pool : forall k, k ∈ pool_ids (disp c) ->
                      0 < k <= monotoniccount (disp c);
  wf_deferred : forall k, k ∈ deferred c ->
                          0 < k <= monotoniccount (disp c);
  wf_waiting : forall a cs k,
      waiting (disp c) a = Some cs -> k ∈ fst <$> cs ->
      is_Some (waiting (disp c) k) /\
      (k ∉ pool_ids (disp c)) /\
      (k ∉ deferred c) /\
      forall a' cs', waiting (disp c) a' = Some cs' ->
                     k ∈ fst <$> cs' -> a' = a
}.

(** The routine [f] bound to [k] waits on the completion list of [a]. *)
Definition waits_on (a k : Z) (f : routine)
    (p : async_file_io_dispatcher_base_p) : Prop :=
  exists cs, waiting p a = Some cs /\ (k, f) ∈ cs.

(** The operation [a] has reported its completion: it was handed out
    and is no longer in the registry. *)
Definition completed (a : Z) (p : async_file_io_dispatcher_base_p) : Prop :=
  0 < a <= monotoniccount p /\ ops p !! a = None.

(** The routine [f] of [k] cannot start before [a] has completed: it
    still waits on the list of [a], or [a] has completed. *)
Definition held_back (a k : Z) (f : routine)
    (p : async_file_io_dispatcher_base_p) : Prop :=
  waits_on a k f p \/ completed a p.

(** States to run the dispatcher on: a build, and a dispatcher with the
    operation 1 in flight. *)
Definition toy_build : build :=
  {| linux := true; ndebug := false; implicit_optype := OpType.Unknown;
     parent_path := fun s => s |}.

Definition one_in_flight : async_file_io_dispatcher_base_p :=
  with_ops {[ 1 := {| optype := OpType.file; op_h := task_future 1;
                      detached_promise := false; completions := [] |} ]}
           (with_monotoniccount 1 (new_dispatcher 0 0)).

(** A file opened and its open completed: the operation 1 is chained on
    nothing, queued, and run by a worker; its routine returns the handle
    at address 0.  [file_ref] is the reference the caller holds. *)
Definition file_req : async_path_op_req :=
  {| precondition := {| id := 0; h := no_state |}; path := "/t/a";
     flags := Z.lor file_flags.Create file_flags.Write |}.

Definition file_queued : async_file_io_dispatcher_base_p :=
  snd (chain_async_op toy_build no_fault OpType.file (precondition file_req)
         false (dofile file_req) (new_dispatcher 0 0)).

Definition file_opened : async_file_io_dispatcher_base_p :=
  match run_task toy_build 0 (returned true (Some 0%nat)) file_queued with
  | Some (_, p) => p
  | None => file_queued
  end.

Definition file_ref : async_io_op := {| id := 1; h := task_future 1 |}.

(** The handle of that file after five bytes were written and synced. *)
Definition synced_handle : async_io_handle_posix :=
  {| handle_path := "/t/a"; byteswritten := 5; byteswrittenatlastfsync := 5;
     fd := 3; has_been_added := true; autoflush := false;
     has_ever_been_fsynced := true |}.

(** The POSIX backend built where [__linux__] is not defined. *)
Definition bsd_build : build :=
  {| linux := false; ndebug := false; implicit_optype := OpType.Unknown;
     parent_path := fun s => s |}.

(** *** A batch as the sequence of its calls *)

(** One turn of the loop of an entry point: the call made for one
    element of the batch. *)
Definition call : Type :=
  async_file_io_dispatcher_base_p ->
  outcome async_io_op * async_file_io_dispatcher_base_p.

Definition chain_call {T : Type} (b : build) (_optype : OpType.t)
    (pre : T -> async_io_op) (detachedfuture : bool) (f : T -> routine)
    (i : T) : call :=
  chain_async_op b no_fault _optype (pre i) detachedfuture (f i).

Definition completion_call (b : build) (ic : async_io_op * (bool * nat))
  : call :=
  chain_async_op b no_fault OpType.UserCompletion (fst ic) (fst (snd ic))
                 (invoke_user_completion (snd (snd ic))).

(** The calls of a batch, in the order of its input; [completion] pairs
    the operations with the callbacks as far as both go. *)
Definition calls (k : backend) (b : build) (heap : heap_t) (x : batch)
  : list call :=
  match x with
  | dir_batch reqs => chain_call b OpType.dir precondition false dodir <$> reqs
  | rmdir_batch reqs =>
      chain_call b OpType.rmdir precondition false dormdir <$> reqs
  | file_batch reqs =>
      chain_call b OpType.file precondition false dofile <$> reqs
  | rmfile_batch reqs =>
      chain_call b OpType.rmfile precondition false dormfile <$> reqs
  | sync_batch o => chain_call b OpType.sync (fun i => i) false dosync <$> o
  | close_batch o =>
      match k with
      | backend_compat => close_one b heap <$> o
      | backend_windows =>
          chain_call b OpType.close (fun i => i) false doclose <$> o
      end
  | read_batch reqs =>
      chain_call b OpType.read data_precondition
                 (match k with backend_compat => false
                             | backend_windows => true end) doread <$> reqs
  | write_batch reqs =>
      chain_call b OpType.write data_precondition
                 (match k with backend_compat => false
                             | backend_windows => true end) dowrite <$> reqs
  | completion_batch o callbacks => completion_call b <$> zip o callbacks
  end.

(** The calls are made one after the other, each returns, and the
    references are collected in that order. *)
Inductive runs : list call -> async_file_io_dispatcher_base_p ->
                 list async_io_op -> async_file_io_dispatcher_base_p -> Prop :=
| runs_nil p : runs [] p [] p
| runs_cons (f : call) fs p op p1 refs p2 :
    f p = (Returns op, p1) -> runs fs p1 refs p2 ->
    runs (f :: fs) p (op :: refs) p2.

(** An operation can be chained on [pre] without waiting and without an
    exception: [pre] is in flight, or its handle can be read. *)
Definition chainable (p : async_file_io_dispatcher_base_p)
    (pre : async_io_op) : Prop :=
  in_flight pre p = true \/ is_returns (bound_handle p pre) = true.

(** On Linux a close also reads the handle of its precondition. *)
Definition closable (b : build) (heap : heap_t)
    (p : async_file_io_dispatcher_base_p) (i : async_io_op) : Prop :=
  chainable p i /\
  (linux b = true ->
   exists a hd, get p (h i) = Returns (Some a) /\ heap !! a = Some hd).

(** The preconditions of the elements of a batch that get a call. *)
Definition preconditions (x : batch) : list async_io_op :=
  match x with
  | dir_batch reqs | rmdir_batch reqs | file_batch reqs | rmfile_batch reqs =>
      precondition <$> reqs
  | sync_batch o | close_batch o => o
  | read_batch reqs | write_batch reqs => data_precondition <$> reqs
  | completion_batch o callbacks => fst <$> zip o callbacks
  end.

(** The dispatcher has moved on: ids were handed out, operations
    registered, no future changed. *)
Definition grows (p p' : async_file_io_dispatcher_base_p) : Prop :=
  monotoniccount p <= monotoniccount p' /\
  (forall a, is_Some (waiting p a) -> is_Some (waiting p' a)) /\
  (forall fh, get p' fh = get p fh).

(** The ids a batch may use: four for each close on the POSIX backend,
    one for each call otherwise. *)
Definition ids_per_call (k : backend) (x : batch) : Z :=
  match k, x with
  | backend_compat, close_batch _ => 4
  | _, _ => 1
  end.

(** The call [f] returns in every state the dispatcher may have grown
    into from [p0], using at most [n] ids. *)
Definition returns_within (n : Z) (D : gset Z)
    (p0 : async_file_io_dispatcher_base_p) (f : call) : Prop :=
  forall q, well_formed {| disp := q; deferred := D |} -> grows p0 q ->
            monotoniccount q + n <= SIZE_MAX ->
            exists op q', f q = (Returns op, q') /\
                          well_formed {| disp := q'; deferred := D |} /\
                          grows q q' /\
                          monotoniccount q' <= monotoniccount q + n.

(** A batch the dispatcher can take without waiting, throwing or
    wrapping the counter. *)
Definition submittable (k : backend) (b : build) (heap : heap_t) (x : batch)
    (p : async_file_io_dispatcher_base_p) (D : gset Z) : Prop :=
  well_formed {| disp := p; deferred := D |} /\
  monotoniccount p + ids_per_call k x * Z.of_nat (length (calls k b heap x))
    <= SIZE_MAX /\
  Forall (chainable p) (preconditions x) /\
  match k, x with
  | backend_compat, close_batch o => Forall (closable b heap p) o
  | _, _ => True
  end.

(** *** What the steps of the dispatcher change *)

(** The frame of a step of the dispatcher: the counter and the futures
    made ready by the pool. *)
Definition same_frame (p p' : async_file_io_dispatcher_base_p) : Prop :=
  monotoniccount p' = monotoniccount p /\
  task_results p' = task_results p /\
  flagsforce p' = flagsforce p /\ flagsmask p' = flagsmask p /\
  fds p' = fds p.

(** The completion lists after a call that registered the operation [k]
    for the routine [f]: [k] has an empty list; the precondition, when
    it was in flight, has [(k, f)] at the end of its list. *)
Definition waiting_after (pre : async_io_op) (k : Z) (f : routine)
    (p : async_file_io_dispatcher_base_p) (a : Z) : option (list completion_t) :=
  if decide (a = k) then Some []
  else if in_flight pre p && bool_decide (a = id pre)
       then (fun cs => cs ++ [(k, f)]) <$> waiting p a
       else waiting p a.

(** What one call of [complete_async_op] comes to under the invariant:
    the operation completes, or it is not registered and nothing
    changes. *)
Inductive completion_effect (x : Z)
    (p p' : async_file_io_dispatcher_base_p) : Prop :=
| effect_completed cs hp :
    waiting p x = Some cs ->
    pool p' = pool p ++ ((fun c => (c, hp)) <$> cs) ->
    ops p' !! x = None ->
    (forall a, a <> x -> waiting p' a = waiting p a) ->
    monotoniccount p' = monotoniccount p ->
    completion_effect x p p'
| effect_none :
    p' = p -> completion_effect x p p'.

(** Two writes chained on the file opened, from the state where its open
    has completed. *)
Definition two_writes : batch :=
  write_batch [ {| data_precondition := file_ref; buffers := [(0, 5)];
                   where_ := 0 |};
                {| data_precondition := file_ref; buffers := [(0, 5)];
                   where_ := 5 |} ].

(** A sync chained on the open of the file while the open is queued. *)
Definition sync_chained : async_file_io_dispatcher_base_p :=
  snd (chain_async_op toy_build no_fault OpType.sync file_ref false
         (dosync file_ref) file_queued).

(** The open of the file has run and returned the handle 0, which
    released the sync; the sync has run and completed. *)
Definition sync_completed : async_file_io_dispatcher_base_p :=
  match run_task toy_build 0 (returned true (Some 0%nat)) sync_chained with
  | Some (_, p) =>
      match run_task toy_build 0 (returned true (Some 0%nat)) p with
      | Some (_, p') => p'
      | None => p
      end
  | None => sync_chained
  end.

(** Calls made one after the other until one does not return, the
    references of those that returned collected behind [ret]. *)
Fixpoint run_calls (fs : list call) (ret : list async_io_op)
    (p : async_file_io_dispatcher_base_p)
  : outcome (list async_io_op) * async_file_io_dispatcher_base_p :=
  match fs with
  | [] => (Returns ret, p)
  | f :: fs' =>
      match f p with
      | (Returns op, p1) => run_calls fs' (ret ++ [op]) p1
      | (Throws e, p1) => (Throws e, p1)
      | (Aborts, p1) => (Aborts, p1)
      | (Blocks, p1) => (Blocks, p1)
      end
  end.

(** The open of the file has run and has thrown: the operation 1 has
    completed and its future holds the error. *)
Definition file_failed : async_file_io_dispatcher_base_p :=
  match run_task toy_build 0 (threw (os_error 13 "/t/a")) file_queued with
  | Some (_, p) => p
  | None => file_queued
  end.

(** *** The POSIX primitives *)

(** The system calls the POSIX backend makes (lines 36-42). *)
Inductive syscall :=
| call_mkdir (_path : string) (mode : Z)
| call_rmdir (_path : string)
| call_stat (_path : string)
| call_open (_path : string) (oflags mode : Z)
| call_close (_fd : Z)
| call_unlink (_path : string)
| call_fsync (_fd : Z)
| call_preadv (_fd : Z) (iov : list (Z * Z)) (offset : Z)
| call_pwritev (_fd : Z) (iov : list (Z * Z)) (offset : Z).

(** The host: what a system call returns, the [errno] it leaves and the
    state it leaves the kernel in; the mode [stat] reports; the constants
    of <fcntl.h>, <errno.h> and <sys/stat.h>; the width of [long]. *)
Class posix := {
  kernel : Type;
  posix_call : syscall -> kernel -> Z * Z * kernel;
  st_mode : string -> kernel -> Z;
  S_ISDIR : Z -> bool;
  long_bits : Z;
  long_bits_pos : 0 < long_bits;
  O_RDONLY : Z;
  O_WRONLY : Z;
  O_RDWR : Z;
  O_APPEND : Z;
  O_TRUNC : Z;
  O_CREAT : Z;
  O_EXCL : Z;
  O_DIRECT : option Z;
  EEXIST : Z
}.

Section primitives.
Context {OS : posix}.

(** What the primitives act on: the dispatcher they are members of, the
    kernel, the system calls issued so far (oldest first) and the handles
    alive. *)
Record system := {
  this : async_file_io_dispatcher_base_p;
  kern : kernel;
  issued : list syscall;
  heap : heap_t
}.

Definition with_this (p : async_file_io_dispatcher_base_p) (s : system) :=
  {| this := p; kern := kern s; issued := issued s; heap := heap s |}.

Definition with_heap (m : heap_t) (s : system) :=
  {| this := this s; kern := kern s; issued := issued s; heap := m |}.

(** A system call: its result, [errno], and the system after it. *)
Definition issue (c : syscall) (s : system) : Z * Z * system :=
  let '(ret, errno, k) := posix_call c (kern s) in
  (ret, errno,
   {| this := this s; kern := k; issued := issued s ++ [c]; heap := heap s |}).

(** [ERRHOSFN (exp, path)] of NiallsCPP11Utilities (ErrorHandling.hpp,
    not part of the sources): the error of the system is thrown when the
    value is negative; line 148 exempts the descriptor -999 from it. *)
Definition ERRHOSFN (ret errno : Z) (_path : string) : outcome unit :=
  if ret <? 0 then Throws (os_error errno _path) else Returns tt.

(** [completion_returntype]: "done now" and the resulting handle. *)
Definition completion_returntype : Type := bool * handle_ptr.

(** [int_add_io_handle], lines 229-233: [insert] keeps an entry that is
    there. *)
Definition int_add_io_handle (key : Z) (a : nat)
    (p : async_file_io_dispatcher_base_p) : async_file_io_dispatcher_base_p :=
  match fds p !! key with
  | Some _ => p
  | None => with_fds (<[key := a]> (fds p)) p
  end.

(** The constructor of [async_io_handle_posix], lines 146-150, given the
    [errno] the descriptor came with: the new handle and its address. *)
Definition new_handle (_path : string) (_autoflush : bool) (_fd errno : Z)
    (s : system) : outcome nat * system :=
  match (if negb (_fd =? -999) then ERRHOSFN _fd errno _path else Returns tt) with
  | Returns tt =>
      (Returns (length (heap s)),
       with_heap (heap s ++ [ {| handle_path := _path; byteswritten := 0;
                                 byteswrittenatlastfsync := 0; fd := _fd;
                                 has_been_added := false;
                                 autoflush := _autoflush;
                                 has_ever_been_fsynced := false |} ]) s)
  | Throws e => (Throws e, s)
  | Aborts => (Aborts, s)
  | Blocks => (Blocks, s)
  end.

Definition set_has_been_added (hd : async_io_handle_posix) :=
  {| handle_path := handle_path hd; byteswritten := byteswritten hd;
     byteswrittenatlastfsync := byteswrittenatlastfsync hd; fd := fd hd;
     has_been_added := true; autoflush := autoflush hd;
     has_ever_been_fsynced := has_ever_been_fsynced hd |}.

Definition set_byteswritten (n : Z) (hd : async_io_handle_posix) :=
  {| handle_path := handle_path hd; byteswritten := n;
     byteswrittenatlastfsync := byteswrittenatlastfsync hd; fd := fd hd;
     has_been_added := has_been_added hd; autoflush := autoflush hd;
     has_ever_been_fsynced := has_ever_been_fsynced hd |}.

Definition set_fd (n : Z) (hd : async_io_handle_posix) :=
  {| handle_path := handle_path hd; byteswritten := byteswritten hd;
     byteswrittenatlastfsync := byteswrittenatlastfsync hd; fd := n;
     has_been_added := has_been_added hd; autoflush := autoflush hd;
     has_ever_been_fsynced := has_ever_been_fsynced hd |}.

(** Lines 736-737 of [dosync]. *)
Definition set_synced (bytestobesynced : Z) (hd : async_io_handle_posix) :=
  {| handle_path := handle_path hd; byteswritten := byteswritten hd;
     byteswrittenatlastfsync :=
       byteswrittenatlastfsync hd + to_long long_bits bytestobesynced;
     fd := fd hd;
     has_been_added := has_been_added hd; autoflush := autoflush hd;
     has_ever_been_fsynced := true |}.

(** [do_add_io_handle_to_parent], lines 152-156. *)
Definition do_add_io_handle_to_parent (a : nat) (s : system) : system :=
  match heap s !! a with
  | Some hd =>
      with_heap (<[a := set_has_been_added hd]> (heap s))
                (with_this (int_add_io_handle (to_size_t (fd hd)) a (this s)) s)
  | None => s
  end.

(** The flags of [open] for a request, lines 701-715 ([OS_SYNC] is
    defined nowhere, so lines 713-715 are compiled out). *)
Definition open_flags (_flags : Z) : Z :=
  let f0 := 0 in
  let f1 :=
    if has_flags file_flags.Read _flags && has_flags file_flags.Write _flags
    then Z.lor f0 O_RDWR
    else if has_flags file_flags.Read _flags then Z.lor f0 O_RDONLY
    else if has_flags file_flags.Write _flags then Z.lor f0 O_WRONLY
    else f0 in
  let f2 := if has_flags file_flags.Append _flags then Z.lor f1 O_APPEND
            else f1 in
  let f3 := if has_flags file_flags.Truncate _flags then Z.lor f2 O_TRUNC
            else f2 in
  let f4 :=
    if has_flags file_flags.CreateOnlyIfNotExist _flags
    then Z.lor f3 (Z.lor O_EXCL O_CREAT)
    else if has_flags file_flags.Create _flags then Z.lor f3 O_CREAT
    else f3 in
  match O_DIRECT with
  | Some o => if has_flags file_flags.OSDirect _flags then Z.lor f4 o else f4
  | None => f4
  end.

(** [async_file_io_dispatcher_compat::dofile], lines 699-720. *)
Definition posix_dofile (_id : Z) (_ : handle_ptr) (req : async_path_op_req)
    (s : system) : outcome completion_returntype * system :=
  let _flags := fileflags (this s) (flags req) in
  let '(_fd, errno, s1) :=
    issue (call_open (path req) (open_flags _flags) 432) s in
  match new_handle (path req)
          (Z.lor file_flags.AutoFlush file_flags.Write =?
           Z.land _flags (Z.lor file_flags.AutoFlush file_flags.Write))
          _fd errno s1 with
  | (Returns a, s2) =>
      (Returns (true, Some a), do_add_io_handle_to_parent a s2)
  | (Throws e, s2) => (Throws e, s2)
  | (Aborts, s2) => (Aborts, s2)
  | (Blocks, s2) => (Blocks, s2)
  end.

(** [async_file_io_dispatcher_compat::dodir], lines 656-689.  [ret]
    holds the result of [mkdir] until line 673 gives it the result of
    [stat]. *)
Definition posix_dodir (_id : Z) (_h : handle_ptr) (req : async_path_op_req)
    (s : system) : outcome completion_returntype * system :=
  let ret := 0 in
  let flags0 := fileflags (this s) (flags req) in
  let '(ret, flags1, s1) :=
    if has_flags file_flags.Create flags0 then
      let '(ret, errno, s1) := issue (call_mkdir (path req) 504) s in
      let ret :=
        if (ret =? -1) && (errno =? EEXIST) then
          if negb (has_flags file_flags.CreateOnlyIfNotExist flags0)
          then 0 else ret
        else ret in
      (ret,
       Z.land flags0
         (Z.lnot (Z.lor file_flags.Create file_flags.CreateOnlyIfNotExist)),
       s1)
    else (ret, flags0, s) in
  let mode := st_mode (path req) (kern s1) in
  let '(ret, errno, s2) := issue (call_stat (path req)) s1 in
  if (ret =? 0) && negb (S_ISDIR mode)
  then (Throws (runtime_error "Not a directory"), s2)
  else
    let req1 := {| precondition := precondition req; path := path req;
                   flags := flags1 |} in
    if has_flags file_flags.Read flags1 then
      match posix_dofile _id _h req1 s2 with
      | (Returns (done, Some a), s3) =>
          (Returns (done, Some a),
           with_heap (alter (set_byteswritten 1) a (heap s3)) s3)
      | r => r
      end
    else
      match new_handle (path req) false (-999) errno s2 with
      | (Returns a, s3) => (Returns (true, Some a), s3)
      | (Throws e, s3) => (Throws e, s3)
      | (Aborts, s3) => (Aborts, s3)
      | (Blocks, s3) => (Blocks, s3)
      end.

(** A dummy handle for a path, lines 686, 695 and 726. *)
Definition dummy_handle (_path : string) (s : system)
  : outcome completion_returntype * system :=
  match new_handle _path false (-999) 0 s with
  | (Returns a, s1) => (Returns (true, Some a), s1)
  | (Throws e, s1) => (Throws e, s1)
  | (Aborts, s1) => (Aborts, s1)
  | (Blocks, s1) => (Blocks, s1)
  end.

(** [dormdir], lines 691-697. *)
Definition posix_dormdir (_id : Z) (_ : handle_ptr) (req : async_path_op_req)
    (s : system) : outcome completion_returntype * system :=
  let '(ret, errno, s1) := issue (call_rmdir (path req)) s in
  match ERRHOSFN ret errno (path req) with
  | Returns tt => dummy_handle (path req) s1
  | Throws e => (Throws e, s1)
  | Aborts => (Aborts, s1)
  | Blocks => (Blocks, s1)
  end.

(** [dormfile], lines 722-728. *)
Definition posix_dormfile (_id : Z) (_ : handle_ptr) (req : async_path_op_req)
    (s : system) : outcome completion_returntype * system :=
  let '(ret, errno, s1) := issue (call_unlink (path req)) s in
  match ERRHOSFN ret errno (path req) with
  | Returns tt => dummy_handle (path req) s1
  | Throws e => (Throws e, s1)
  | Aborts => (Aborts, s1)
  | Blocks => (Blocks, s1)
  end.

(** [h.get ()] dereferenced: a null or dangling pointer is a crash. *)
Definition deref (hp : handle_ptr) (s : system) : option (nat * async_io_handle_posix) :=
  match hp with
  | Some a => match heap s !! a with Some hd => Some (a, hd) | None => None end
  | None => None
  end.

(** [dosync], lines 730-739. *)
Definition posix_dosync (_id : Z) (hp : handle_ptr) (_ : async_io_op)
    (s : system) : outcome completion_returntype * system :=
  match deref hp s with
  | None => (Aborts, s)
  | Some (a, hd) =>
      let bytestobesynced := to_size_t (write_count_since_fsync hd) in
      let '(flushed, s1) :=
        if negb (bytestobesynced =? 0) then
          let '(ret, errno, s1) := issue (call_fsync (fd hd)) s in
          (ERRHOSFN ret errno (handle_path hd), s1)
        else (Returns tt, s) in
      match flushed with
      | Returns tt =>
          (Returns (true, hp),
           with_heap (<[a := set_synced bytestobesynced hd]> (heap s1)) s1)
      | Throws e => (Throws e, s1)
      | Aborts => (Aborts, s1)
      | Blocks => (Blocks, s1)
      end
  end.

(** [doclose], lines 741-749. *)
Definition posix_doclose (_id : Z) (hp : handle_ptr) (_ : async_io_op)
    (s : system) : outcome completion_returntype * system :=
  match deref hp s with
  | None => (Aborts, s)
  | Some (a, hd) =>
      let '(flushed, s1) :=
        if autoflush hd && negb (write_count_since_fsync hd =? 0) then
          let '(ret, errno, s1) := issue (call_fsync (fd hd)) s in
          (ERRHOSFN ret errno (handle_path hd), s1)
        else (Returns tt, s) in
      match flushed with
      | Returns tt =>
          let '(ret, errno, s2) := issue (call_close (fd hd)) s1 in
          match ERRHOSFN ret errno (handle_path hd) with
          | Returns tt =>
              (Returns (true, hp),
               with_heap (<[a := set_fd (-1) hd]> (heap s2)) s2)
          | Throws e => (Throws e, s2)
          | Aborts => (Aborts, s2)
          | Blocks => (Blocks, s2)
          end
      | Throws e => (Throws e, s1)
      | Aborts => (Aborts, s1)
      | Blocks => (Blocks, s1)
      end
  end.

(** [doread], lines 751-765. *)
Definition posix_doread (_id : Z) (hp : handle_ptr) (req : async_data_op_req)
    (s : system) : outcome completion_returntype * system :=
  match deref hp s with
  | None => (Aborts, s)
  | Some (a, hd) =>
      let '(ret, errno, s1) :=
        issue (call_preadv (fd hd) (buffers req) (where_ req)) s in
      match ERRHOSFN (to_int ret) errno (handle_path hd) with
      | Returns tt => (Returns (true, hp), s1)
      | Throws e => (Throws e, s1)
      | Aborts => (Aborts, s1)
      | Blocks => (Blocks, s1)
      end
  end.

(** [dowrite], lines 767-781. *)
Definition posix_dowrite (_id : Z) (hp : handle_ptr) (req : async_data_op_req)
    (s : system) : outcome completion_returntype * system :=
  match deref hp s with
  | None => (Aborts, s)
  | Some (a, hd) =>
      let '(ret, errno, s1) :=
        issue (call_pwritev (fd hd) (buffers req) (where_ req)) s in
      match ERRHOSFN (to_int ret) errno (handle_path hd) with
      | Returns tt => (Returns (true, hp), s1)
      | Throws e => (Throws e, s1)
      | Aborts => (Aborts, s1)
      | Blocks => (Blocks, s1)
      end
  end.

(** The routine of a task run on the POSIX backend.  A user completion
    is a function of the caller; it is not modelled and does nothing. *)
Definition posix_routine (_id : Z) (hp : handle_ptr) (f : routine)
    (s : system) : outcome completion_returntype * system :=
  match f with
  | invoke_user_completion _ => (Returns (true, hp), s)
  | dodir req => posix_dodir _id hp req s
  | dormdir req => posix_dormdir _id hp req s
  | dofile req => posix_dofile _id hp req s
  | dormfile req => posix_dormfile _id hp req s
  | dosync op => posix_dosync _id hp op s
  | doclose op => posix_doclose _id hp op s
  | doread req => posix_doread _id hp req s
  | dowrite req => posix_dowrite _id hp req s
  end.

(** Tasks run one after the other. *)
Definition posix_run (ts : list task) (s : system) : system :=
  foldl (fun s t => snd (posix_routine (fst (fst t)) (snd t) (snd (fst t)) s))
        s ts.

(** The invariant of a handle. *)
Definition counters_ordered (hd : async_io_handle_posix) : Prop :=
  byteswrittenatlastfsync hd <= byteswritten hd.

(** The invariant holds of every handle alive. *)
Definition heap_ordered (s : system) : Prop :=
  Forall counters_ordered (heap s).

Definition is_fsync (c : syscall) : bool :=
  match c with call_fsync _ => true | _ => false end.

(** The kernel flushes issued between two states. *)
Definition flushes (s s' : system) : list syscall :=
  List.filter is_fsync (drop (length (issued s)) (issued s')).

End primitives.

(** *** The Windows primitives *)

(** The calls the Windows backend makes, straight or through ASIO. *)
Inductive wincall :=
| call_CreateDirectory (_path : string)
| call_GetFileAttributes (_path : string)
| call_RemoveDirectory (_path : string)
| call_DeleteFile (_path : string)
| call_CreateFile (_path : string) (access share creation attrs : Z)
| call_FlushFileBuffers (handle : Z)
| call_CloseHandle (handle : Z)
| call_async_read_at (handle : Z) (iov : list (Z * Z)) (offset : Z)
| call_async_write_at (handle : Z) (iov : list (Z * Z)) (offset : Z).

(** The host: what a call returns, what [GetLastError] then reports and
    the state the call leaves the kernel in. *)
Class win32 := {
  wkernel : Type;
  win_call : wincall -> wkernel -> Z * Z * wkernel
}.

(** Constants of <Windows.h>. *)
Definition ERROR_ALREADY_EXISTS : Z := 183.
Definition INVALID_FILE_ATTRIBUTES : Z := 4294967295.
Definition FILE_ATTRIBUTE_DIRECTORY : Z := 16.
Definition FILE_ATTRIBUTE_NORMAL : Z := 128.
Definition FILE_FLAG_OVERLAPPED : Z := 1073741824.
Definition FILE_FLAG_SEQUENTIAL_SCAN : Z := 134217728.
Definition FILE_FLAG_NO_BUFFERING : Z := 536870912.
Definition FILE_FLAG_WRITE_THROUGH : Z := 2147483648.
Definition FILE_APPEND_DATA : Z := 4.
Definition SYNCHRONIZE : Z := 1048576.
Definition GENERIC_READ : Z := 2147483648.
Definition GENERIC_WRITE : Z := 1073741824.
Definition FILE_SHARE_READ : Z := 1.
Definition FILE_SHARE_WRITE : Z := 2.
Definition FILE_SHARE_DELETE : Z := 4.
Definition CREATE_NEW : Z := 1.
Definition CREATE_ALWAYS : Z := 2.
Definition OPEN_EXISTING : Z := 3.
Definition TRUNCATE_EXISTING : Z := 5.
Definition INVALID_HANDLE_VALUE : Z := -1.

(** [async_io_handle_windows], lines 109-138, with the counters of its
    base; [w_h] is the ASIO handle, when there is one. *)
Record async_io_handle_windows := {
  w_path : string;
  w_byteswritten : Z;
  w_byteswrittenatlastfsync : Z;
  w_h : option Z;
  w_myid : Z;
  w_has_been_added : bool;
  w_autoflush : bool
}.

(** Modelled from the spec: as [write_count_since_fsync] above, for the
    Windows handle. *)
Definition w_write_count_since_fsync (hd : async_io_handle_windows) : Z :=
  w_byteswritten hd - w_byteswrittenatlastfsync hd.

Definition w_counters_ordered (hd : async_io_handle_windows) : Prop :=
  w_byteswrittenatlastfsync hd <= w_byteswritten hd.

Section windows_primitives.
Context {W : win32}.

Record wsystem := {
  w_this : async_file_io_dispatcher_base_p;
  w_kern : wkernel;
  w_issued : list wincall;
  w_heap : list async_io_handle_windows
}.

Definition w_with_heap (m : list async_io_handle_windows) (s : wsystem) :=
  {| w_this := w_this s; w_kern := w_kern s; w_issued := w_issued s;
     w_heap := m |}.

Definition w_issue (c : wincall) (s : wsystem) : Z * Z * wsystem :=
  let '(ret, err, k) := win_call c (w_kern s) in
  (ret, err,
   {| w_this := w_this s; w_kern := k; w_issued := w_issued s ++ [c];
      w_heap := w_heap s |}).

(** [ERRHWINFN (exp, path)] of NiallsCPP11Utilities: the error of the
    system is thrown when the value is zero. *)
Definition ERRHWINFN (ret err : Z) (_path : string) : outcome unit :=
  if ret =? 0 then Throws (os_error err _path) else Returns tt.

(** The constructor of line 116: a handle for a path, with no ASIO
    handle. *)
Definition w_dummy_handle (_path : string) (s : wsystem)
  : outcome completion_returntype * wsystem :=
  (Returns (true, Some (length (w_heap s))),
   w_with_heap (w_heap s ++ [ {| w_path := _path; w_byteswritten := 0;
                                 w_byteswrittenatlastfsync := 0;
                                 w_h := None; w_myid := 0;
                                 w_has_been_added := false;
                                 w_autoflush := false |} ]) s).

(** [dofile], lines 534-557.  The constructor of line 117 hands the
    result of [CreateFile] to ASIO, which throws on a handle it cannot
    take; [do_add_io_handle_to_parent] (lines 119-126) then registers
    the handle. *)
Definition windows_dofile (_id : Z) (_ : handle_ptr) (req : async_path_op_req)
    (s : wsystem) : outcome completion_returntype * wsystem :=
  let _flags := fileflags (w_this s) (flags req) in
  let access :=
    if has_flags file_flags.Append _flags
    then Z.lor 0 (Z.lor FILE_APPEND_DATA SYNCHRONIZE)
    else
      let a1 := if has_flags file_flags.Read _flags then Z.lor 0 GENERIC_READ
                else 0 in
      if has_flags file_flags.Write _flags then Z.lor a1 GENERIC_WRITE else a1 in
  let creation :=
    if has_flags file_flags.CreateOnlyIfNotExist _flags then Z.lor 0 CREATE_NEW
    else if has_flags file_flags.Create _flags then Z.lor 0 CREATE_ALWAYS
    else if has_flags file_flags.Truncate _flags then Z.lor 0 TRUNCATE_EXISTING
    else Z.lor 0 OPEN_EXISTING in
  let a0 := Z.lor FILE_ATTRIBUTE_NORMAL FILE_FLAG_OVERLAPPED in
  let a1 := if has_flags file_flags.WillBeSequentiallyAccessed _flags
            then Z.lor a0 FILE_FLAG_SEQUENTIAL_SCAN else a0 in
  let a2 := if has_flags file_flags.OSDirect _flags
            then Z.lor a1 FILE_FLAG_NO_BUFFERING else a1 in
  let a3 := if has_flags file_flags.OSSync _flags
            then Z.lor a2 FILE_FLAG_WRITE_THROUGH else a2 in
  let '(handle, err, s1) :=
    w_issue (call_CreateFile (path req) access
               (Z.lor (Z.lor FILE_SHARE_READ FILE_SHARE_WRITE) FILE_SHARE_DELETE)
               creation a3) s in
  if handle =? INVALID_HANDLE_VALUE then (Throws (os_error err (path req)), s1)
  else
    let a := length (w_heap s1) in
    let hd := {| w_path := path req; w_byteswritten := 0;
                 w_byteswrittenatlastfsync := 0; w_h := Some handle;
                 w_myid := handle; w_has_been_added := true;
                 w_autoflush :=
                   Z.lor file_flags.AutoFlush file_flags.Write =?
                   Z.land _flags (Z.lor file_flags.AutoFlush file_flags.Write) |} in
    (Returns (true, Some a),
     {| w_this := int_add_io_handle handle a (w_this s1); w_kern := w_kern s1;
        w_issued := w_issued s1; w_heap := w_heap s1 ++ [hd] |}).

(** [async_file_io_dispatcher_windows::dodir], lines 498-524.  [ret]
    holds the result of [CreateDirectory] and is not read again. *)
Definition windows_dodir (_id : Z) (_h : handle_ptr) (req : async_path_op_req)
    (s : wsystem) : outcome completion_returntype * wsystem :=
  let ret := 0 in
  let flags0 := fileflags (w_this s) (flags req) in
  let '(ret, flags1, s1) :=
    if has_flags file_flags.Create flags0 then
      let '(ret, err, s1) := w_issue (call_CreateDirectory (path req)) s in
      let ret :=
        if (ret =? 0) && (ERROR_ALREADY_EXISTS =? err) then
          if negb (has_flags file_flags.CreateOnlyIfNotExist flags0)
          then 1 else ret
        else ret in
      (ret,
       Z.land flags0
         (Z.lnot (Z.lor file_flags.Create file_flags.CreateOnlyIfNotExist)),
       s1)
    else (ret, flags0, s) in
  let '(attr, _, s2) := w_issue (call_GetFileAttributes (path req)) s1 in
  if negb (INVALID_FILE_ATTRIBUTES =? attr) &&
     (Z.land attr FILE_ATTRIBUTE_DIRECTORY =? 0)
  then (Throws (runtime_error "Not a directory"), s2)
  else
    if has_flags file_flags.Read flags1 then
      windows_dofile _id _h
        {| precondition := precondition req; path := path req;
           flags := flags1 |} s2
    else w_dummy_handle (path req) s2.

Definition w_deref (hp : handle_ptr) (s : wsystem)
  : option (nat * async_io_handle_windows) :=
  match hp with
  | Some a => match w_heap s !! a with Some hd => Some (a, hd) | None => None end
  | None => None
  end.

Definition w_set_synced (bytestobesynced : Z) (hd : async_io_handle_windows) :=
  {| w_path := w_path hd; w_byteswritten := w_byteswritten hd;
     w_byteswrittenatlastfsync :=
       w_byteswrittenatlastfsync hd + to_long 32 bytestobesynced;
     w_h := w_h hd; w_myid := w_myid hd;
     w_has_been_added := w_has_been_added hd; w_autoflush := w_autoflush hd |}.

Definition w_reset_h (hd : async_io_handle_windows) :=
  {| w_path := w_path hd; w_byteswritten := w_byteswritten hd;
     w_byteswrittenatlastfsync := w_byteswrittenatlastfsync hd;
     w_h := None; w_myid := w_myid hd;
     w_has_been_added := w_has_been_added hd; w_autoflush := w_autoflush hd |}.

(** [dosync], lines 567-575; [long] has 32 bits on Windows.  Without an
    ASIO handle line 572 dereferences null. *)
Definition windows_dosync (_id : Z) (hp : handle_ptr) (_ : async_io_op)
    (s : wsystem) : outcome completion_returntype * wsystem :=
  match w_deref hp s with
  | None => (Aborts, s)
  | Some (a, hd) =>
      let bytestobesynced := to_size_t (w_write_count_since_fsync hd) in
      if negb (bytestobesynced =? 0) then
        match w_h hd with
        | None => (Aborts, s)
        | Some handle =>
            let '(ret, err, s1) := w_issue (call_FlushFileBuffers handle) s in
            match ERRHWINFN ret err (w_path hd) with
            | Returns tt =>
                (Returns (true, hp),
                 w_with_heap (<[a := w_set_synced bytestobesynced hd]>
                                (w_heap s1)) s1)
            | Throws e => (Throws e, s1)
            | Aborts => (Aborts, s1)
            | Blocks => (Blocks, s1)
            end
        end
      else
        (Returns (true, hp),
         w_with_heap (<[a := w_set_synced bytestobesynced hd]> (w_heap s)) s)
  end.

(** [doclose], lines 577-586. *)
Definition windows_doclose (_id : Z) (hp : handle_ptr) (_ : async_io_op)
    (s : wsystem) : outcome completion_returntype * wsystem :=
  match w_deref hp s with
  | None => (Aborts, s)
  | Some (a, hd) =>
      match w_h hd with
      | None => (Aborts, s)
      | Some handle =>
          let '(flushed, s1) :=
            if w_autoflush hd && negb (w_write_count_since_fsync hd =? 0) then
              let '(ret, err, s1) := w_issue (call_FlushFileBuffers handle) s in
              (ERRHWINFN ret err (w_path hd), s1)
            else (Returns tt, s) in
          match flushed with
          | Returns tt =>
              let '(ret, err, s2) := w_issue (call_CloseHandle handle) s1 in
              match ERRHWINFN ret err (w_path hd) with
              | Returns tt =>
                  (Returns (true, hp),
                   w_with_heap (<[a := w_reset_h hd]> (w_heap s2)) s2)
              | Throws e => (Throws e, s2)
              | Aborts => (Aborts, s2)
              | Blocks => (Blocks, s2)
              end
          | Throws e => (Throws e, s1)
          | Aborts => (Aborts, s1)
          | Blocks => (Blocks, s1)
          end
      end
  end.

(** [dowrite], lines 605-612: the write is started and the completion
    left to the handler of lines 588-595. *)
Definition windows_dowrite (_id : Z) (hp : handle_ptr) (req : async_data_op_req)
    (s : wsystem) : outcome completion_returntype * wsystem :=
  match w_deref hp s with
  | Some (a, {| w_h := Some handle |}) =>
      let '(_, _, s1) :=
        w_issue (call_async_write_at handle (buffers req) (where_ req)) s in
      (Returns (false, hp), s1)
  | _ => (Aborts, s)
  end.

(** [doread], lines 597-603. *)
Definition windows_doread (_id : Z) (hp : handle_ptr) (req : async_data_op_req)
    (s : wsystem) : outcome completion_returntype * wsystem :=
  match w_deref hp s with
  | Some (a, {| w_h := Some handle |}) =>
      let '(_, _, s1) :=
        w_issue (call_async_read_at handle (buffers req) (where_ req)) s in
      (Returns (false, hp), s1)
  | _ => (Aborts, s)
  end.

(** [dormdir], lines 526-532, and [dormfile], lines 559-565. *)
Definition windows_dormdir (_id : Z) (_ : handle_ptr) (req : async_path_op_req)
    (s : wsystem) : outcome completion_returntype * wsystem :=
  let '(ret, err, s1) := w_issue (call_RemoveDirectory (path req)) s in
  match ERRHWINFN ret err (path req) with
  | Returns tt => w_dummy_handle (path req) s1
  | Throws e => (Throws e, s1)
  | Aborts => (Aborts, s1)
  | Blocks => (Blocks, s1)
  end.

Definition windows_dormfile (_id : Z) (_ : handle_ptr) (req : async_path_op_req)
    (s : wsystem) : outcome completion_returntype * wsystem :=
  let '(ret, err, s1) := w_issue (call_DeleteFile (path req)) s in
  match ERRHWINFN ret err (path req) with
  | Returns tt => w_dummy_handle (path req) s1
  | Throws e => (Throws e, s1)
  | Aborts => (Aborts, s1)
  | Blocks => (Blocks, s1)
  end.

(** The routine of a task run on the Windows backend (a user completion
    is not modelled and does nothing). *)
Definition windows_routine (_id : Z) (hp : handle_ptr) (f : routine)
    (s : wsystem) : outcome completion_returntype * wsystem :=
  match f with
  | invoke_user_completion _ => (Returns (true, hp), s)
  | dodir req => windows_dodir _id hp req s
  | dormdir req => windows_dormdir _id hp req s
  | dofile req => windows_dofile _id hp req s
  | dormfile req => windows_dormfile _id hp req s
  | dosync op => windows_dosync _id hp op s
  | doclose op => windows_doclose _id hp op s
  | doread req => windows_doread _id hp req s
  | dowrite req => windows_dowrite _id hp req s
  end.

(** Tasks run one after the other. *)
Definition windows_run (ts : list task) (s : wsystem) : wsystem :=
  foldl (fun s t => snd (windows_routine (fst (fst t)) (snd t) (snd (fst t)) s))
        s ts.

Definition w_heap_ordered (s : wsystem) : Prop :=
  Forall w_counters_ordered (w_heap s).

Definition is_flush (c : wincall) : bool :=
  match c with call_FlushFileBuffers _ => true | _ => false end.

Definition w_flushes (s s' : wsystem) : list wincall :=
  List.filter is_flush (drop (length (w_issued s)) (w_issued s')).

End windows_primitives.

(** A task that reads or writes. *)
Definition transfers (t : task) : bool :=
  match snd (fst t) with
  | doread _ | dowrite _ => true
  | _ => false
  end.

(** The flags [dodir] goes on with after lines 660-670. *)
Definition dodir_flags (p : async_file_io_dispatcher_base_p) (_flags : Z) : Z :=
  let flags0 := fileflags p _flags in
  if has_flags file_flags.Create flags0
  then Z.land flags0
         (Z.lnot (Z.lor file_flags.Create file_flags.CreateOnlyIfNotExist))
  else flags0.

(** A request with some more flags. *)
Definition with_flags (more : Z) (req : async_path_op_req) : async_path_op_req :=
  {| precondition := precondition req; path := path req;
     flags := Z.lor (flags req) more |}.

(** *** The handles a dispatcher knows and the end of a handle *)

(** [int_del_io_handle], lines 235-239. *)
Definition int_del_io_handle (key : Z) (p : async_file_io_dispatcher_base_p)
  : async_file_io_dispatcher_base_p :=
  with_fds (delete key (fds p)) p.

(** [count], lines 257-261. *)
Definition count (p : async_file_io_dispatcher_base_p) : nat := size (fds p).

Section destructors.
Context {OS : posix} {W : win32}.

(** [~async_io_handle_posix], lines 157-169, run on the handle at the
    address [a].  The storage of the object is released after the body;
    the model leaves the entry as the body left it. *)
Definition posix_destructor (a : nat) (s : system) : outcome unit * system :=
  match heap s !! a with
  | None => (Aborts, s)
  | Some hd =>
      let s0 :=
        if has_been_added hd
        then with_this (int_del_io_handle (to_size_t (fd hd)) (this s)) s
        else s in
      if 0 <=? fd hd then
        let '(flushed, s1) :=
          if autoflush hd && negb (write_count_since_fsync hd =? 0) then
            let '(ret, errno, s1) := issue (call_fsync (fd hd)) s0 in
            (ERRHOSFN ret errno (handle_path hd), s1)
          else (Returns tt, s0) in
        match flushed with
        | Returns tt =>
            let '(ret, errno, s2) := issue (call_close (fd hd)) s1 in
            match ERRHOSFN ret errno (handle_path hd) with
            | Returns tt =>
                (Returns tt, with_heap (<[a := set_fd (-1) hd]> (heap s2)) s2)
            | Throws e => (Throws e, s2)
            | Aborts => (Aborts, s2)
            | Blocks => (Blocks, s2)
            end
        | Throws e => (Throws e, s1)
        | Aborts => (Aborts, s1)
        | Blocks => (Blocks, s1)
        end
      else (Returns tt, s0)
  end.

Definition w_with_this (p : async_file_io_dispatcher_base_p) (s : wsystem) :=
  {| w_this := p; w_kern := w_kern s; w_issued := w_issued s;
     w_heap := w_heap s |}.

(** [~async_io_handle_windows], lines 127-137. *)
Definition windows_destructor (a : nat) (s : wsystem)
  : outcome unit * wsystem :=
  match w_heap s !! a with
  | None => (Aborts, s)
  | Some hd =>
      let s0 :=
        if w_has_been_added hd
        then w_with_this (int_del_io_handle (w_myid hd) (w_this s)) s
        else s in
      match w_h hd with
      | Some handle =>
          let '(flushed, s1) :=
            if w_autoflush hd && negb (w_write_count_since_fsync hd =? 0) then
              let '(ret, err, s1) := w_issue (call_FlushFileBuffers handle) s0 in
              (ERRHWINFN ret err (w_path hd), s1)
            else (Returns tt, s0) in
          match flushed with
          | Returns tt =>
              let '(ret, err, s2) := w_issue (call_CloseHandle handle) s1 in
              match ERRHWINFN ret err (w_path hd) with
              | Returns tt => (Returns tt, s2)
              | Throws e => (Throws e, s2)
              | Aborts => (Aborts, s2)
              | Blocks => (Blocks, s2)
              end
          | Throws e => (Throws e, s1)
          | Aborts => (Aborts, s1)
          | Blocks => (Blocks, s1)
          end
      | None => (Returns tt, s0)
      end
  end.

End destructors.

(** *** preadv and pwritev where the C runtime has none *)

(** The calls of the C runtime the emulation of lines 74-93 makes (the
    file is compiled with them under WIN32): what each returns and the
    state it leaves the runtime in.  [_read] and [_write] take the
    descriptor, the address of the buffer and the count. *)
Class msvcrt := {
  crt : Type;
  _lseeki64 : Z -> Z -> crt -> Z * crt;
  _read : Z -> Z -> Z -> crt -> Z * crt;
  _write : Z -> Z -> Z -> crt -> Z * crt
}.

(** [off_t] is [long] there, 32 bits; [(unsigned) x]. *)
Definition to_off_t (x : Z) : Z := to_long 32 x.
Definition to_unsigned (x : Z) : Z := x mod 2 ^ 32.

Section emulation.
Context {C : msvcrt}.

(** The loop of lines 80-81 and 90-91 over the [iovcnt] vectors of
    [iov], with [io] for [_read] or [_write]: [None] is the [return -1]
    of the loop, otherwise the result is [at] after the loop.  The
    additions to [at] wrap. *)
Fixpoint transfer (io : Z -> Z -> Z -> crt -> Z * crt) (fd : Z)
    (iov : list (Z * Z)) (at_ : Z) (k : crt) : option Z * crt :=
  match iov with
  | [] => (Some at_, k)
  | v :: rest =>
      let '(transferred, k1) := io fd (fst v) (to_unsigned (snd v)) k in
      if transferred =? -1 then (None, k1)
      else transfer io fd rest (to_off_t (at_ + to_off_t transferred)) k1
  end.

(** [preadv], lines 74-83. *)
Definition preadv (fd : Z) (iov : list (Z * Z)) (offset : Z) (k : crt)
  : Z * crt :=
  let '(pos, k0) := _lseeki64 fd offset k in
  if pos =? -1 then (-1, k0)
  else
    match transfer _read fd iov offset k0 with
    | (None, k1) => (-1, k1)
    | (Some at_, k1) => (to_off_t (at_ - offset), k1)
    end.

(** [pwritev], lines 84-93. *)
Definition pwritev (fd : Z) (iov : list (Z * Z)) (offset : Z) (k : crt)
  : Z * crt :=
  let '(pos, k0) := _lseeki64 fd offset k in
  if pos =? -1 then (-1, k0)
  else
    match transfer _write fd iov offset k0 with
    | (None, k1) => (-1, k1)
    | (Some at_, k1) => (to_off_t (at_ - offset), k1)
    end.

(** What the calls of [io] made for the vectors return, one after the
    other, up to the first -1. *)
Fixpoint counts (io : Z -> Z -> Z -> crt -> Z * crt) (fd : Z)
    (iov : list (Z * Z)) (k : crt) : list Z :=
  match iov with
  | [] => []
  | v :: rest =>
      let '(n, k1) := io fd (fst v) (to_unsigned (snd v)) k in
      if n =? -1 then [n] else n :: counts io fd rest k1
  end.

End emulation.

(** The bytes a list of counts comes to. *)
Definition total (l : list Z) : Z := foldr Z.add 0 l.

(** A runtime in which the descriptor 3 is open on a file that gives and
    takes at most four bytes at a time, and a vector at the address 0
    cannot be used. *)
Definition toy_crt : msvcrt := {|
  crt := unit;
  _lseeki64 := fun fd offset k => if fd =? 3 then (offset, k) else (-1, k);
  _read := fun fd base n k =>
             if (fd =? 3) && negb (base =? 0) then (Z.min n 4, k) else (-1, k);
  _write := fun fd base n k =>
              if (fd =? 3) && negb (base =? 0) then (Z.min n 4, k) else (-1, k)
|}.

(** *** Hosts to run the primitives on *)

(** A small POSIX host: the directories and files that exist and the
    descriptors that are open, with the constants of Linux. *)
Record toy_kernel := {
  dirs : list string;
  files : list string;
  open_fds : list Z
}.

Definition toy_posix_call (c : syscall) (k : toy_kernel) : Z * Z * toy_kernel :=
  match c with
  | call_mkdir p _ =>
      if bool_decide (p ∈ dirs k ++ files k) then (-1, 17, k)
      else (0, 0, {| dirs := p :: dirs k; files := files k;
                     open_fds := open_fds k |})
  | call_stat p =>
      if bool_decide (p ∈ dirs k ++ files k) then (0, 0, k) else (-1, 2, k)
  | call_open p oflags _ =>
      let next := 3 + Z.of_nat (length (open_fds k)) in
      if bool_decide (p ∈ dirs k ++ files k) then
        if Z.land oflags 192 =? 192 then (-1, 17, k)
        else (next, 0, {| dirs := dirs k; files := files k;
                          open_fds := next :: open_fds k |})
      else if Z.land oflags 64 =? 64 then
        (next, 0, {| dirs := dirs k; files := p :: files k;
                     open_fds := next :: open_fds k |})
      else (-1, 2, k)
  | call_fsync d =>
      if bool_decide (d ∈ open_fds k) then (0, 0, k) else (-1, 9, k)
  | call_close d =>
      if bool_decide (d ∈ open_fds k)
      then (0, 0, {| dirs := dirs k; files := files k;
                     open_fds := List.filter (fun x => negb (x =? d)) (open_fds k) |})
      else (-1, 9, k)
  | call_pwritev d iov _ =>
      if bool_decide (d ∈ open_fds k)
      then (foldr (fun b n => snd b + n) 0 iov, 0, k) else (-1, 9, k)
  | call_preadv d iov _ =>
      if bool_decide (d ∈ open_fds k)
      then (foldr (fun b n => snd b + n) 0 iov, 0, k) else (-1, 9, k)
  | call_rmdir p =>
      if bool_decide (p ∈ dirs k)
      then (0, 0, {| dirs := List.filter (fun x => negb (String.eqb x p)) (dirs k);
                     files := files k; open_fds := open_fds k |})
      else (-1, 2, k)
  | call_unlink p =>
      if bool_decide (p ∈ files k)
      then (0, 0, {| dirs := dirs k;
                     files := List.filter (fun x => negb (String.eqb x p)) (files k);
                     open_fds := open_fds k |})
      else (-1, 2, k)
  end.

Definition toy_posix : posix := {|
  kernel := toy_kernel;
  posix_call := toy_posix_call;
  st_mode := fun p k => if bool_decide (p ∈ dirs k) then 16384
                        else if bool_decide (p ∈ files k) then 32768 else 0;
  S_ISDIR := fun m => Z.land m 61440 =? 16384;
  long_bits := 64;
  long_bits_pos := eq_refl;
  O_RDONLY := 0; O_WRONLY := 1; O_RDWR := 2; O_APPEND := 1024;
  O_TRUNC := 512; O_CREAT := 64; O_EXCL := 128; O_DIRECT := Some 16384;
  EEXIST := 17
|}.

(** The directory "/t" exists; nothing is open; the dispatcher is new. *)
Definition t_exists : @system toy_posix :=
  @Build_system toy_posix (new_dispatcher 0 0)
    {| dirs := ["/t"%string]; files := []; open_fds := [] |} [] [].

(** A request to create the directory "/t", and only if it is not
    there. *)
Definition create_t_exclusively : async_path_op_req :=
  {| precondition := {| id := 0; h := no_state |}; path := "/t";
     flags := Z.lor file_flags.Create file_flags.CreateOnlyIfNotExist |}.

(** A small Windows host: the directories that exist. *)
Definition toy_win_call (c : wincall) (k : list string) : Z * Z * list string :=
  match c with
  | call_CreateDirectory p =>
      if bool_decide (p ∈ k) then (0, 183, k) else (1, 0, p :: k)
  | call_GetFileAttributes p =>
      if bool_decide (p ∈ k) then (16, 0, k) else (4294967295, 2, k)
  | call_CreateFile _ _ _ _ _ => (7, 0, k)
  | _ => (1, 0, k)
  end.

Definition toy_win32 : win32 := {| wkernel := list string; win_call := toy_win_call |}.

Definition w_t_exists : @wsystem toy_win32 :=
  @Build_wsystem toy_win32 (new_dispatcher 0 0) ["/t"%string] [] [].

(** The same host with the handle 7 of a file written and synced. *)
Definition w_synced_handle : async_io_handle_windows :=
  {| w_path := "/t/a"; w_byteswritten := 5; w_byteswrittenatlastfsync := 5;
     w_h := Some 7; w_myid := 7; w_has_been_added := true;
     w_autoflush := false |}.

Definition w_synced : @wsystem toy_win32 :=
  @Build_wsystem toy_win32 (new_dispatcher 0 0) ["/t"%string] []
    [w_synced_handle].

(** The system with the handle of the file written and synced, and the
    descriptor 3 open. *)
Definition synced : @system toy_posix :=
  @Build_system toy_posix (new_dispatcher 0 0)
    {| dirs := ["/t"%string]; files := ["/t/a"%string]; open_fds := [3] |}
    [] [synced_handle].

(** The same with two more bytes written since the sync. *)
Definition dirty : @system toy_posix :=
  @Build_system toy_posix (new_dispatcher 0 0)
    {| dirs := ["/t"%string]; files := ["/t/a"%string]; open_fds := [3] |}
    [] [set_byteswritten 7 synced_handle].

(** The system after [dofile] has created and opened "/t/a": the handle
    is at the address 0, on the descriptor 3, and registered. *)
Definition opened : @system toy_posix :=
  snd (@posix_dofile toy_posix 1 None file_req t_exists).

Definition opened_handle : async_io_handle_posix :=
  {| handle_path := "/t/a"; byteswritten := 0; byteswrittenatlastfsync := 0;
     fd := 3; has_been_added := true; autoflush := false;
     has_ever_been_fsynced := false |}.

(** The same on the Windows host: the handle 7, at the address 0. *)
Definition w_opened : @wsystem toy_win32 :=
  snd (@windows_dofile toy_win32 1 None file_req w_t_exists).

Definition w_opened_handle : async_io_handle_windows :=
  {| w_path := "/t/a"; w_byteswritten := 0; w_byteswrittenatlastfsync := 0;
     w_h := Some 7; w_myid := 7; w_has_been_added := true;
     w_autoflush := false |}.

(** A request to open the directory "/t" for reading. *)
Definition t_readable : async_path_op_req :=
  {| precondition := {| id := 0; h := no_state |}; path := "/t";
     flags := file_flags.Read |}.

(** A request to create the directory "/t" if it is not there. *)
Definition create_t : async_path_op_req :=
  {| precondition := {| id := 0; h := no_state |}; path := "/t";
     flags := file_flags.Create |}.

End async_io.

(** ** map_handle.hpp (the second half of the header) *)

Module map_handle.

(** [section_handle::flag], lines 295-308.  [BOOSTLITE_BITFIELD_BEGIN]
    comes from boost-lite, which is not part of the sources; it makes a
    bit field with [&], [|] and [!], and [!!(v & f)] tells whether [v]
    and [f] have a bit in common. *)
Module flag.
Definition none : Z := 0.
Definition read : Z := Z.shiftl 1 0.
Definition write : Z := Z.shiftl 1 1.
Definition cow : Z := Z.shiftl 1 2.
Definition execute : Z := Z.shiftl 1 3.
Definition nocommit : Z := Z.shiftl 1 8.
Definition prefault : Z := Z.shiftl 1 9.
Definition executable : Z := Z.shiftl 1 10.
Definition readwrite : Z := Z.lor read write.
End flag.

(** [!!(v & f)] *)
Definition has (v f : Z) : bool := negb (Z.land v f =? 0).

(** [temp.resize (temp.size () - 1)] *)
Definition drop_last (temp : string) : string :=
  String.substring 0 (String.length temp - 1) temp.

(** [std::count (temp.cbegin (), temp.cend (), c)] *)
Fixpoint count (c : Ascii.ascii) (temp : string) : nat :=
  match temp with
  | String.EmptyString => 0
  | String.String x rest => (if Ascii.eqb x c then 1 else 0) + count c rest
  end.

(** The character '|'. *)
Definition bar : Ascii.ascii := Ascii.ascii_of_nat 124.

(** [operator<<] for [section_handle::flag], lines 382-408: the text it
    sends to the stream. *)
Definition print_flag (v : Z) : string :=
  let temp := ""%string in
  let temp := if has v flag.read then temp +:+ "read|" else temp in
  let temp := if has v flag.write then temp +:+ "write|" else temp in
  let temp := if has v flag.cow then temp +:+ "cow|" else temp in
  let temp := if has v flag.execute then temp +:+ "execute|" else temp in
  let temp := if has v flag.nocommit then temp +:+ "nocommit|" else temp in
  let temp := if has v flag.prefault then temp +:+ "prefault|" else temp in
  let temp := if has v flag.executable then temp +:+ "executable|" else temp in
  let temp :=
    if negb (String.eqb temp "") then
      let temp := drop_last temp in
      if (0 <? count bar temp)%nat then "(" +:+ temp +:+ ")" else temp
    else "none"%string in
  "afio::section_handle::flag::" +:+ temp.

(** The flags that have a name, in the order of the enumeration. *)
Definition named : list (Z * string) :=
  [ (flag.read, "read"); (flag.write, "write"); (flag.cow, "cow");
    (flag.execute, "execute"); (flag.nocommit, "nocommit");
    (flag.prefault, "prefault"); (flag.executable, "executable") ]%string.

(** The names of the flags set in [v]. *)
Definition names (v : Z) : list string :=
  snd <$> List.filter (fun f => has v (fst f)) named.

(** Names joined by [sep]. *)
Fixpoint join (sep : string) (l : list string) : string :=
  match l with
  | [] => ""
  | [x] => x
  | x :: rest => x +:+ sep +:+ join sep rest
  end.

(** All the bits that have a name. *)
Definition all_named : Z :=
  foldr (fun f acc => Z.lor (fst f) acc) 0 named.

(** Every set of flags with a name, as a value. *)
Definition masks : list Z :=
  foldr (fun f acc => acc ++ (Z.lor (fst f) <$> acc)) [0] named.

(** Whether the printer tells the values of [l] apart. *)
Definition tells_apart (l : list Z) : bool :=
  forallb (fun x =>
    forallb (fun y =>
      implb (String.eqb (print_flag x) (print_flag y)) (x =? y)) l) l.

(** [section_handle], lines 288-381: its own members, over the state
    [B] of its base [handle].  handle.hpp is not part of the sources:
    [handle_move] stands for the move constructor of [handle] and gives
    the base it makes and what it leaves of the one moved from. *)
Section section_handle.
Context {B : Type} (handle_move : B -> B * B).

Record section_handle := {
  base : B;
  _backing : option nat;
  _length : Z;
  _flag : Z
}.

(** The move constructor, lines 332-337: the object made and what is
    left of [o]. *)
Definition move_construct (o : section_handle)
  : section_handle * section_handle :=
  ({| base := fst (handle_move (base o)); _backing := _backing o;
      _length := _length o; _flag := _flag o |},
   {| base := snd (handle_move (base o)); _backing := None;
      _length := 0; _flag := flag.none |}).

(** The move assignment, lines 339-344: [this] is destroyed and made
    again from [o].  The result is the new [this], what is left of [o],
    and the object destroyed. *)
Definition move_assign (this o : section_handle)
  : section_handle * section_handle * section_handle :=
  (move_construct o, this).

(** [swap], lines 346-351, of two distinct objects: the new [this], the
    new [o], and the objects destroyed on the way, [temp] last. *)
Definition swap (this o : section_handle)
  : section_handle * section_handle * list section_handle :=
  let '(temp, this1) := move_construct this in
  let '(this2, o1, d1) := move_assign this1 o in
  let '(o2, temp1, d2) := move_assign o1 temp in
  (this2, o2, [d1; d2; temp1]).

(** The members a section handle has of its own. *)
Definition members (x : section_handle) : option nat * Z * Z :=
  (_backing x, _length x, _flag x).

End section_handle.

End map_handle.

(** ** benchmark_locking.cpp *)

Module benchmark_locking.

(** [(char) x]: the low eight bits, as a code from 0 to 255. *)
Definition to_char (x : Z) : Z := x mod 256.

(** The code of '0'. *)
Definition zero : Z := 48.

(** Lines 95-109: [args[1]] for the child number [n].  The string has
    two characters, "00" to begin with, and both are overwritten. *)
Definition child_arg (n : Z) : list Z :=
  if 10 <=? n
  then [to_char (zero + n / 10); to_char (zero + n mod 10)]
  else [to_char (zero + n); 0].

(** What a C program reads at a [char *]: the characters before the
    first NUL. *)
Fixpoint c_str (l : list Z) : list Z :=
  match l with
  | [] => []
  | c :: rest => if c =? 0 then [] else c :: c_str rest
  end.

Definition is_digit (c : Z) : bool := (zero <=? c) && (c <=? zero + 9).

(** The number a string of digits reads as, [acc] being the number read
    so far: the digits up to the first character that is none. *)
Fixpoint read_digits (acc : Z) (l : list Z) : Z :=
  match l with
  | [] => acc
  | c :: rest =>
      if is_digit c then read_digits (10 * acc + (c - zero)) rest else acc
  end.

End benchmark_locking.
(** * Facts *)

(** ** file_handle.hpp *)

Module file_handle_facts.
Import file_handle.

Section constructors.
Context {E : Env}.
Implicit Types (dirpath name : path_type) (w : world) (k fuel : nat).

(** One turn of the loop of [random_file]: a collision goes round again,
    anything else is returned. *)
Lemma random_file_unfold fuel dirpath m c f w :
  random_file (S fuel) dirpath m c f w =
  if collided (fst (probe_once dirpath m c f w))
  then random_file fuel dirpath m c f (snd (probe_once dirpath m c f w))
  else Some (probe_once dirpath m c f w).
Proof.
  unfold probe_once. simpl.
  destruct (random_string 32 w) as [randomname w1].
  destruct (file _ m only_if_not_exist c f w1) as [ret w2]. simpl.
  destruct ret as [v|code]; simpl; [reflexivity|].
  destruct (code =? EEXIST); reflexivity.
Qed.

Lemma probe_succ k dirpath m c f w :
  probe (S k) dirpath m c f w =
  probe k dirpath m c f (snd (probe_once dirpath m c f w)).
Proof. reflexivity. Qed.

Lemma random_file_sound fuel dirpath m c f w res :
  random_file fuel dirpath m c f w = Some res ->
  exists k, (k < fuel)%nat /\ res = probe k dirpath m c f w /\
            collided (fst res) = false /\
            forall j, (j < k)%nat ->
                      collided (fst (probe j dirpath m c f w)) = true.
Proof.
  revert w. induction fuel as [|fuel IH]; intros w Hrun; [discriminate|].
  rewrite random_file_unfold in Hrun.
  destruct (collided (fst (probe_once dirpath m c f w))) eqn:Hc.
  - apply IH in Hrun as (k & Hk & Hres & Hok & Hearlier).
    exists (S k). split; [lia|]. split; [exact Hres|]. split; [exact Hok|].
    intros [|j] Hj; [exact Hc|]. rewrite probe_succ. apply Hearlier. lia.
  - injection Hrun as <-. exists O. split; [lia|]. split; [reflexivity|].
    split; [exact Hc|]. intros j Hj. lia.
Qed.

Lemma random_file_complete k : forall fuel dirpath m c f w,
  (k < fuel)%nat ->
  collided (fst (probe k dirpath m c f w)) = false ->
  (forall j, (j < k)%nat -> collided (fst (probe j dirpath m c f w)) = true) ->
  random_file fuel dirpath m c f w = Some (probe k dirpath m c f w).
Proof.
  induction k as [|k IH]; intros fuel dirpath m c f w Hk Hok Hearlier.
  - destruct fuel as [|fuel]; [lia|]. rewrite random_file_unfold.
    simpl in Hok. rewrite Hok. reflexivity.
  - destruct fuel as [|fuel]; [lia|]. rewrite random_file_unfold.
    pose proof (Hearlier O ltac:(lia)) as H0. simpl in H0. rewrite H0.
    rewrite probe_succ. apply IH.
    + lia.
    + exact Hok.
    + intros j Hj. rewrite <- probe_succ. apply Hearlier. lia.
Qed.

(** C9.  [random_file] returns exactly the outcome of the first probe that
    did not collide: the [k]-th probe draws a new name from the generator
    and tries its exclusive creation under the directory; every probe
    before it failed with [EEXIST] and was retried; the outcome returned is
    a created handle or an error other than [EEXIST], never [EEXIST]
    itself.  With [fuel] iterations allowed the loop returns iff such a
    probe exists among the first [fuel]. *)
Theorem random_file_first_non_eexist fuel dirpath m c f w res :
  random_file fuel dirpath m c f w = Some res <->
  exists k, (k < fuel)%nat /\ res = probe k dirpath m c f w /\
            collided (fst res) = false /\
            forall j, (j < k)%nat ->
                      collided (fst (probe j dirpath m c f w)) = true.
Proof.
  split; [apply random_file_sound|].
  intros (k & Hk & -> & Hok & Hearlier). by apply random_file_complete.
Qed.

(** C10.  With an empty name [temp_file] is
    [random_file (fixme_temporary_files_directory ()) mode caching flags]
    and its result does not depend on the creation argument; with any
    other name it is
    [file (fixme_temporary_files_directory () / name) mode creation caching flags]. *)
Theorem temp_file_empty_or_named fuel name m cr ca fl w :
  (path_empty name = true ->
   temp_file fuel name m cr ca fl w =
     random_file fuel (fst (fixme_temporary_files_directory w)) m ca fl
                 (snd (fixme_temporary_files_directory w)) /\
   forall cr', temp_file fuel name m cr' ca fl w =
               temp_file fuel name m cr ca fl w) /\
  (path_empty name = false ->
   temp_file fuel name m cr ca fl w =
     Some (file (path_div (fst (fixme_temporary_files_directory w)) name)
                m cr ca fl (snd (fixme_temporary_files_directory w)))).
Proof.
  unfold temp_file. destruct (fixme_temporary_files_directory w) as [tmp w1].
  simpl. split; intros ->; [split|]; reflexivity.
Qed.

End constructors.

Lemma random_file_first_non_eexist_witness :
  @random_file toy_env 5 "tmp"%string tt tt tt busy =
    Some (has_value "tmp/c"%string,
          {| names := ["d"%string];
             existing := ["tmp/c"; "tmp/a"; "tmp/b"]%string |}).
Proof.
  apply (proj2 (@random_file_first_non_eexist toy_env 5 "tmp"%string tt tt tt
                  busy _)).
  exists 2%nat. split; [lia|]. split; [reflexivity|]. split; [reflexivity|].
  intros [|[|j]] Hj; [reflexivity|reflexivity|lia].
Defined.

Lemma temp_file_empty_or_named_witness :
  @temp_file toy_env 5 ""%string tt false tt tt busy =
  @temp_file toy_env 5 ""%string tt true tt tt busy.
Proof.
  apply (proj1 (@temp_file_empty_or_named toy_env 5 ""%string tt true tt tt
                  busy)); reflexivity.
Defined.

End file_handle_facts.

(** ** async_file_io.cpp: the dispatcher core *)

Module async_io_facts.
Import async_io.

(** *** Id allocation *)

Lemma SIZE_MAX_eq : SIZE_MAX = 18446744073709551615.
Proof. reflexivity. Qed.

Lemma to_size_t_small x : 0 <= x <= SIZE_MAX -> to_size_t x = x.
Proof.
  rewrite SIZE_MAX_eq. intros Hx. unfold to_size_t, SIZE_BITS.
  apply Z.mod_small. lia.
Qed.

Lemma to_size_t_wrap : to_size_t (SIZE_MAX + 1) = 0.
Proof. reflexivity. Qed.

Lemma to_size_t_range x : 0 <= to_size_t x <= SIZE_MAX.
Proof.
  rewrite SIZE_MAX_eq. unfold to_size_t, SIZE_BITS.
  pose proof (Z.mod_pos_bound x (2 ^ 64) ltac:(lia)). lia.
Qed.

(** Below the largest value the counter steps by one. *)
Lemma allocate_next count :
  0 <= count < SIZE_MAX -> allocate count = (count + 1, count + 1).
Proof.
  intros Hc. unfold allocate. simpl.
  rewrite (to_size_t_small (count + 1)) by lia.
  destruct (Z.eqb_spec (count + 1) 0); [lia|reflexivity].
Qed.

(** At the largest value it wraps to zero, which the loop steps over. *)
Lemma allocate_wraps : allocate SIZE_MAX = (1, 1).
Proof. reflexivity. Qed.

(** The loop of line 402 ends within two iterations. *)
Lemma allocate_total count :
  0 <= count <= SIZE_MAX -> allocate_loop 2 count = Some (allocate count).
Proof.
  intros Hc. destruct (Z.eq_dec count SIZE_MAX) as [->|Hne]; [reflexivity|].
  unfold allocate. simpl. rewrite (to_size_t_small (count + 1)) by lia.
  destruct (Z.eqb_spec (count + 1) 0); [lia|reflexivity].
Qed.

Lemma allocate_range count :
  0 <= count <= SIZE_MAX ->
  0 < fst (allocate count) <= SIZE_MAX /\
  snd (allocate count) = fst (allocate count).
Proof.
  intros Hc. destruct (Z.eq_dec count SIZE_MAX) as [->|Hne].
  - rewrite allocate_wraps, SIZE_MAX_eq. simpl. lia.
  - rewrite allocate_next by lia. simpl. lia.
Qed.

Lemma allocations_app n m count :
  allocations (n + m) count =
  allocations n count ++ allocations m (count_after n count).
Proof.
  revert count. induction n as [|n IH]; intros count; [reflexivity|].
  simpl. by rewrite IH.
Qed.

Lemma count_after_no_wrap n count :
  0 <= count -> count + Z.of_nat n <= SIZE_MAX ->
  count_after n count = count + Z.of_nat n.
Proof.
  revert count. induction n as [|n IH]; intros count H0 Hn.
  - simpl. lia.
  - cbn [count_after]. rewrite allocate_next by lia. cbn [snd].
    rewrite IH by lia. lia.
Qed.

Lemma allocations_no_wrap n count :
  0 <= count -> count + Z.of_nat n <= SIZE_MAX ->
  allocations n count = (fun k => count + 1 + Z.of_nat k) <$> seq 0 n.
Proof.
  revert count. induction n as [|n IH]; intros count H0 Hn; [reflexivity|].
  cbn [allocations]. rewrite allocate_next by lia. cbn [fst snd].
  rewrite IH by lia. cbn [seq fmap list_fmap]. f_equal; [lia|].
  rewrite <- seq_shift, <- list_fmap_compose.
  apply list_fmap_ext. intros _ k _. simpl. lia.
Qed.

Lemma allocations_positive n count :
  0 <= count <= SIZE_MAX ->
  Forall (fun i => 0 < i <= SIZE_MAX) (allocations n count).
Proof.
  revert count. induction n as [|n IH]; intros count Hc; [constructor|].
  cbn [allocations]. destruct (allocate_range count Hc) as [Hid Hsnd].
  constructor; [exact Hid|]. apply IH. rewrite Hsnd. lia.
Qed.

Lemma affine_sorted count n :
  StronglySorted Z.lt ((fun k => count + 1 + Z.of_nat k) <$> seq 0 n).
Proof.
  generalize 0%nat as s. revert count.
  induction n as [|n IH]; intros count s; [constructor|].
  cbn [seq fmap list_fmap]. constructor; [apply IH|].
  apply Forall_forall. intros x Hx.
  apply list_elem_of_fmap in Hx as (k & -> & Hk).
  apply elem_of_seq in Hk. lia.
Qed.

Lemma sorted_lt_NoDup (l : list Z) : StronglySorted Z.lt l -> NoDup l.
Proof.
  induction 1 as [|x l Hs IH Hall]; constructor; [|exact IH].
  intros Hin. rewrite Forall_forall in Hall.
  specialize (Hall x Hin). lia.
Qed.

(** *** chain_async_op, stage by stage *)

(** The stages of [chain_async_op] leave the counter, the queue and the
    futures alone, except [enqueue], which adds to the queue. *)
Lemma insert_op_frame k o p :
  monotoniccount (insert_op k o p) = monotoniccount p /\
  pool (insert_op k o p) = pool p /\
  task_results (insert_op k o p) = task_results p /\
  promise_results (insert_op k o p) = promise_results p.
Proof. unfold insert_op. case_bool_decide; done. Qed.

Lemma attach_promise_frame done k p :
  monotoniccount (attach_promise done k p) = monotoniccount p /\
  pool (attach_promise done k p) = pool p /\
  task_results (attach_promise done k p) = task_results p /\
  promise_results (attach_promise done k p) = promise_results p.
Proof. unfold attach_promise. destruct done; done. Qed.

Lemma undep_frame done pre p :
  monotoniccount (undep done pre p) = monotoniccount p /\
  pool (undep done pre p) = pool p /\
  task_results (undep done pre p) = task_results p /\
  promise_results (undep done pre p) = promise_results p.
Proof. unfold undep. destruct done; done. Qed.

Lemma register_counter b flt ot pre det done ret p :
  monotoniccount (snd (register b flt ot pre det done ret p)) =
  monotoniccount p.
Proof.
  unfold register.
  repeat match goal with
    | |- context [if ?c then _ else _] => destruct c; cbn [snd]
    end;
    unfold unopsit;
    rewrite ?(proj1 (undep_frame _ _ _)), ?(proj1 (attach_promise_frame _ _ _));
    cbn [monotoniccount with_ops]; rewrite ?(proj1 (insert_op_frame _ _ _));
    reflexivity.
Qed.

Lemma register_id b flt ot pre det done ret p op p' :
  register b flt ot pre det done ret p = (Returns op, p') -> op = ret.
Proof.
  unfold register.
  repeat match goal with
    | |- context [if ?c then _ else _] => destruct c
    end; intros [= <-]; reflexivity.
Qed.

(** The id a call of [chain_async_op] hands out and the counter it
    leaves are those of [allocate], however the call ends. *)
Lemma chain_async_op_counter b flt ot pre det f p :
  monotoniccount (snd (chain_async_op b flt ot pre det f p)) =
  snd (allocate (monotoniccount p)).
Proof.
  unfold chain_async_op.
  destruct (in_flight _ _).
  - destruct (fault_eqb flt fault_push_back); [reflexivity|].
    rewrite register_counter. reflexivity.
  - unfold bind_and_enqueue, bind, bound_handle.
    destruct (if valid (h pre) then _ else _) as [hp|e| |]; try reflexivity.
    destruct (fault_eqb flt fault_enqueue); [reflexivity|].
    rewrite register_counter. reflexivity.
Qed.

Lemma chain_async_op_id b flt ot pre det f p op p' :
  chain_async_op b flt ot pre det f p = (Returns op, p') ->
  id op = fst (allocate (monotoniccount p)).
Proof.
  unfold chain_async_op.
  destruct (in_flight _ _).
  - destruct (fault_eqb flt fault_push_back); [discriminate|].
    intros ->%register_id. reflexivity.
  - unfold bind_and_enqueue, bind, bound_handle.
    destruct (if valid (h pre) then _ else _) as [hp|e| |]; try discriminate.
    destruct (fault_eqb flt fault_enqueue); [discriminate|].
    intros ->%register_id. reflexivity.
Qed.

(** C4, as the code has it.  Every id handed out is positive and fits
    [size_t].  From a new dispatcher, as long as no more than [SIZE_MAX]
    ids have been handed out, the ids are 1, 2, 3, ... in that order:
    strictly increasing, none handed out twice.  Each call of
    [chain_async_op] that returns hands out the next id of that sequence
    and advances the counter by one allocation. *)
Theorem ids_positive_and_increasing_until_wrap (n : nat) (ff fm : Z) :
  let ids := allocations n (monotoniccount (new_dispatcher ff fm)) in
  Forall (fun i => 0 < i <= SIZE_MAX) ids /\
  (Z.of_nat n <= SIZE_MAX ->
   ids = (fun k => 1 + Z.of_nat k) <$> seq 0 n /\
   StronglySorted Z.lt ids /\ NoDup ids) /\
  (forall b flt ot pre det f p op p',
     chain_async_op b flt ot pre det f p = (Returns op, p') ->
     allocations 1 (monotoniccount p) = [id op] /\
     monotoniccount p' = count_after 1 (monotoniccount p)).
Proof.
  cbn [new_dispatcher monotoniccount]. split; [|split].
  - apply allocations_positive. rewrite SIZE_MAX_eq. lia.
  - intros Hn. pose proof (allocations_no_wrap n 0 ltac:(lia) ltac:(lia)) as E.
    cbn [Z.add] in E. rewrite E. split; [reflexivity|].
    pose proof (affine_sorted 0 n) as Hs. cbn [Z.add] in Hs.
    split; [exact Hs|]. by apply sorted_lt_NoDup.
  - intros b flt ot pre det f p op p' Hrun. cbn [allocations count_after].
    rewrite (chain_async_op_id _ _ _ _ _ _ _ _ _ Hrun).
    pose proof (chain_async_op_counter b flt ot pre det f p) as Hc.
    rewrite Hrun in Hc. cbn [snd] in Hc. by rewrite Hc.
Qed.

Lemma ids_positive_and_increasing_until_wrap_witness :
  allocations 3 0 = [1; 2; 3] /\ NoDup (allocations 3 0).
Proof.
  pose proof (ids_positive_and_increasing_until_wrap 3 0 0) as (_ & H & _).
  cbn [new_dispatcher monotoniccount] in H.
  destruct (H ltac:(rewrite SIZE_MAX_eq; lia)) as (E & _ & Hnd).
  split; [exact E|exact Hnd].
Defined.

(** After [SIZE_MAX] allocations the counter wraps and the next id is 1
    again. *)
Lemma allocations_wrap (N : nat) :
  Z.of_nat N = SIZE_MAX ->
  exists l, allocations (S N) 0 = 1 :: l ++ [1].
Proof.
  intros HN. destruct N as [|N']; [rewrite SIZE_MAX_eq in HN; lia|].
  replace (S (S N')) with (S N' + 1)%nat by lia.
  rewrite allocations_app.
  rewrite count_after_no_wrap by lia. rewrite Z.add_0_l, HN.
  cbn [allocations]. rewrite allocate_wraps.
  rewrite (allocate_next 0) by (rewrite SIZE_MAX_eq; lia).
  cbn [fst snd Z.add]. eexists. reflexivity.
Qed.

(** C4, as stated, fails: the id handed out after [SIZE_MAX] allocations
    is 1, which the first allocation had handed out already. *)
Lemma ids_reused_after_wrap :
  let ids := allocations (S (Z.to_nat SIZE_MAX))
                         (monotoniccount (new_dispatcher 0 0)) in
  ~ NoDup ids /\ ~ StronglySorted Z.lt ids.
Proof.
  cbn [new_dispatcher monotoniccount].
  destruct (allocations_wrap (Z.to_nat SIZE_MAX)) as [l El].
  { apply Z2Nat.id. rewrite SIZE_MAX_eq. lia. }
  cbv zeta. rewrite El.
  assert (Hdup : ~ NoDup (1 :: l ++ [1])).
  { intros Hnd. apply NoDup_cons in Hnd as [Hin _]. apply Hin.
    apply elem_of_app. right. apply list_elem_of_singleton. reflexivity. }
  split; [exact Hdup|]. intros Hs. apply Hdup. by apply sorted_lt_NoDup.
Qed.

(** *** Unwinding *)

Lemma pop_push c o : pop_back_completion (push_back_completion c o) = o.
Proof.
  destruct o as [ot fh dp cs]. unfold pop_back_completion, push_back_completion.
  cbn. by rewrite removelast_last.
Qed.

(** [undep] takes back what [link] added. *)
Lemma undep_link boundf pre p : ops (undep true pre (link boundf pre p)) = ops p.
Proof.
  unfold undep, link. cbn [ops with_ops].
  rewrite alter_alter_eq. apply alter_id. intros o _. apply pop_push.
Qed.

Lemma link_lookup_None boundf pre p k :
  ops p !! k = None -> ops (link boundf pre p) !! k = None.
Proof.
  intros Hk. unfold link. cbn [ops with_ops].
  rewrite lookup_alter. case_decide; subst; rewrite Hk; reflexivity.
Qed.

(** [unopsit] takes back what [ops.insert] added, when it added. *)
Lemma unopsit_insert_op k o p :
  ops p !! k = None -> ops (unopsit k (insert_op k o p)) = ops p.
Proof.
  intros Hk. unfold unopsit, insert_op. rewrite bool_decide_eq_true_2 by done.
  cbn [ops with_ops]. by rewrite delete_insert_eq, delete_id.
Qed.

Lemma undep_ops_eq done pre p q :
  ops p = ops q -> ops (undep done pre p) = ops (undep done pre q).
Proof. intros E. unfold undep. destruct done; cbn [ops with_ops]; by rewrite ?E. Qed.

(** What [register] leaves in the registry when it throws. *)
Lemma register_throws b flt ot pre det done ret p e p' :
  ops p !! id ret = None ->
  register b flt ot pre det done ret p = (Throws e, p') ->
  ops p' = ops (undep done pre p).
Proof.
  intros Hfresh. unfold register.
  destruct (fault_eqb flt fault_insert); [by intros [= _ <-]|].
  rewrite (bool_decide_eq_true_2 _ Hfresh). cbn [negb andb].
  destruct det; [|discriminate].
  destruct (fault_eqb flt fault_promise); [|discriminate].
  intros [= _ <-]. apply undep_ops_eq. by apply unopsit_insert_op.
Qed.

(** C3.  When a call of [chain_async_op] ends with an exception, the
    registry (the records and, in them, the completion lists) is what it
    was before the call: the link put on the completion list of the
    precondition has been popped and the record inserted for the new
    operation erased.  The id the call allocates is free in the registry,
    as line 448 asserts. *)
Theorem chain_async_op_rolls_back b flt ot pre det f p e p' :
  ops p !! fst (allocate (monotoniccount p)) = None ->
  chain_async_op b flt ot pre det f p = (Throws e, p') ->
  ops p' = ops p.
Proof.
  intros Hfresh. unfold chain_async_op.
  destruct (in_flight _ _).
  - destruct (fault_eqb flt fault_push_back); [by intros [= _ <-]|].
    intros Hreg. apply register_throws in Hreg.
    + rewrite Hreg, undep_link. reflexivity.
    + by apply link_lookup_None.
  - unfold bind_and_enqueue, bind, bound_handle.
    destruct (if valid (h pre) then _ else _) as [hp|e0| |];
      try discriminate; [|by intros [= _ <-]].
    destruct (fault_eqb flt fault_enqueue); [by intros [= _ <-]|].
    intros Hreg. apply register_throws in Hreg; [|exact Hfresh].
    rewrite Hreg. reflexivity.
Qed.

(** A read chained on the operation 1 whose promise cannot be allocated:
    the link and the record of the operation 2 are taken back. *)
Lemma chain_async_op_rolls_back_witness :
  fst (chain_async_op toy_build fault_promise OpType.read
         {| id := 1; h := task_future 1 |} true
         (doread {| data_precondition := {| id := 1; h := task_future 1 |};
                    buffers := []; where_ := 0 |}) one_in_flight)
    = Throws bad_alloc /\
  ops (snd (chain_async_op toy_build fault_promise OpType.read
         {| id := 1; h := task_future 1 |} true
         (doread {| data_precondition := {| id := 1; h := task_future 1 |};
                    buffers := []; where_ := 0 |}) one_in_flight))
    = ops one_in_flight.
Proof.
  split; [vm_compute; reflexivity|].
  apply (chain_async_op_rolls_back toy_build fault_promise OpType.read
           {| id := 1; h := task_future 1 |} true
           (doread {| data_precondition := {| id := 1; h := task_future 1 |};
                      buffers := []; where_ := 0 |})
           one_in_flight bad_alloc).
  - vm_compute. reflexivity.
  - vm_compute. reflexivity.
Defined.

(** *** Completion of an operation that is not registered *)

Lemma complete_async_op_absent x hp e p :
  ops p !! x = None ->
  complete_async_op x hp e p = (Throws (runtime_error not_found), p).
Proof. intros Hx. unfold complete_async_op. by rewrite Hx. Qed.

(** C2, as the code has it.  [complete_async_op] called with an id that
    is not in the registry throws the runtime error "Failed to find this
    operation ..." at once: nothing is dispatched, no promise fulfilled,
    nothing erased; the dispatcher is left as it was.  The wrapper that
    made the call does not recover: its handler calls [complete_async_op]
    again, which throws again, and the error leaves the task. *)
Theorem complete_async_op_absent_throws _id hp e p :
  ops p !! _id = None ->
  complete_async_op _id hp e p = (Throws (runtime_error not_found), p) /\
  (forall b hp0 hp1,
     invoke_async_op_completions b _id hp0 (returned true hp1) p
     = (Throws (runtime_error not_found), p)) /\
  (forall b hp0 e0,
     invoke_async_op_completions b _id hp0 (threw e0) p
     = (Throws (runtime_error not_found), p)).
Proof.
  intros Habsent.
  assert (Hc : forall hp' e', complete_async_op _id hp' e' p
                              = (Throws (runtime_error not_found), p)).
  { intros hp' e'. by apply complete_async_op_absent. }
  split; [apply Hc|]. split.
  - intros b hp0 hp1. cbn [invoke_async_op_completions]. rewrite Hc.
    unfold on_exception. by rewrite Hc.
  - intros b hp0 e0. cbn [invoke_async_op_completions].
    unfold on_exception. by rewrite Hc.
Qed.

Lemma complete_async_op_absent_throws_witness :
  complete_async_op 2 None None one_in_flight
  = (Throws (runtime_error not_found), one_in_flight).
Proof.
  apply (complete_async_op_absent_throws 2 None None one_in_flight).
  vm_compute. reflexivity.
Defined.

(** C2, as stated, fails: completing the unregistered operation 7 on a
    new dispatcher ends with an exception, not with the end of the
    process, and the dispatcher goes on to accept the next operation. *)
Lemma complete_async_op_absent_does_not_abort :
  fst (complete_async_op 7 None None (new_dispatcher 0 0)) <> Aborts /\
  fst (complete_async_op 7 None None (new_dispatcher 0 0))
    = Throws (runtime_error not_found) /\
  fst (chain_async_op toy_build no_fault OpType.sync
         {| id := 0; h := no_state |} false
         (dosync {| id := 0; h := no_state |})
         (snd (complete_async_op 7 None None (new_dispatcher 0 0))))
    = Returns {| id := 1; h := task_future 1 |}.
Proof. split; [|split]; [discriminate|reflexivity|reflexivity]. Qed.

(** *** What a completion does to the registry and the queue *)

Lemma waiting_is_Some p a : is_Some (waiting p a) <-> is_Some (ops p !! a).
Proof. unfold waiting. apply fmap_is_Some. Qed.

Lemma waiting_None p a : waiting p a = None <-> ops p !! a = None.
Proof. unfold waiting. apply fmap_None. Qed.

Lemma same_frame_trans p q r : same_frame p q -> same_frame q r -> same_frame p r.
Proof. unfold same_frame. intros (?&?&?&?&?) (?&?&?&?&?). repeat split; congruence. Qed.

(** The loop of lines 301-316 hands every completion to the pool, in
    the order of the list, and changes no completion list, provided each
    completion is registered. *)
Lemma enqueue_completions_spec cs : forall hp p,
  (forall c, c ∈ cs -> is_Some (ops p !! fst c)) ->
  exists p', enqueue_completions cs hp p = (Returns tt, p') /\
             pool p' = pool p ++ ((fun c => (c, hp)) <$> cs) /\
             (forall a, waiting p' a = waiting p a) /\
             (forall a, detached_promise <$> ops p' !! a
                        = detached_promise <$> ops p !! a) /\
             promise_results p' = promise_results p /\
             same_frame p p'.
Proof.
  induction cs as [|c cs IH]; intros hp p Hreg.
  - exists p. cbn. rewrite app_nil_r. by repeat split.
  - cbn [enqueue_completions].
    destruct (Hreg c ltac:(left)) as [it Hit]. rewrite Hit.
    set (fh := if detached_promise it then _ else _).
    set (p1 := enqueue (c, hp) (with_ops (<[fst c := set_op_h fh it]> (ops p)) p)).
    assert (Hw1 : forall a, waiting p1 a = waiting p a).
    { intros a. unfold waiting, p1. cbn [ops enqueue with_pool with_ops].
      destruct (decide (a = fst c)) as [->|Hne].
      - rewrite lookup_insert_eq, Hit. reflexivity.
      - by rewrite lookup_insert_ne. }
    assert (Hd1 : forall a, detached_promise <$> ops p1 !! a
                            = detached_promise <$> ops p !! a).
    { intros a. unfold p1. cbn [ops enqueue with_pool with_ops].
      destruct (decide (a = fst c)) as [->|Hne].
      - rewrite lookup_insert_eq, Hit. reflexivity.
      - by rewrite lookup_insert_ne. }
    destruct (IH hp p1) as (p' & Hrun & Hpool & Hw & Hd & Hpr & Hfr).
    { intros c' Hc'. apply waiting_is_Some. rewrite Hw1.
      apply waiting_is_Some, Hreg. by right. }
    exists p'. split; [exact Hrun|]. split.
    { rewrite Hpool. unfold p1. cbn [pool enqueue with_pool with_ops fmap list_fmap].
      by rewrite <- app_assoc. }
    split; [intros a; by rewrite Hw, Hw1|].
    split; [intros a; by rewrite Hd, Hd1|].
    split; [by rewrite Hpr|].
    destruct Hfr as (? & ? & ? & ? & ?). by repeat split.
Qed.

Lemma fulfil_frame x hp e p :
  ops (fulfil x hp e p) = ops p /\ pool (fulfil x hp e p) = pool p /\
  same_frame p (fulfil x hp e p).
Proof.
  unfold fulfil, same_frame.
  destruct (ops p !! x) as [it|]; [destruct (detached_promise it)|]; done.
Qed.

Lemma dispatch_completions_spec x hp p it :
  ops p !! x = Some it ->
  (forall c, c ∈ completions it -> is_Some (waiting p (fst c))) ->
  exists p', dispatch_completions x hp it p = (Returns tt, p') /\
             pool p' = pool p ++ ((fun c => (c, hp)) <$> completions it) /\
             (forall a, a <> x -> waiting p' a = waiting p a) /\
             same_frame p p'.
Proof.
  intros Hit Hreg. unfold dispatch_completions.
  destruct (completions it) as [|c0 cs0] eqn:Hcs.
  { exists p. rewrite app_nil_r. by repeat split. }
  set (p1 := with_ops (<[x := clear_completions it]> (ops p)) p).
  assert (Hdom : forall a, is_Some (ops p1 !! a) <-> is_Some (ops p !! a)).
  { intros a. unfold p1. cbn [ops with_ops].
    destruct (decide (a = x)) as [->|Hne].
    - rewrite lookup_insert_eq, Hit. split; eauto.
    - by rewrite lookup_insert_ne. }
  destruct (enqueue_completions_spec (c0 :: cs0) hp p1)
    as (p2 & Hrun & Hpool & Hw & Hd & Hpr & Hfr).
  { intros c Hc. apply Hdom, waiting_is_Some, Hreg, Hc. }
  rewrite Hrun.
  assert (Hx2 : is_Some (ops p2 !! x)).
  { apply waiting_is_Some. rewrite Hw. apply waiting_is_Some, Hdom. eauto. }
  destruct Hx2 as [it2 Hit2]. rewrite Hit2.
  exists p2. split; [reflexivity|]. split; [exact Hpool|]. split; [|exact Hfr].
  intros a Ha. rewrite Hw. unfold waiting, p1. cbn [ops with_ops].
  by rewrite lookup_insert_ne.
Qed.

(** [complete_async_op] on a registered operation whose completions are
    registered returns: the completions are queued bound to the handle, in
    the order of the list, the operation leaves the registry, and the
    other completion lists are as before. *)
Lemma complete_async_op_spec x hp e p cs :
  waiting p x = Some cs ->
  (forall c, c ∈ cs -> is_Some (waiting p (fst c))) ->
  exists p', complete_async_op x hp e p = (Returns tt, p') /\
             pool p' = pool p ++ ((fun c => (c, hp)) <$> cs) /\
             ops p' !! x = None /\
             (forall a, a <> x -> waiting p' a = waiting p a) /\
             same_frame p p'.
Proof.
  unfold waiting at 1. intros Hx Hreg.
  destruct (ops p !! x) as [it|] eqn:Hit; [|discriminate].
  injection Hx as <-. unfold complete_async_op. rewrite Hit.
  destruct (dispatch_completions_spec x hp p it Hit Hreg)
    as (p2 & -> & Hpool & Hw & Hfr).
  destruct (fulfil_frame x hp e p2) as (Ho & Hp & Hf).
  eexists. split; [reflexivity|]. cbn [pool ops with_ops].
  split; [by rewrite Hp|]. split; [apply lookup_delete_eq|]. split.
  - intros a Ha. unfold waiting. cbn [ops with_ops].
    rewrite lookup_delete_ne, Ho by done. by apply Hw.
  - eapply same_frame_trans; [exact Hfr|].
    eapply same_frame_trans; [exact Hf|]. by repeat split.
Qed.

(** *** What a call of chain_async_op does to the registry and the queue *)

Lemma waiting_alter g k p a :
  (forall o, completions (g o) = completions o) ->
  waiting (with_ops (alter g k (ops p)) p) a = waiting p a.
Proof.
  intros Hg. unfold waiting. cbn [ops with_ops]. rewrite lookup_alter.
  case_decide; [subst|done]. destruct (ops p !! a); cbn; by rewrite ?Hg.
Qed.

Lemma waiting_link boundf pre p a :
  waiting (link boundf pre p) a =
  if decide (a = id pre) then (fun cs => cs ++ [boundf]) <$> waiting p a
  else waiting p a.
Proof.
  unfold waiting, link. cbn [ops with_ops]. rewrite lookup_alter.
  destruct (decide (a = id pre)) as [Ha|Ha].
  - subst a. rewrite decide_True by done. by destruct (ops p !! id pre).
  - by rewrite decide_False by done.
Qed.

Lemma waiting_ops_eq p q a : ops p = ops q -> waiting p a = waiting q a.
Proof. unfold waiting. by intros ->. Qed.

Lemma waiting_attach_promise done k p a :
  waiting (attach_promise done k p) a = waiting p a.
Proof.
  unfold attach_promise. destruct done; rewrite !waiting_alter; done.
Qed.

Lemma waiting_insert_op k o p a :
  waiting p k = None ->
  waiting (insert_op k o p) a =
  if decide (a = k) then Some (completions o) else waiting p a.
Proof.
  intros Hk%waiting_None. unfold insert_op.
  rewrite bool_decide_eq_true_2 by done. unfold waiting. cbn [ops with_ops].
  destruct (decide (a = k)) as [->|Hne].
  - by rewrite lookup_insert_eq.
  - by rewrite lookup_insert_ne.
Qed.

(** [register] with a free id: the record is in, with an empty
    completion list, or the call throws and the undo actions have run. *)
Lemma register_spec b flt ot pre det done ret p r p' :
  waiting p (id ret) = None ->
  register b flt ot pre det done ret p = (r, p') ->
  pool p' = pool p /\ monotoniccount p' = monotoniccount p /\
  task_results p' = task_results p /\
  ((r = Returns ret /\
    forall a, waiting p' a = if decide (a = id ret) then Some []
                             else waiting p a) \/
   (r = Throws bad_alloc /\
    forall a, waiting p' a = waiting (undep done pre p) a)).
Proof.
  intros Hfresh. unfold register.
  pose proof Hfresh as Hfresh'%waiting_None.
  destruct (fault_eqb flt fault_insert).
  { intros [= <- <-].
    destruct (undep_frame done pre p) as (Hm & Hq & Ht & _). eauto 10. }
  rewrite (bool_decide_eq_true_2 _ Hfresh'). cbn [negb andb].
  set (o := {| optype := ot; op_h := h ret; detached_promise := false;
               completions := [] |}).
  destruct (insert_op_frame (id ret) o p) as (Hm & Hq & Ht & _).
  destruct det.
  - destruct (fault_eqb flt fault_promise); intros [= <- <-].
    + destruct (undep_frame done pre (unopsit (id ret) (insert_op (id ret) o p)))
        as (Hm' & Hq' & Ht' & _).
      rewrite Hm', Hq', Ht'. unfold unopsit at 1 3 5.
      cbn [pool monotoniccount task_results with_ops].
      split; [done|]. split; [done|]. split; [done|]. right. split; [done|].
      intros a. apply waiting_ops_eq, undep_ops_eq.
      by apply unopsit_insert_op.
    + destruct (attach_promise_frame done (id ret) (insert_op (id ret) o p))
        as (Hm' & Hq' & Ht' & _).
      rewrite Hm', Hq', Ht'. split; [done|]. split; [done|]. split; [done|].
      left. split; [done|]. intros a.
      rewrite waiting_attach_promise. by apply waiting_insert_op.
  - intros [= <- <-]. split; [done|]. split; [done|]. split; [done|].
    left. split; [done|]. intros a. by apply waiting_insert_op.
Qed.

Lemma register_results b flt ot pre det done ret p :
  task_results (snd (register b flt ot pre det done ret p)) = task_results p /\
  promise_results (snd (register b flt ot pre det done ret p))
    = promise_results p.
Proof.
  unfold register.
  repeat match goal with
    | |- context [if ?c then _ else _] => destruct c; cbn [snd]
    end;
    unfold unopsit;
    rewrite ?(proj1 (proj2 (proj2 (undep_frame _ _ _)))),
            ?(proj2 (proj2 (proj2 (undep_frame _ _ _)))),
            ?(proj1 (proj2 (proj2 (attach_promise_frame _ _ _)))),
            ?(proj2 (proj2 (proj2 (attach_promise_frame _ _ _))));
    cbn [task_results promise_results with_ops];
    rewrite ?(proj1 (proj2 (proj2 (insert_op_frame _ _ _)))),
            ?(proj2 (proj2 (proj2 (insert_op_frame _ _ _))));
    done.
Qed.

(** Chaining makes no future ready. *)
Lemma chain_async_op_results b flt ot pre det f p :
  task_results (snd (chain_async_op b flt ot pre det f p)) = task_results p /\
  promise_results (snd (chain_async_op b flt ot pre det f p))
    = promise_results p.
Proof.
  unfold chain_async_op.
  destruct (in_flight _ _).
  - destruct (fault_eqb flt fault_push_back); [done|].
    destruct (register_results b flt ot pre det true
                {| id := fst (allocate (monotoniccount p)); h := no_state |}
                (link (fst (allocate (monotoniccount p)), f) pre
                   (with_monotoniccount (snd (allocate (monotoniccount p))) p)))
      as [-> ->]. done.
  - unfold bind_and_enqueue, bind, bound_handle.
    destruct (if valid (h pre) then _ else _) as [hp|e| |]; try done.
    destruct (fault_eqb flt fault_enqueue); [done|].
    match goal with
    | |- context [register ?b ?flt ?ot ?pre ?det ?d ?ret ?q] =>
        destruct (register_results b flt ot pre det d ret q) as [-> ->]
    end. done.
Qed.

Lemma get_same p p' fh :
  task_results p' = task_results p -> promise_results p' = promise_results p ->
  get p' fh = get p fh.
Proof. intros Ht Hp. unfold get. by rewrite Ht, Hp. Qed.

Lemma in_flight_waiting pre p :
  in_flight pre p = true <-> id pre <> 0 /\ is_Some (waiting p (id pre)).
Proof.
  unfold in_flight. rewrite andb_true_iff, negb_true_iff, Z.eqb_neq,
    bool_decide_eq_true, waiting_is_Some. reflexivity.
Qed.

(** [chain_async_op] before the counter wraps, with the next id free:
    either the operation is registered, and its routine linked to the
    precondition in flight or else queued; or the call does not return
    and the completion lists are as before. *)
Lemma chain_async_op_spec b flt ot pre det f p r p' :
  0 <= monotoniccount p < SIZE_MAX ->
  waiting p (monotoniccount p + 1) = None ->
  chain_async_op b flt ot pre det f p = (r, p') ->
  let k := monotoniccount p + 1 in
  monotoniccount p' = k /\
  (pool p' = pool p \/
   exists hp, in_flight pre p = false /\ pool p' = pool p ++ [((k, f), hp)]) /\
  ((exists h0, r = Returns {| id := k; h := h0 |} /\
      (in_flight pre p = true -> h0 = no_state /\ pool p' = pool p) /\
      (in_flight pre p = false ->
       h0 = task_future k /\ exists hp, pool p' = pool p ++ [((k, f), hp)]) /\
      forall a, waiting p' a = waiting_after pre k f p a) \/
   (is_returns r = false /\ forall a, waiting p' a = waiting p a)).
Proof.
  intros Hmc Hfresh. cbv zeta. unfold chain_async_op.
  rewrite allocate_next by lia. cbn [fst snd].
  set (k := monotoniccount p + 1) in *.
  set (p1 := with_monotoniccount k p).
  assert (Hfl : in_flight pre p1 = in_flight pre p) by reflexivity.
  assert (Hw1 : forall a, waiting p1 a = waiting p a) by reflexivity.
  rewrite Hfl. destruct (in_flight pre p) eqn:Hin.
  - destruct (fault_eqb flt fault_push_back).
    { intros [= <- <-]. split; [done|]. split; [by left|]. right. done. }
    intros Hreg. apply register_spec in Hreg as (Hq & Hm & Ht & Hcase).
    2:{ cbn [id]. rewrite waiting_link, Hw1, Hfresh. by case_decide. }
    split; [exact Hm|]. split; [by left|].
    destruct Hcase as [[-> Hw]|[-> Hw]].
    + left. exists no_state. split; [done|]. split; [done|].
      split; [done|]. intros a. rewrite Hw. cbn [id]. unfold waiting_after.
      rewrite Hin. cbn [andb]. case_decide; [done|].
      rewrite waiting_link, Hw1. case_bool_decide; case_decide; done.
    + right. split; [done|]. intros a. rewrite Hw.
      rewrite (waiting_ops_eq _ p1); [apply Hw1|apply undep_link].
  - unfold bind_and_enqueue, bind, bound_handle.
    destruct (if valid (h pre) then _ else _) as [hp|e| |].
    2-4: intros [= <- <-]; (split; [done|]); (split; [by left|]); right; done.
    destruct (fault_eqb flt fault_enqueue).
    { intros [= <- <-]. split; [done|]. split; [by left|]. right. done. }
    cbn [fst]. intros Hreg.
    apply register_spec in Hreg as (Hq & Hm & Ht & Hcase); [|exact Hfresh].
    split; [exact Hm|]. split; [right; exists hp; by rewrite Hq|].
    destruct Hcase as [[-> Hw]|[-> Hw]].
    + left. exists (task_future k). split; [done|]. split; [done|].
      split; [intros _; split; [done|]; exists hp; by rewrite Hq|].
      intros a. rewrite Hw. cbn [id]. unfold waiting_after.
      rewrite Hin. cbn [andb]. case_decide; done.
    + right. split; [done|]. intros a. rewrite Hw. reflexivity.
Qed.

(** *** The invariant of the executions *)

Lemma new_dispatcher_well_formed ff fm :
  well_formed {| disp := new_dispatcher ff fm; deferred := ∅ |}.
Proof.
  split; cbn.
  - rewrite SIZE_MAX_eq. lia.
  - intros a [cs Hcs]. unfold waiting in Hcs. cbn in Hcs.
    by rewrite lookup_empty in Hcs.
  - intros k Hk. unfold pool_ids in Hk. cbn in Hk. by apply elem_of_nil in Hk.
  - intros k Hk. by apply elem_of_empty in Hk.
  - intros a cs k Hcs. unfold waiting in Hcs. cbn in Hcs.
    by rewrite lookup_empty in Hcs.
Qed.

Lemma well_formed_fresh c :
  well_formed c -> waiting (disp c) (monotoniccount (disp c) + 1) = None.
Proof.
  intros Hwf. destruct (waiting _ _) eqn:E; [|done].
  pose proof (wf_ops c Hwf _ (mk_is_Some _ _ E)). lia.
Qed.

Lemma waiting_after_elem pre k f p a cs' j :
  waiting_after pre k f p a = Some cs' -> j ∈ fst <$> cs' ->
  a <> k /\
  ((exists cs, waiting p a = Some cs /\ j ∈ fst <$> cs) \/
   (j = k /\ in_flight pre p = true /\ a = id pre)).
Proof.
  unfold waiting_after. case_decide as Hak.
  { intros [= <-] Hj. by apply elem_of_nil in Hj. }
  destruct (in_flight pre p); cbn [andb]; [case_bool_decide as Hap|].
  - destruct (waiting p a) as [cs|] eqn:E; [|discriminate].
    cbn. intros [= <-]. rewrite fmap_app, elem_of_app. cbn.
    rewrite list_elem_of_singleton. intros [Hj|Hj]; eauto 10.
  - intros E Hj. eauto 10.
  - intros E Hj. eauto 10.
Qed.

Lemma waiting_after_mono pre k f p a :
  is_Some (waiting p a) -> is_Some (waiting_after pre k f p a).
Proof.
  intros [cs Hcs]. unfold waiting_after. case_decide; [eauto|].
  destruct (in_flight pre p && bool_decide (a = id pre)); rewrite Hcs; eauto.
Qed.

Lemma waiting_after_is_Some pre k f p a :
  is_Some (waiting_after pre k f p a) -> a = k \/ is_Some (waiting p a).
Proof.
  unfold waiting_after. case_decide; [by left|]. right.
  destruct (in_flight pre p && bool_decide (a = id pre)); [|done].
  by apply fmap_is_Some in H0.
Qed.

(** A call of [chain_async_op] that returns or not, before the counter
    wraps, keeps the invariant. *)
Lemma chain_async_op_well_formed b flt ot pre det f c r p' :
  well_formed c ->
  monotoniccount (disp c) < SIZE_MAX ->
  chain_async_op b flt ot pre det f (disp c) = (r, p') ->
  well_formed {| disp := p'; deferred := deferred c |}.
Proof.
  intros Hwf Hlt Hrun. destruct c as [p D]. cbn [disp deferred] in *.
  pose proof (wf_count _ Hwf) as Hcount. cbn [disp] in Hcount.
  pose proof (well_formed_fresh _ Hwf) as Hfresh. cbn [disp] in Hfresh.
  apply chain_async_op_spec in Hrun as (Hm & Hpool & Hcase);
    [|lia|exact Hfresh].
  set (k := monotoniccount p + 1) in *.
  assert (Hreg_ne : forall j, is_Some (waiting p j) -> j <> k).
  { intros j Hj. pose proof (wf_ops _ Hwf j Hj) as Hb. cbn in Hb. lia. }
  assert (Hk_pool : k ∉ pool_ids p).
  { intros Hk. pose proof (wf_pool _ Hwf k Hk) as Hb. cbn in Hb. lia. }
  assert (Hpool_ids : forall j, j ∈ pool_ids p' -> j ∈ pool_ids p \/
                        (j = k /\ in_flight pre p = false)).
  { intros j. unfold pool_ids.
    destruct Hpool as [->|(hp & Hin & ->)]; [by left|].
    rewrite fmap_app, elem_of_app. cbn.
    rewrite list_elem_of_singleton. intros [?|?]; eauto. }
  split; cbn [disp deferred].
  - lia.
  - intros a Ha. rewrite Hm.
    assert (a = k \/ is_Some (waiting p a)) as [->|Hold].
    { destruct Hcase as [(h0 & _ & _ & _ & Hw)|[_ Hw]]; rewrite Hw in Ha.
      - by apply waiting_after_is_Some in Ha.
      - by right. }
    + lia.
    + pose proof (wf_ops _ Hwf a Hold) as Hb. cbn in Hb. lia.
  - intros j Hj. rewrite Hm. apply Hpool_ids in Hj as [Hj|[-> _]]; [|lia].
    pose proof (wf_pool _ Hwf j Hj) as Hb. cbn in Hb. lia.
  - intros j Hj. rewrite Hm.
    pose proof (wf_deferred _ Hwf j Hj) as Hb. cbn in Hb. lia.
  - intros a cs j Ha Hj.
    destruct Hcase as [(h0 & _ & Hin_t & Hin_f & Hw)|[_ Hw]].
    + rewrite Hw in Ha.
      destruct (waiting_after_elem _ _ _ _ _ _ _ Ha Hj)
        as [Hak [(cs0 & Hcs0 & Hj0)|(-> & Hin & ->)]].
      * destruct (wf_waiting _ Hwf a cs0 j Hcs0 Hj0) as (Hs & Hnp & Hnd & Hu).
        cbn [disp deferred] in *.
        split; [rewrite Hw; by apply waiting_after_mono|].
        split.
        { intros [?|[-> _]]%Hpool_ids; [done|]. by apply (Hreg_ne k). }
        split; [done|].
        intros a' cs' Ha' Hj'. rewrite Hw in Ha'.
        destruct (waiting_after_elem _ _ _ _ _ _ _ Ha' Hj')
          as [_ [(cs1 & Hcs1 & Hj1)|(-> & _ & _)]]; [by eapply Hu|].
        by destruct (Hreg_ne k).
      * split; [rewrite Hw; unfold waiting_after; rewrite decide_True by done;
                eauto|].
        split.
        { intros [?|[_ Hf]]%Hpool_ids; [done|congruence]. }
        split.
        { intros Hd. pose proof (wf_deferred _ Hwf k Hd) as Hb.
          cbn in Hb. lia. }
        intros a' cs' Ha' Hj'. rewrite Hw in Ha'.
        destruct (waiting_after_elem _ _ _ _ _ _ _ Ha' Hj')
          as [_ [(cs1 & Hcs1 & Hj1)|(_ & _ & ->)]]; [|done].
        destruct (wf_waiting _ Hwf a' cs1 k Hcs1 Hj1) as (Hs & _).
        by destruct (Hreg_ne k).
    + rewrite Hw in Ha.
      destruct (wf_waiting _ Hwf a cs j Ha Hj) as (Hs & Hnp & Hnd & Hu).
      cbn [disp deferred] in *.
      split; [by rewrite Hw|]. split.
      { intros [?|[-> _]]%Hpool_ids; [done|]. by apply (Hreg_ne k). }
      split; [done|].
      intros a' cs' Ha' Hj'. rewrite Hw in Ha'. by eapply Hu.
Qed.

(** The operation [x], queued or deferred, completes: its completions
    go to the queue and it leaves the registry. *)
Lemma completion_well_formed p D q D' x cs :
  well_formed {| disp := p; deferred := D |} ->
  x ∈ pool_ids p \/ x ∈ D ->
  waiting p x = Some cs ->
  monotoniccount q = monotoniccount p ->
  (forall j, j ∈ pool_ids q -> j ∈ pool_ids p \/ j ∈ fst <$> cs) ->
  waiting q x = None ->
  (forall a, a <> x -> waiting q a = waiting p a) ->
  (forall j, j ∈ D' -> j ∈ D) ->
  well_formed {| disp := q; deferred := D' |}.
Proof.
  intros Hwf Hx Hcs Hm Hpool Hgone Hw HD.
  assert (Hne : forall a cs' j, waiting p a = Some cs' -> j ∈ fst <$> cs' ->
                                j <> x).
  { intros a cs' j Ha Hj ->.
    destruct (wf_waiting _ Hwf a cs' x Ha Hj) as (_ & Hnp & Hnd & _).
    cbn in *. tauto. }
  assert (Hsub : forall a, is_Some (waiting q a) -> is_Some (waiting p a)).
  { intros a Ha. destruct (decide (a = x)) as [->|Hax].
    - rewrite Hgone in Ha. by destruct Ha.
    - by rewrite <- Hw. }
  split; cbn [disp deferred].
  - rewrite Hm. apply (wf_count _ Hwf).
  - intros a Ha. rewrite Hm. apply (wf_ops _ Hwf), Hsub, Ha.
  - intros j Hj. rewrite Hm. apply Hpool in Hj as [Hj|Hj].
    + by apply (wf_pool _ Hwf).
    + destruct (wf_waiting _ Hwf x cs j Hcs Hj) as (Hs & _).
      by apply (wf_ops _ Hwf).
  - intros j Hj. rewrite Hm. by apply (wf_deferred _ Hwf), HD.
  - intros a cs' j Ha Hj.
    assert (Hax : a <> x) by (intros ->; congruence).
    rewrite Hw in Ha by done.
    destruct (wf_waiting _ Hwf a cs' j Ha Hj) as (Hs & Hnp & Hnd & Hu).
    cbn [disp deferred] in *.
    split; [rewrite Hw; [done|by eapply Hne]|].
    split.
    { intros [?|Hjx]%Hpool; [done|]. apply Hax.
      symmetry. by eapply Hu. }
    split; [intros ?%HD; done|].
    intros a' cs'' Ha' Hj'.
    assert (Hax' : a' <> x) by (intros ->; congruence).
    rewrite Hw in Ha' by done. by eapply Hu.
Qed.

(** The registry untouched: the queue may shrink, and a queued operation
    may become deferred. *)
Lemma untouched_well_formed p D q D' :
  well_formed {| disp := p; deferred := D |} ->
  monotoniccount q = monotoniccount p ->
  (forall j, j ∈ pool_ids q -> j ∈ pool_ids p) ->
  (forall a, waiting q a = waiting p a) ->
  (forall j, j ∈ D' -> j ∈ D \/ j ∈ pool_ids p) ->
  well_formed {| disp := q; deferred := D' |}.
Proof.
  intros Hwf Hm Hpool Hw HD. split; cbn [disp deferred].
  - rewrite Hm. apply (wf_count _ Hwf).
  - intros a Ha. rewrite Hm. rewrite Hw in Ha. by apply (wf_ops _ Hwf).
  - intros j Hj. rewrite Hm. by apply (wf_pool _ Hwf), Hpool.
  - intros j Hj. rewrite Hm. apply HD in Hj as [Hj|Hj].
    + by apply (wf_deferred _ Hwf).
    + by apply (wf_pool _ Hwf).
  - intros a cs j Ha Hj. rewrite Hw in Ha.
    destruct (wf_waiting _ Hwf a cs j Ha Hj) as (Hs & Hnp & Hnd & Hu).
    cbn [disp deferred] in *.
    split; [by rewrite Hw|]. split; [intros ?%Hpool; done|].
    split; [intros [?|?]%HD; done|].
    intros a' cs' Ha' Hj'. rewrite Hw in Ha'. by eapply Hu.
Qed.

Lemma complete_async_op_effect x hp e p out p' :
  (forall cs c, waiting p x = Some cs -> c ∈ cs -> is_Some (waiting p (fst c))) ->
  complete_async_op x hp e p = (out, p') ->
  (out = Returns tt /\ is_Some (waiting p x) /\ ops p' !! x = None /\
   completion_effect x p p') \/
  (out = Throws (runtime_error not_found) /\ waiting p x = None /\ p' = p).
Proof.
  intros Hreg Hrun. destruct (waiting p x) as [cs|] eqn:Hx.
  - left.
    destruct (complete_async_op_spec x hp e p cs Hx (fun c => Hreg cs c eq_refl))
      as (q & Hq & Hpool & Hgone & Hw & Hfr).
    rewrite Hq in Hrun. injection Hrun as <- <-.
    split; [done|]. split; [eauto|]. split; [done|].
    eapply effect_completed; eauto. apply Hfr.
  - right. apply waiting_None in Hx.
    rewrite (complete_async_op_absent x hp e p Hx) in Hrun.
    by injection Hrun as <- <-.
Qed.

(** The wrapper either completes the operation (the routine said "done"
    or threw) or leaves the dispatcher as it found it. *)
Lemma invoke_async_op_completions_effect b x hp r p out p' :
  (forall cs c, waiting p x = Some cs -> c ∈ cs -> is_Some (waiting p (fst c))) ->
  invoke_async_op_completions b x hp r p = (out, p') ->
  (is_Some (waiting p x) /\ ops p' !! x = None /\ completion_effect x p p' /\
   (forall hp', r <> returned false hp')) \/
  p' = p.
Proof.
  intros Hreg.
  assert (Hexc : forall e0 out0 q, on_exception x hp e0 p = (out0, q) ->
            (is_Some (waiting p x) /\ ops q !! x = None /\
             completion_effect x p q) \/ q = p).
  { intros e0 out0 q. unfold on_exception.
    destruct (complete_async_op x hp (Some e0) p) as [o q'] eqn:E.
    apply complete_async_op_effect in E as [(-> & ? & ? & ?)|(-> & _ & ->)];
      [| |exact Hreg].
    - intros [= <- <-]. by left.
    - intros [= <- <-]. by right. }
  destruct r as [[|] hp'|e0]; cbn [invoke_async_op_completions].
  - destruct (complete_async_op x hp' None p) as [o q] eqn:E.
    apply complete_async_op_effect in E as [(-> & ? & ? & ?)|(-> & Hnone & ->)];
      [| |exact Hreg].
    + intros [= <- <-]. left. by repeat split.
    + intros [H|H]%Hexc; [|by right].
      destruct H as ([? ?] & _). congruence.
  - destruct (ndebug b); [intros [= <- <-]; by right|].
    destruct (ops p !! x) as [it|] eqn:Hit.
    + destruct (detached_promise it); intros [= <- <-]; by right.
    + intros [H|H]%Hexc; [|by right].
      destruct H as ([? Hs] & _). apply waiting_None in Hit. congruence.
  - intros [(? & ? & ?)|H]%Hexc; [left|by right]. by repeat split.
Qed.

Lemma pool_ids_delete n p j :
  j ∈ pool_ids (with_pool (delete n (pool p)) p) -> j ∈ pool_ids p.
Proof.
  unfold pool_ids. cbn [pool with_pool].
  intros (t & -> & Ht)%list_elem_of_fmap. apply list_elem_of_fmap.
  exists t. split; [done|]. by eapply list_elem_of_delete_inv.
Qed.

Lemma pool_ids_lookup n p t : pool p !! n = Some t -> fst (fst t) ∈ pool_ids p.
Proof.
  intros Ht. unfold pool_ids. apply list_elem_of_fmap. exists t.
  split; [done|]. by eapply list_elem_of_lookup_2.
Qed.

(** What running the [n]-th task comes to. *)
Lemma run_task_effect b n r p t out p' :
  pool p !! n = Some t ->
  (forall cs c, waiting p (fst (fst t)) = Some cs -> c ∈ cs ->
                is_Some (waiting p (fst c))) ->
  run_task b n r p = Some (out, p') ->
  monotoniccount p' = monotoniccount p /\
  ((exists cs, waiting p (fst (fst t)) = Some cs /\
      ops p' !! fst (fst t) = None /\
      (forall j, j ∈ pool_ids p' -> j ∈ pool_ids p \/ j ∈ fst <$> cs) /\
      (forall a, a <> fst (fst t) -> waiting p' a = waiting p a) /\
      (forall hp', r <> returned false hp')) \/
   ((forall j, j ∈ pool_ids p' -> j ∈ pool_ids p) /\
    (forall a, waiting p' a = waiting p a))).
Proof.
  intros Ht Hreg. unfold run_task. rewrite Ht. destruct t as [[x f] hp].
  cbn [fst snd] in *.
  set (p0 := with_pool (delete n (pool p)) p).
  destruct (invoke_async_op_completions b x hp r p0) as [o p1] eqn:E.
  intros Hrun.
  assert (Hq : monotoniccount p' = monotoniccount p1 /\ pool p' = pool p1 /\
               ops p' = ops p1).
  { destruct o; injection Hrun as <- <-; done. }
  destruct Hq as (Hm & Hpool & Hops). clear Hrun.
  apply invoke_async_op_completions_effect in E
    as [(Hs & Hgone & Heff & Hr)| ->]; [| |exact Hreg].
  - destruct Heff as [cs hp1 Hcs Hp1 Hg1 Hw1 Hm1| ->].
    + split; [by rewrite Hm, Hm1|]. left. exists cs.
      split; [exact Hcs|]. split; [by rewrite Hops|]. split.
      { intros j. unfold pool_ids at 1. rewrite Hpool, Hp1, fmap_app, elem_of_app.
        intros [Hj|Hj].
        - left. by apply (pool_ids_delete n p).
        - right. rewrite <- list_fmap_compose in Hj.
          apply list_elem_of_fmap in Hj as (c & -> & Hc).
          apply list_elem_of_fmap. eauto. }
      split; [|exact Hr].
      intros a Ha. rewrite (waiting_ops_eq p' p1) by done. by apply Hw1.
    + destruct Hs as [cs Hcs]. apply waiting_None in Hgone.
      unfold p0 in Hgone, Hcs. unfold waiting in *. cbn [ops with_pool] in *.
      congruence.
  - split; [by rewrite Hm|]. right. split.
    + intros j. unfold pool_ids at 1. rewrite Hpool. apply pool_ids_delete.
    + intros a. by rewrite (waiting_ops_eq p' p0).
Qed.

(** Every step keeps the invariant. *)
Lemma step_well_formed b c c' : well_formed c -> step b c c' -> well_formed c'.
Proof.
  intros Hwf Hstep. destruct Hstep as
    [flt ot pre det f c r p' Hlt Hrun _ _
    |n t r c out p' Ht Hrun _
    |x hp e c out p' Hx Hrun].
  - by eapply chain_async_op_well_formed.
  - destruct c as [p D]. cbn [disp deferred] in *.
    pose proof (pool_ids_lookup n p t Ht) as Hin.
    eapply run_task_effect in Hrun as (Hm & Hcase); [|exact Ht|].
    2:{ intros cs c Hcs Hc.
        apply (wf_waiting _ Hwf (fst (fst t)) cs (fst c) Hcs).
        apply list_elem_of_fmap. eauto. }
    destruct Hcase as [(cs & Hcs & Hgone & Hpool & Hw & Hr)|[Hpool Hw]].
    + eapply (completion_well_formed p D p' _ (fst (fst t)) cs); eauto.
      * by apply waiting_None.
      * intros j. destruct r as [[|] hp'|e0]; try done. by destruct (Hr hp').
    + eapply (untouched_well_formed p D p'); eauto.
      intros j. destruct r as [[|] hp'|e0]; eauto.
      destruct (is_returns out); [|eauto].
      rewrite elem_of_union, elem_of_singleton. intros [->|?]; eauto.
  - destruct c as [p D]. cbn [disp deferred] in *.
    apply complete_async_op_effect in Hrun
      as [(-> & Hs & Hgone & Heff)|(-> & Hnone & ->)].
    2:{ eapply (untouched_well_formed p D p); eauto.
        intros j ?%elem_of_difference. left. tauto. }
    2:{ intros cs c Hcs Hc. apply (wf_waiting _ Hwf x cs (fst c) Hcs).
        apply list_elem_of_fmap. eauto. }
    destruct Heff as [cs hp1 Hcs Hp1 Hg1 Hw1 Hm1| ->].
    + eapply (completion_well_formed p D p' _ x cs); eauto.
      * intros j. unfold pool_ids at 1. rewrite Hp1, fmap_app, elem_of_app.
        intros [Hj|Hj]; [by left|right].
        rewrite <- list_fmap_compose in Hj.
        apply list_elem_of_fmap in Hj as (c & -> & Hc).
        apply list_elem_of_fmap. eauto.
      * by apply waiting_None.
      * intros j ?%elem_of_difference. tauto.
    + destruct Hs as [cs Hcs]. apply waiting_None in Hgone. congruence.
Qed.

Lemma reachable_well_formed b c c' :
  well_formed c -> reachable b c c' -> well_formed c'.
Proof.
  intros Hwf Hreach. induction Hreach as [c|c c1 c2 Hstep _ IH]; [done|].
  apply IH. by eapply step_well_formed.
Qed.

(** *** A chained routine starts after its precondition has completed *)

Lemma waits_on_registered c a k f :
  well_formed c -> waits_on a k f (disp c) ->
  is_Some (ops (disp c) !! a) /\ is_Some (ops (disp c) !! k) /\
  (k ∉ pool_ids (disp c)) /\ (k ∉ deferred c).
Proof.
  intros Hwf (cs & Hcs & Hk).
  destruct (wf_waiting _ Hwf a cs k Hcs) as (Hs & Hnp & Hnd & _).
  { apply list_elem_of_fmap. by exists (k, f). }
  split; [apply waiting_is_Some; eauto|]. split; [by apply waiting_is_Some|].
  done.
Qed.

Lemma held_back_same a k f p p' :
  waiting p' a = waiting p a ->
  monotoniccount p <= monotoniccount p' ->
  held_back a k f p -> held_back a k f p'.
Proof.
  intros Hw Hm [(cs & Hcs & Hk)|[Hb Hgone]].
  - left. exists cs. by rewrite Hw.
  - right. split; [lia|]. apply waiting_None. rewrite Hw. by apply waiting_None.
Qed.

Lemma held_back_gone a k f p p' :
  is_Some (waiting p a) -> 0 < a <= monotoniccount p ->
  monotoniccount p' = monotoniccount p -> ops p' !! a = None ->
  held_back a k f p'.
Proof. intros _ Hb Hm Hgone. right. split; [lia|done]. Qed.

Lemma chain_async_op_held_back b flt ot pre det f0 c r p' a k f :
  well_formed c ->
  monotoniccount (disp c) < SIZE_MAX ->
  chain_async_op b flt ot pre det f0 (disp c) = (r, p') ->
  held_back a k f (disp c) -> held_back a k f p'.
Proof.
  intros Hwf Hlt Hrun Hheld.
  pose proof (wf_count _ Hwf) as Hcount.
  pose proof (well_formed_fresh _ Hwf) as Hfresh.
  apply chain_async_op_spec in Hrun as (Hm & _ & Hcase); [|lia|exact Hfresh].
  destruct Hcase as [(h0 & _ & _ & _ & Hw)|[_ Hw]].
  2:{ eapply held_back_same; [apply Hw|lia|done]. }
  destruct Hheld as [(cs & Hcs & Hk)|[Hb Hgone]].
  - left. unfold waits_on. rewrite Hw. unfold waiting_after.
    rewrite decide_False.
    2:{ intros ->. rewrite Hfresh in Hcs. discriminate. }
    destruct (in_flight pre (disp c) && bool_decide (a = id pre)).
    + rewrite Hcs. cbn. eexists. split; [done|]. apply elem_of_app. by left.
    + eauto.
  - right. split; [lia|]. apply waiting_None. rewrite Hw.
    unfold waiting_after. rewrite decide_False by lia.
    apply waiting_None in Hgone. rewrite Hgone.
    by destruct (in_flight pre (disp c) && bool_decide (a = id pre)).
Qed.

(** Every step keeps a waiting routine waiting until its precondition
    completes. *)
Lemma step_held_back b c c' a k f :
  well_formed c -> step b c c' ->
  held_back a k f (disp c) -> held_back a k f (disp c').
Proof.
  intros Hwf Hstep Hheld. destruct Hstep as
    [flt ot pre det f0 c r p' Hlt Hrun _ _
    |n t r c out p' Ht Hrun _
    |x hp e c out p' Hx Hrun]; cbn [disp].
  - by eapply chain_async_op_held_back.
  - eapply run_task_effect in Hrun as (Hm & Hcase); [|exact Ht|].
    2:{ intros cs c0 Hcs Hc.
        apply (wf_waiting _ Hwf (fst (fst t)) cs (fst c0) Hcs).
        apply list_elem_of_fmap. eauto. }
    destruct Hcase as [(cs & Hcs & Hgone & _ & Hw & _)|[_ Hw]].
    + destruct (decide (a = fst (fst t))) as [->|Hne].
      * eapply held_back_gone; eauto.
        apply (wf_ops _ Hwf). eauto.
      * eapply held_back_same; [by apply Hw|lia|done].
    + eapply held_back_same; [apply Hw|lia|done].
  - apply complete_async_op_effect in Hrun
      as [(-> & Hs & Hgone & Heff)|(-> & Hnone & ->)]; [| done |].
    2:{ intros cs c0 Hcs Hc. apply (wf_waiting _ Hwf x cs (fst c0) Hcs).
        apply list_elem_of_fmap. eauto. }
    destruct Heff as [cs hp1 Hcs Hp1 Hg1 Hw1 Hm1| ->]; [|done].
    destruct (decide (a = x)) as [->|Hne].
    + eapply held_back_gone; eauto. apply (wf_ops _ Hwf). eauto.
    + eapply held_back_same; [by apply Hw1|lia|done].
Qed.

Lemma reachable_held_back b c c' a k f :
  well_formed c -> reachable b c c' ->
  held_back a k f (disp c) -> held_back a k f (disp c').
Proof.
  intros Hwf Hreach. induction Hreach as [c|c c1 c2 Hstep _ IH]; [done|].
  intros Hheld. apply IH.
  - by eapply step_well_formed.
  - by eapply step_held_back.
Qed.

(** While the routine of [k] is held back by [a], [k] has not completed
    unless [a] has. *)
Lemma held_back_order c a k f :
  well_formed c -> held_back a k f (disp c) ->
  completed k (disp c) -> completed a (disp c).
Proof.
  intros Hwf [Hw|Hdone] [_ Hk]; [|done].
  destruct (waits_on_registered _ _ _ _ Hwf Hw) as (_ & [? ?] & _).
  congruence.
Qed.

(** *** Calls of chain_async_op that return *)

Lemma register_no_fault b ot pre det done ret p :
  waiting p (id ret) = None ->
  fst (register b no_fault ot pre det done ret p) = Returns ret.
Proof.
  intros Hfresh%waiting_None. unfold register. cbn [fault_eqb].
  rewrite (bool_decide_eq_true_2 _ Hfresh). cbn [negb andb].
  by destruct det.
Qed.

(** Without a failing allocation, before the counter wraps, the call
    returns the reference of the next id as soon as the precondition is
    in flight or its handle can be read. *)
Lemma chain_async_op_returns b ot pre det f c :
  well_formed c ->
  monotoniccount (disp c) < SIZE_MAX ->
  in_flight pre (disp c) = true \/ is_returns (bound_handle (disp c) pre) = true ->
  exists h0 p',
    chain_async_op b no_fault ot pre det f (disp c)
    = (Returns {| id := monotoniccount (disp c) + 1; h := h0 |}, p') /\
    h0 = (if in_flight pre (disp c) then no_state
          else task_future (monotoniccount (disp c) + 1)) /\
    well_formed {| disp := p'; deferred := deferred c |}.
Proof.
  intros Hwf Hlt Hok.
  pose proof (wf_count _ Hwf) as Hcount.
  pose proof (well_formed_fresh _ Hwf) as Hfresh.
  destruct (chain_async_op b no_fault ot pre det f (disp c)) as [r p'] eqn:E.
  pose proof (chain_async_op_well_formed _ _ _ _ _ _ _ _ _ Hwf Hlt E) as Hwf'.
  assert (Hret : is_returns r = true).
  { replace r with (fst (chain_async_op b no_fault ot pre det f (disp c)))
      by (by rewrite E).
    unfold chain_async_op. rewrite allocate_next by lia. cbn [fst snd].
    change (in_flight pre (with_monotoniccount _ (disp c)))
      with (in_flight pre (disp c)).
    destruct (in_flight pre (disp c)) eqn:Hin.
    - cbn [fault_eqb]. rewrite register_no_fault; [done|].
      cbn [id]. rewrite waiting_link. change (waiting (with_monotoniccount _ _) _)
        with (waiting (disp c) (monotoniccount (disp c) + 1)).
      rewrite Hfresh. by case_decide.
    - destruct Hok as [?|Hok]; [done|]. unfold bind_and_enqueue, bind, bound_handle.
      unfold bound_handle in Hok.
      change (get (with_monotoniccount _ (disp c)) (h pre))
        with (get (disp c) (h pre)).
      destruct (if valid (h pre) then _ else _); try done.
      cbn [fault_eqb fst]. rewrite register_no_fault; [done|]. exact Hfresh. }
  apply chain_async_op_spec in E as (Hm & _ & Hcase); [|lia|exact Hfresh].
  destruct Hcase as [(h0 & -> & Ht & Hf & _)|[Hnot _]]; [|congruence].
  exists h0, p'. split; [done|]. split; [|done].
  destruct (in_flight pre (disp c)); [by apply Ht|by apply Hf].
Qed.

(** The facts about the dispatcher after a call that returned. *)
Lemma chain_async_op_returned b flt ot pre det f c ref p' :
  well_formed c ->
  monotoniccount (disp c) < SIZE_MAX ->
  chain_async_op b flt ot pre det f (disp c) = (Returns ref, p') ->
  let k := monotoniccount (disp c) + 1 in
  id ref = k /\ monotoniccount p' = k /\
  is_Some (waiting p' k) /\
  (in_flight pre (disp c) = true ->
   waits_on (id pre) k f p' /\ pool p' = pool (disp c)) /\
  (in_flight pre (disp c) = false ->
   exists hp, bound_handle (disp c) pre = Returns hp /\
              pool p' = pool (disp c) ++ [((k, f), hp)]) /\
  (forall a j g, waits_on a j g (disp c) -> waits_on a j g p') /\
  (forall fh, get p' fh = get (disp c) fh).
Proof.
  intros Hwf Hlt Hrun. cbv zeta.
  pose proof (wf_count _ Hwf) as Hcount.
  pose proof (well_formed_fresh _ Hwf) as Hfresh.
  pose proof (chain_async_op_results b flt ot pre det f (disp c)) as [Htr Hpr].
  rewrite Hrun in Htr, Hpr. cbn [snd] in Htr, Hpr.
  assert (Hq : in_flight pre (disp c) = false ->
               exists hp, bound_handle (disp c) pre = Returns hp /\
                 pool p' = pool (disp c) ++ [((monotoniccount (disp c) + 1, f), hp)]).
  { intros Hin. revert Hrun. unfold chain_async_op.
    rewrite allocate_next by lia. cbn [fst snd].
    change (in_flight pre (with_monotoniccount _ (disp c)))
      with (in_flight pre (disp c)). rewrite Hin.
    unfold bind_and_enqueue, bind, bound_handle.
    change (get (with_monotoniccount _ (disp c)) (h pre))
      with (get (disp c) (h pre)).
    destruct (if valid (h pre) then _ else _) as [hp| | |]; try done.
    destruct (fault_eqb flt fault_enqueue); [done|]. cbn [fst].
    intros Hreg. exists hp. split; [done|].
    apply register_spec in Hreg as (Hpool & _); [|exact Hfresh].
    by rewrite Hpool. }
  apply chain_async_op_spec in Hrun as (Hm & _ & Hcase); [|lia|exact Hfresh].
  destruct Hcase as [(h0 & [= ->] & Ht & Hf & Hw)|[Hnot _]]; [|done].
  split; [done|]. split; [done|].
  split; [rewrite Hw; unfold waiting_after; rewrite decide_True by done; eauto|].
  split.
  { intros Hin. split; [|by apply Ht].
    pose proof Hin as [Hne [cs Hcs]]%in_flight_waiting.
    exists (cs ++ [(monotoniccount (disp c) + 1, f)]). split.
    - rewrite Hw. unfold waiting_after. rewrite Hin, bool_decide_eq_true_2 by done.
      rewrite decide_False; [by rewrite Hcs|].
      intros E. rewrite E, Hfresh in Hcs. done.
    - apply elem_of_app. right. by apply list_elem_of_singleton. }
  split; [exact Hq|]. split; [|intros fh; by apply get_same].
  intros a j g (cs & Hcs & Hj). unfold waits_on. rewrite Hw.
  unfold waiting_after. rewrite decide_False.
  2:{ intros ->. rewrite Hfresh in Hcs. done. }
  destruct (in_flight pre (disp c) && bool_decide (a = id pre)).
  - rewrite Hcs. cbn. eexists. split; [done|]. apply elem_of_app. by left.
  - eauto.
Qed.

(** *** close on the POSIX backend *)

(** Where [__linux__] is not defined, a close is one chained operation
    and nothing else. *)
Lemma close_one_not_linux b heap i p :
  linux b = false ->
  close_one b heap i p
  = chain_async_op b no_fault OpType.close i false (doclose i) p.
Proof.
  intros Hl. unfold close_one. rewrite Hl.
  by destruct (chain_async_op _ _ _ _ _ _ _) as [[]].
Qed.

Lemma step_chain_returned b flt ot pre det f p D ref p' :
  monotoniccount p < SIZE_MAX ->
  chain_async_op b flt ot pre det f p = (Returns ref, p') ->
  step b {| disp := p; deferred := D |} {| disp := p'; deferred := D |}.
Proof.
  intros Hlt Hrun.
  by apply (step_chain b flt ot pre det f {| disp := p; deferred := D |}
              (Returns ref) p').
Qed.

(** C1, as the code has it.  On a Linux build of the POSIX backend, in
    any state the dispatcher reaches from its construction with four ids
    left before the counter wraps: a close submitted on an operation
    whose handle is available and has ever been fsynced registers four
    operations with consecutive ids [c], [d], [s], [e] - the close, the
    open of the parent directory of the file for read, the sync and the
    close of the directory.  The routine of the open waits on the
    completion list of the close, that of the sync on the list of the
    open, that of the directory close on the list of the sync.  The
    reference returned is that of the directory close.  However the
    dispatcher runs on, the four complete in this order: [e] is not
    completed before [s], [s] not before [d], [d] not before [c]. *)
Theorem close_chains_directory_sync_on_linux b heap ff fm p D i a hd :
  linux b = true ->
  reachable b {| disp := new_dispatcher ff fm; deferred := ∅ |}
              {| disp := p; deferred := D |} ->
  monotoniccount p + 4 <= SIZE_MAX ->
  get p (h i) = Returns (Some a) ->
  heap !! a = Some hd ->
  has_ever_been_fsynced hd = true ->
  let c := monotoniccount p + 1 in
  let d := monotoniccount p + 2 in
  let s := monotoniccount p + 3 in
  let e := monotoniccount p + 4 in
  exists hc p',
    close_one b heap i p = (Returns {| id := e; h := no_state |}, p') /\
    (if in_flight i p then waits_on (id i) c (doclose i) p'
     else ((c, doclose i), Some a) ∈ pool p') /\
    waits_on c d
      (dofile {| precondition := {| id := c; h := hc |};
                 path := parent_path b (handle_path hd);
                 flags := file_flags.Read |}) p' /\
    waits_on d s (dosync {| id := d; h := no_state |}) p' /\
    waits_on s e (doclose {| id := s; h := no_state |}) p' /\
    reachable b {| disp := p; deferred := D |} {| disp := p'; deferred := D |} /\
    forall c', reachable b {| disp := p'; deferred := D |} c' ->
      (completed e (disp c') -> completed s (disp c')) /\
      (completed s (disp c') -> completed d (disp c')) /\
      (completed d (disp c') -> completed c (disp c')).
Proof.
  intros Hlinux Hreach Hroom Hget Hheap Hsynced. cbv zeta.
  pose proof (reachable_well_formed _ _ _ (new_dispatcher_well_formed ff fm)
                Hreach) as Hwf.
  pose proof (wf_count _ Hwf) as Hcount. cbn [disp] in Hcount.
  (* the close *)
  destruct (chain_async_op_returns b OpType.close i false (doclose i) {| disp := p; deferred := D |} Hwf)
    as (hc & p1 & Hrun1 & Hhc & Hwf1); [cbn; lia| |].
  { right. unfold bound_handle. cbn [disp]. rewrite Hget.
    destruct (h i); [discriminate Hget|done|done]. }
  destruct (chain_async_op_returned _ _ _ _ _ _ _ _ _ Hwf ltac:(cbn; lia) Hrun1)
    as (_ & Hm1 & Hs1 & Hlink1 & Hq1 & Hkeep1 & Hget1).
  cbn [disp deferred] in *.
  set (closeop := {| id := monotoniccount p + 1; h := hc |}) in *.
  (* the open of the containing directory *)
  set (containingdir := {| precondition := closeop;
                           path := parent_path b (handle_path hd);
                           flags := file_flags.Read |}).
  assert (Hin1 : in_flight closeop p1 = true).
  { apply in_flight_waiting. cbn [id closeop]. split; [lia|done]. }
  destruct (chain_async_op_returns b (implicit_optype b) closeop false
              (dofile containingdir) {| disp := p1; deferred := D |} Hwf1)
    as (h2 & p2 & Hrun2 & Hh2 & Hwf2); [cbn; lia|by left|].
  destruct (chain_async_op_returned _ _ _ _ _ _ _ _ _ Hwf1 ltac:(cbn; lia) Hrun2)
    as (_ & Hm2 & Hs2 & Hlink2 & _ & Hkeep2 & _).
  cbn [disp deferred] in *. rewrite Hin1 in Hh2. subst h2.
  rewrite Hm1 in *.
  set (diropenop := {| id := monotoniccount p + 1 + 1; h := no_state |}) in *.
  (* the sync of the directory *)
  assert (Hin2 : in_flight diropenop p2 = true).
  { apply in_flight_waiting. cbn [id diropenop]. split; [lia|done]. }
  destruct (chain_async_op_returns b (implicit_optype b) diropenop false
              (dosync diropenop) {| disp := p2; deferred := D |} Hwf2)
    as (h3 & p3 & Hrun3 & Hh3 & Hwf3); [cbn; lia|by left|].
  destruct (chain_async_op_returned _ _ _ _ _ _ _ _ _ Hwf2 ltac:(cbn; lia) Hrun3)
    as (_ & Hm3 & Hs3 & Hlink3 & _ & Hkeep3 & _).
  cbn [disp deferred] in *. rewrite Hin2 in Hh3. subst h3.
  rewrite Hm2 in *.
  set (syncdirop := {| id := monotoniccount p + 1 + 1 + 1; h := no_state |}) in *.
  (* the close of the directory *)
  assert (Hin3 : in_flight syncdirop p3 = true).
  { apply in_flight_waiting. cbn [id syncdirop]. split; [lia|done]. }
  destruct (chain_async_op_returns b (implicit_optype b) syncdirop false
              (doclose syncdirop) {| disp := p3; deferred := D |} Hwf3)
    as (h4 & p4 & Hrun4 & Hh4 & Hwf4); [cbn; lia|by left|].
  destruct (chain_async_op_returned _ _ _ _ _ _ _ _ _ Hwf3 ltac:(cbn; lia) Hrun4)
    as (_ & Hm4 & Hs4 & Hlink4 & _ & Hkeep4 & _).
  cbn [disp deferred] in *. rewrite Hin3 in Hh4. subst h4.
  rewrite Hm3 in *.
  pose proof (proj1 (Hlink2 Hin1)) as Hw_cd.
  pose proof (proj1 (Hlink3 Hin2)) as Hw_ds.
  pose proof (proj1 (Hlink4 Hin3)) as Hw_se.
  pose proof (proj2 (Hlink2 Hin1)) as Hpool2.
  pose proof (proj2 (Hlink3 Hin2)) as Hpool3.
  pose proof (proj2 (Hlink4 Hin3)) as Hpool4.
  clear Hlink2 Hlink3 Hlink4 Hin1 Hin2 Hin3.
  subst containingdir diropenop syncdirop closeop. cbn [id] in *.
  replace (monotoniccount p + 1 + 1) with (monotoniccount p + 2) in * by lia.
  replace (monotoniccount p + 2 + 1) with (monotoniccount p + 3) in * by lia.
  replace (monotoniccount p + 3 + 1) with (monotoniccount p + 4) in * by lia.
  exists hc, p4. split.
  { unfold close_one. rewrite Hrun1, Hlinux, Hget1, Hget, Hheap, Hsynced.
    unfold chain_dirsync. cbn [precondition].
    rewrite Hrun2, Hrun3. exact Hrun4. }
  split.
  { destruct (in_flight i p) eqn:Hin.
    - destruct Hlink1 as [Hl _]; [done|]. by apply Hkeep4, Hkeep3, Hkeep2.
    - destruct Hq1 as (hp & Hbh & Hpool1); [done|].
      unfold bound_handle in Hbh. rewrite Hget in Hbh.
      assert (hp = Some a) as ->.
      { destruct (valid (h i)) eqn:Hv; [congruence|].
        destruct (h i); [discriminate Hget|discriminate Hv|discriminate Hv]. }
      rewrite Hpool4, Hpool3, Hpool2, Hpool1. apply elem_of_app. right.
      by apply list_elem_of_singleton. }
  apply Hkeep3, Hkeep4 in Hw_cd. apply Hkeep4 in Hw_ds.
  split; [exact Hw_cd|]. split; [exact Hw_ds|]. split; [exact Hw_se|].
  split.
  { eapply rtc_l; [eapply step_chain_returned; [|exact Hrun1]; cbn; lia|].
    eapply rtc_l; [eapply step_chain_returned; [|exact Hrun2]; cbn; lia|].
    eapply rtc_l; [eapply step_chain_returned; [|exact Hrun3]; cbn; lia|].
    eapply rtc_l; [eapply step_chain_returned; [|exact Hrun4]; cbn; lia|].
    apply rtc_refl. }
  intros c' Hreach'.
  pose proof (reachable_well_formed _ _ _ Hwf4 Hreach') as Hwf'.
  split; [|split]; eapply held_back_order; try exact Hwf';
    eapply reachable_held_back; try exact Hreach'; try exact Hwf4;
    left; eassumption.
Qed.

Lemma file_opened_reachable :
  reachable toy_build {| disp := new_dispatcher 0 0; deferred := ∅ |}
            {| disp := file_opened; deferred := ∅ |}.
Proof.
  eapply rtc_l.
  { apply (step_chain toy_build no_fault OpType.file (precondition file_req)
             false (dofile file_req)
             {| disp := new_dispatcher 0 0; deferred := ∅ |}
             (Returns file_ref) file_queued).
    - vm_compute. reflexivity.
    - vm_compute. reflexivity.
    - discriminate.
    - discriminate. }
  eapply rtc_l; [|apply rtc_refl].
  apply (step_run toy_build 0 ((1, dofile file_req), None)
           (returned true (Some 0%nat))
           {| disp := file_queued; deferred := ∅ |}
           (Returns (Some 0%nat)) file_opened).
  - vm_compute. reflexivity.
  - vm_compute. reflexivity.
  - discriminate.
Qed.

Lemma close_chains_directory_sync_on_linux_witness :
  fst (close_one toy_build [synced_handle] file_ref file_opened)
  = Returns {| id := 5; h := no_state |}.
Proof.
  destruct (close_chains_directory_sync_on_linux toy_build [synced_handle]
              0 0 file_opened ∅ file_ref 0%nat synced_handle)
    as (hc & p' & Hrun & _).
  - reflexivity.
  - exact file_opened_reachable.
  - vm_compute. discriminate.
  - vm_compute. reflexivity.
  - reflexivity.
  - reflexivity.
  - rewrite Hrun. reflexivity.
Defined.

(** C1, as stated, fails: on a build of the POSIX backend without
    [__linux__], the close of a file whose handle has been fsynced
    registers the close alone, with nothing on its completion list, and
    returns the reference of the close itself. *)
Lemma close_without_linux_chains_nothing :
  get file_opened (h file_ref) = Returns (Some 0%nat) /\
  has_ever_been_fsynced synced_handle = true /\
  fst (close_one bsd_build [synced_handle] file_ref file_opened)
    = Returns {| id := 2; h := task_future 2 |} /\
  ops (snd (close_one bsd_build [synced_handle] file_ref file_opened))
    = {[ 2 := {| optype := OpType.close; op_h := task_future 2;
                 detached_promise := false; completions := [] |} ]} /\
  pool (snd (close_one bsd_build [synced_handle] file_ref file_opened))
    = [((2, doclose file_ref), Some 0%nat)].
Proof. repeat split; vm_compute; reflexivity. Qed.

(** *** Batches *)

Lemma runs_length fs p refs p' : runs fs p refs p' -> length refs = length fs.
Proof. induction 1; cbn; congruence. Qed.

Lemma chain_loop_runs {T} b ot (pre : T -> async_io_op) det f container :
  forall acc p refs p',
  chain_loop b ot pre det f container acc p = (Returns refs, p') <->
  exists new, refs = acc ++ new /\
              runs (chain_call b ot pre det f <$> container) p new p'.
Proof.
  induction container as [|i rest IH]; intros acc p refs p'; cbn.
  - split.
    + intros [= <- <-]. exists []. rewrite app_nil_r. split; [done|constructor].
    + intros (new & -> & Hruns). inversion Hruns; subst. by rewrite app_nil_r.
  - fold (chain_call b ot pre det f i p).
    destruct (chain_call b ot pre det f i p) as [[op| | |] p1] eqn:E.
    + rewrite IH. split.
      * intros (new & -> & Hruns). exists (op :: new).
        rewrite <- app_assoc. split; [done|]. by econstructor.
      * intros (new & -> & Hruns). inversion Hruns as [|? ? ? op' q ? ? Hf Hrest];
          subst. rewrite E in Hf. injection Hf as <- <-.
        eexists. rewrite <- app_assoc. split; [done|]. exact Hrest.
    + split; [done|]. intros (new & _ & Hruns).
      inversion Hruns as [|? ? ? op' q ? ? Hf Hrest]; subst. congruence.
    + split; [done|]. intros (new & _ & Hruns).
      inversion Hruns as [|? ? ? op' q ? ? Hf Hrest]; subst. congruence.
    + split; [done|]. intros (new & _ & Hruns).
      inversion Hruns as [|? ? ? op' q ? ? Hf Hrest]; subst. congruence.
Qed.

Lemma close_loop_runs b heap _ops :
  forall acc p refs p',
  close_loop b heap _ops acc p = (Returns refs, p') <->
  exists new, refs = acc ++ new /\ runs (close_one b heap <$> _ops) p new p'.
Proof.
  induction _ops as [|i rest IH]; intros acc p refs p'; cbn.
  - split.
    + intros [= <- <-]. exists []. rewrite app_nil_r. split; [done|constructor].
    + intros (new & -> & Hruns). inversion Hruns; subst. by rewrite app_nil_r.
  - destruct (close_one b heap i p) as [[op| | |] p1] eqn:E.
    + rewrite IH. split.
      * intros (new & -> & Hruns). exists (op :: new).
        rewrite <- app_assoc. split; [done|]. by econstructor.
      * intros (new & -> & Hruns). inversion Hruns as [|? ? ? op' q ? ? Hf Hrest];
          subst. rewrite E in Hf. injection Hf as <- <-.
        eexists. rewrite <- app_assoc. split; [done|]. exact Hrest.
    + split; [done|]. intros (new & _ & Hruns).
      inversion Hruns as [|? ? ? op' q ? ? Hf Hrest]; subst. congruence.
    + split; [done|]. intros (new & _ & Hruns).
      inversion Hruns as [|? ? ? op' q ? ? Hf Hrest]; subst. congruence.
    + split; [done|]. intros (new & _ & Hruns).
      inversion Hruns as [|? ? ? op' q ? ? Hf Hrest]; subst. congruence.
Qed.

Lemma completion_loop_runs b _ops :
  forall callbacks acc p refs p',
  completion_loop b _ops callbacks acc p = (Returns refs, p') <->
  exists new, refs = acc ++ new /\
              runs (completion_call b <$> zip _ops callbacks) p new p'.
Proof.
  induction _ops as [|i rest IH]; intros callbacks acc p refs p'.
  - cbn. split.
    + intros [= <- <-]. exists []. rewrite app_nil_r. split; [done|constructor].
    + intros (new & -> & Hruns). inversion Hruns; subst. by rewrite app_nil_r.
  - destruct callbacks as [|c callbacks].
    { cbn. split.
      + intros [= <- <-]. exists []. rewrite app_nil_r. split; [done|constructor].
      + intros (new & -> & Hruns). inversion Hruns; subst. by rewrite app_nil_r. }
    cbn [completion_loop zip zip_with fmap list_fmap].
    change (chain_async_op b no_fault OpType.UserCompletion i (fst c)
              (invoke_user_completion (snd c)) p)
      with (completion_call b (i, c) p).
    destruct (completion_call b (i, c) p) as [[op| | |] p1] eqn:E.
    + rewrite IH. split.
      * intros (new & -> & Hruns). exists (op :: new).
        rewrite <- app_assoc. split; [done|]. by econstructor.
      * intros (new & -> & Hruns). inversion Hruns as [|? ? ? op' q ? ? Hf Hrest];
          subst. rewrite E in Hf. injection Hf as <- <-.
        eexists. rewrite <- app_assoc. split; [done|]. exact Hrest.
    + split; [done|]. intros (new & _ & Hruns).
      inversion Hruns as [|? ? ? op' q ? ? Hf Hrest]; subst. congruence.
    + split; [done|]. intros (new & _ & Hruns).
      inversion Hruns as [|? ? ? op' q ? ? Hf Hrest]; subst. congruence.
    + split; [done|]. intros (new & _ & Hruns).
      inversion Hruns as [|? ? ? op' q ? ? Hf Hrest]; subst. congruence.
Qed.

(** A batch returns its vector exactly when its calls return one after
    the other, and the vector is then their results in that order. *)
Lemma submit_runs k b heap x p refs p' :
  submit k b heap x p = (Returns refs, p') <->
  runs (calls k b heap x) p refs p'.
Proof.
  assert (Hnil : forall fs, (exists new, refs = [] ++ new /\ runs fs p new p')
                            <-> runs fs p refs p').
  { intros fs. split; [by intros (new & -> & ?)|eauto]. }
  destruct k, x; cbn [submit calls];
    unfold compat.dir, compat.rmdir, compat.file, compat.rmfile, compat.sync,
      compat.close, compat.read, compat.write, windows.dir, windows.rmdir,
      windows.file, windows.rmfile, windows.sync, windows.close, windows.read,
      windows.write, completion, chain_async_ops, chain_async_ops_path,
      chain_async_ops_data;
    rewrite ?chain_loop_runs, ?close_loop_runs, ?completion_loop_runs;
    apply Hnil.
Qed.

Lemma calls_length k b heap x :
  length (calls k b heap x) =
  match x with
  | completion_batch o callbacks => Nat.min (length o) (length callbacks)
  | _ => input_length x
  end.
Proof.
  destruct k, x; cbn [calls input_length];
    rewrite length_fmap, ?length_zip; reflexivity.
Qed.

Lemma grows_refl p : grows p p.
Proof. unfold grows. split; [lia|]. done. Qed.

Lemma grows_trans p q r : grows p q -> grows q r -> grows p r.
Proof.
  intros (Hm & Hs & Hg) (Hm' & Hs' & Hg'). split; [lia|]. split.
  - intros a Ha. by apply Hs', Hs.
  - intros fh. by rewrite Hg', Hg.
Qed.

Lemma chain_async_op_grows b flt ot pre det f c r p' :
  well_formed c ->
  monotoniccount (disp c) < SIZE_MAX ->
  chain_async_op b flt ot pre det f (disp c) = (r, p') ->
  grows (disp c) p' /\ monotoniccount p' = monotoniccount (disp c) + 1.
Proof.
  intros Hwf Hlt Hrun.
  pose proof (wf_count _ Hwf) as Hcount.
  pose proof (well_formed_fresh _ Hwf) as Hfresh.
  pose proof (chain_async_op_results b flt ot pre det f (disp c)) as [Htr Hpr].
  rewrite Hrun in Htr, Hpr. cbn [snd] in Htr, Hpr.
  apply chain_async_op_spec in Hrun as (Hm & _ & Hcase); [|lia|exact Hfresh].
  split; [|done]. split; [lia|]. split; [|intros fh; by apply get_same].
  intros a Ha. destruct Hcase as [(h0 & _ & _ & _ & Hw)|[_ Hw]]; rewrite Hw.
  - by apply waiting_after_mono.
  - done.
Qed.

Lemma chainable_grows p q pre : grows p q -> chainable p pre -> chainable q pre.
Proof.
  intros (_ & Hs & Hg) [Hin|Hr].
  - left. apply in_flight_waiting in Hin as [Hne Hsome].
    apply in_flight_waiting. split; [done|]. by apply Hs.
  - right. unfold bound_handle in *. destruct (valid (h pre)); [|done].
    by rewrite Hg.
Qed.

(** A chaining call returns wherever its precondition is chainable. *)
Lemma chain_returns_within b ot pre det f D p0 :
  chainable p0 pre ->
  returns_within 1 D p0 (chain_async_op b no_fault ot pre det f).
Proof.
  intros Hch q Hwf Hgrow Hroom.
  pose proof (chainable_grows _ _ _ Hgrow Hch) as Hq.
  destruct (chain_async_op_returns b ot pre det f
              {| disp := q; deferred := D |} Hwf)
    as (h0 & q' & Hrun & _ & Hwf'); [cbn; lia|exact Hq|].
  cbn [disp deferred] in *.
  destruct (chain_async_op_grows _ _ _ _ _ _ {| disp := q; deferred := D |}
              _ _ Hwf ltac:(cbn; lia) Hrun) as [Hg Hm].
  cbn [disp] in *. eexists _, q'. split; [exact Hrun|]. split; [done|].
  split; [done|lia].
Qed.

(** A call chained on an operation in flight. *)
Lemma chain_on_in_flight b ot pre f D q :
  well_formed {| disp := q; deferred := D |} ->
  monotoniccount q < SIZE_MAX ->
  id pre <> 0 -> is_Some (waiting q (id pre)) ->
  exists q',
    chain_async_op b no_fault ot pre false f q
    = (Returns {| id := monotoniccount q + 1; h := no_state |}, q') /\
    well_formed {| disp := q'; deferred := D |} /\
    grows q q' /\ monotoniccount q' = monotoniccount q + 1 /\
    is_Some (waiting q' (monotoniccount q + 1)).
Proof.
  intros Hwf Hlt Hne Hsome.
  assert (Hin : in_flight pre q = true) by by apply in_flight_waiting.
  destruct (chain_async_op_returns b ot pre false f
              {| disp := q; deferred := D |} Hwf)
    as (h0 & q' & Hrun & Hh0 & Hwf'); [cbn; lia|by left|].
  cbn [disp deferred] in *. rewrite Hin in Hh0. subst h0.
  destruct (chain_async_op_grows _ _ _ _ _ _ {| disp := q; deferred := D |}
              _ _ Hwf ltac:(cbn; lia) Hrun) as [Hg Hm].
  destruct (chain_async_op_returned _ _ _ _ _ _ {| disp := q; deferred := D |}
              _ _ Hwf ltac:(cbn; lia) Hrun) as (_ & _ & Hs & _).
  cbn [disp] in *. by exists q'.
Qed.

(** A close on the POSIX backend returns wherever it is closable, with
    at most four ids. *)
Lemma close_one_returns b heap i D p0 :
  closable b heap p0 i -> returns_within 4 D p0 (close_one b heap i).
Proof.
  intros [Hch Hlinux] q Hwf Hgrow Hroom.
  pose proof (wf_count _ Hwf) as Hcount. cbn [disp] in Hcount.
  destruct (chain_returns_within b OpType.close i false (doclose i) D p0
              Hch q Hwf Hgrow ltac:(lia))
    as (op & q1 & Hrun1 & Hwf1 & Hg1 & Hm1).
  unfold close_one. rewrite Hrun1.
  destruct (chain_async_op_grows _ _ _ _ _ _ {| disp := q; deferred := D |}
              _ _ Hwf ltac:(cbn; lia) Hrun1) as [_ Hm1'].
  destruct (chain_async_op_returned _ _ _ _ _ _ {| disp := q; deferred := D |}
              _ _ Hwf ltac:(cbn; lia) Hrun1) as (Hid & _ & Hs1 & _).
  cbn [disp] in *.
  destruct (linux b) eqn:Hl.
  2:{ exists op, q1. split; [done|]. split; [done|]. split; [done|lia]. }
  destruct (Hlinux eq_refl) as (a & hd & Hget & Hheap).
  destruct Hg1 as (_ & _ & Hget1). destruct Hgrow as (_ & _ & Hget0).
  rewrite Hget1, Hget0, Hget, Hheap.
  destruct (has_ever_been_fsynced hd).
  2:{ exists op, q1. split; [done|]. split; [done|].
      split; [|lia]. apply (chain_async_op_grows _ _ _ _ _ _
        {| disp := q; deferred := D |} _ _ Hwf ltac:(cbn; lia) Hrun1). }
  unfold chain_dirsync. cbn [precondition].
  destruct (chain_on_in_flight b (implicit_optype b) op
              (dofile {| precondition := op;
                         path := parent_path b (handle_path hd);
                         flags := file_flags.Read |}) D q1 Hwf1)
    as (q2 & Hrun2 & Hwf2 & Hg2 & Hm2 & Hs2); [lia|lia|by rewrite Hid|].
  rewrite Hrun2.
  destruct (chain_on_in_flight b (implicit_optype b)
              {| id := monotoniccount q1 + 1; h := no_state |}
              (dosync {| id := monotoniccount q1 + 1; h := no_state |})
              D q2 Hwf2)
    as (q3 & Hrun3 & Hwf3 & Hg3 & Hm3 & Hs3); [lia|cbn; lia|done|].
  rewrite Hrun3.
  destruct (chain_on_in_flight b (implicit_optype b)
              {| id := monotoniccount q2 + 1; h := no_state |}
              (doclose {| id := monotoniccount q2 + 1; h := no_state |})
              D q3 Hwf3)
    as (q4 & Hrun4 & Hwf4 & Hg4 & Hm4 & Hs4); [lia|cbn; lia|done|].
  rewrite Hrun4. eexists _, q4. split; [done|]. split; [done|].
  split; [|lia].
  eapply grows_trans; [|exact Hg4]. eapply grows_trans; [|exact Hg3].
  eapply grows_trans; [|exact Hg2].
  apply (chain_async_op_grows _ _ _ _ _ _ {| disp := q; deferred := D |}
           _ _ Hwf ltac:(cbn; lia) Hrun1).
Qed.

(** Calls that return one by one make a batch that returns. *)
Lemma runs_total n D p0 fs :
  0 <= n ->
  Forall (returns_within n D p0) fs ->
  forall q, well_formed {| disp := q; deferred := D |} -> grows p0 q ->
            monotoniccount q + n * Z.of_nat (length fs) <= SIZE_MAX ->
            exists refs p', runs fs q refs p'.
Proof.
  intros Hn Hall. induction Hall as [|f fs Hf _ IH]; intros q Hwf Hgrow Hroom.
  - exists [], q. constructor.
  - cbn [length] in Hroom.
    destruct (Hf q Hwf Hgrow ltac:(nia)) as (op & q1 & Hrun & Hwf1 & Hg1 & Hm1).
    destruct (IH q1 Hwf1) as (refs & p' & Hruns).
    + by eapply grows_trans.
    + nia.
    + exists (op :: refs), p'. by econstructor.
Qed.

Lemma chain_calls_return {T} b ot (pre : T -> async_io_op) det f D p
    (container : list T) :
  Forall (chainable p) (pre <$> container) ->
  Forall (returns_within 1 D p) (chain_call b ot pre det f <$> container).
Proof.
  rewrite !Forall_fmap. intros Hall. eapply Forall_impl; [exact Hall|].
  intros i Hi. by apply chain_returns_within.
Qed.

Lemma submittable_calls k b heap x p D :
  submittable k b heap x p D ->
  Forall (returns_within (ids_per_call k x) D p) (calls k b heap x).
Proof.
  intros (_ & _ & Hpre & Hclose).
  destruct x; cbn [calls preconditions ids_per_call] in *;
    try (destruct k; by apply chain_calls_return).
  - destruct k; apply chain_calls_return; by rewrite list_fmap_id.
  - destruct k.
    + rewrite Forall_fmap. eapply Forall_impl; [exact Hclose|]. intros i Hi.
      by apply close_one_returns.
    + apply chain_calls_return. by rewrite list_fmap_id.
  - assert (ids_per_call k (completion_batch _ops callbacks) = 1) as ->
      by by destruct k.
    rewrite Forall_fmap in Hpre. rewrite Forall_fmap.
    eapply Forall_impl; [exact Hpre|]. intros ic Hic.
    by apply chain_returns_within.
Qed.

(** C6, as the code has it.  A batch handed to dir, rmdir, file, rmfile,
    sync, close, read or write returns, when it returns, a vector with
    one reference for each element of the input, in the order of the
    input: the [k]-th reference is what the call made for the [k]-th
    element returned.  [completion] pairs [ops] with [callbacks] and
    returns one reference for each pair: its vector has the length of the
    shorter of the two.  A batch does return when the dispatcher has the
    ids left, every precondition is in flight or has its handle readable
    and, for a close on Linux, the handle is there. *)
Theorem batch_returns_one_reference_per_call k b heap x p :
  (forall refs p',
     submit k b heap x p = (Returns refs, p') ->
     runs (calls k b heap x) p refs p' /\
     length refs =
       match x with
       | completion_batch o callbacks => Nat.min (length o) (length callbacks)
       | _ => input_length x
       end) /\
  (forall D, submittable k b heap x p D ->
             exists refs p', submit k b heap x p = (Returns refs, p')).
Proof.
  split.
  - intros refs p' Hrun%submit_runs. split; [done|].
    rewrite <- calls_length with (k := k) (b := b) (heap := heap).
    by eapply runs_length.
  - intros D Hsub. pose proof Hsub as (Hwf & Hroom & _).
    destruct (runs_total (ids_per_call k x) D p (calls k b heap x))
      with (q := p) as (refs & p' & Hruns).
    + by destruct k, x.
    + by apply submittable_calls.
    + done.
    + apply grows_refl.
    + done.
    + exists refs, p'. by apply submit_runs.
Qed.

Lemma batch_returns_one_reference_per_call_witness :
  exists refs p',
    submit backend_compat toy_build [] two_writes file_opened = (Returns refs, p')
    /\ length refs = 2%nat.
Proof.
  destruct (batch_returns_one_reference_per_call backend_compat toy_build []
              two_writes file_opened) as [Hlen Htotal].
  destruct (Htotal ∅) as (refs & p' & Hrun).
  { split; [|split; [|split]].
    - exact (reachable_well_formed _ _ _ (new_dispatcher_well_formed 0 0)
               file_opened_reachable).
    - vm_compute. discriminate.
    - repeat constructor; right; vm_compute; reflexivity.
    - exact I. }
  exists refs, p'. split; [exact Hrun|]. exact (proj2 (Hlen refs p' Hrun)).
Defined.

(** C6, as stated, fails for [completion]: two operations and one
    callback give a vector of one reference. *)
Lemma completion_returns_fewer_than_ops :
  input_length (completion_batch [file_ref; file_ref] [(false, 0%nat)]) = 2%nat /\
  fst (submit backend_compat toy_build []
         (completion_batch [file_ref; file_ref] [(false, 0%nat)]) file_opened)
  = Returns [ {| id := 2; h := task_future 2 |} ].
Proof. split; vm_compute; reflexivity. Qed.

(** *** Creating a directory that exists *)

(** C5.  The code at the failing input: the directory "/t" exists and
    the request asks to create it only if it does not exist.  [mkdir]
    fails with [EEXIST] ([CreateDirectory] with [ERROR_ALREADY_EXISTS]),
    the result is kept in [ret] - and never looked at: the operation
    returns "done" with a new dummy handle, on both backends, where the
    specification has it fail. *)
Theorem dodir_exclusive_create_of_existing_succeeds :
  fst (@posix_call toy_posix (call_mkdir "/t" 504) (kern t_exists))
  = (-1, @EEXIST toy_posix) /\
  has_flags file_flags.CreateOnlyIfNotExist
            (fileflags (this t_exists) (flags create_t_exclusively)) = true /\
  @posix_dodir toy_posix 1 None create_t_exclusively t_exists
  = (Returns (true, Some 0%nat),
     @Build_system toy_posix (new_dispatcher 0 0)
       {| dirs := ["/t"%string]; files := []; open_fds := [] |}
       [call_mkdir "/t" 504; call_stat "/t"]
       [ {| handle_path := "/t"; byteswritten := 0;
            byteswrittenatlastfsync := 0; fd := -999;
            has_been_added := false; autoflush := false;
            has_ever_been_fsynced := false |} ]) /\
  fst (@windows_dodir toy_win32 1 None create_t_exclusively w_t_exists)
  = Returns (true, Some 0%nat).
Proof. repeat split; vm_compute; reflexivity. Qed.

(** *** The counters of a handle *)

Lemma to_long_zero bits : 0 < bits -> to_long bits 0 = 0.
Proof.
  intros Hb. unfold to_long. rewrite Zmod_0_l.
  pose proof (Z.pow_pos_nonneg 2 (bits - 1) ltac:(lia) ltac:(lia)).
  destruct (0 <? 2 ^ (bits - 1)) eqn:E; [done|].
  apply Z.ltb_ge in E. lia.
Qed.

Lemma to_long_le bits x : 0 < bits -> 0 <= x -> to_long bits x <= x.
Proof.
  intros Hb Hx. unfold to_long.
  pose proof (Z.pow_pos_nonneg 2 bits ltac:(lia) ltac:(lia)).
  pose proof (Z.mod_le x (2 ^ bits) Hx ltac:(lia)).
  destruct (_ <? _); lia.
Qed.

Lemma to_size_t_le x : 0 <= x -> 0 <= to_size_t x <= x.
Proof.
  intros Hx. split; [apply to_size_t_range|].
  unfold to_size_t, SIZE_BITS. apply Z.mod_le; lia.
Qed.

Lemma to_size_t_zero x : 0 <= x -> to_size_t x = 0 -> x <= 0 \/ SIZE_MAX < x.
Proof.
  intros Hx H0. destruct (decide (x <= SIZE_MAX)); [|lia].
  rewrite to_size_t_small in H0; lia.
Qed.

Section posix_facts.
Context {OS : posix}.

Lemma issue_spec c (s : system) ret errno s1 :
  issue c s = (ret, errno, s1) ->
  heap s1 = heap s /\ this s1 = this s /\ issued s1 = issued s ++ [c].
Proof.
  unfold issue. destruct (posix_call c (kern s)) as [[r e] k].
  intros [= <- <- <-]. done.
Qed.

Lemma set_synced_ordered hd :
  counters_ordered hd ->
  counters_ordered (set_synced (to_size_t (write_count_since_fsync hd)) hd).
Proof.
  unfold counters_ordered, write_count_since_fsync. intros Hle. cbn.
  pose proof (to_size_t_le (byteswritten hd - byteswrittenatlastfsync hd)
                ltac:(lia)).
  pose proof (to_long_le long_bits
                (to_size_t (byteswritten hd - byteswrittenatlastfsync hd))
                long_bits_pos ltac:(lia)).
  lia.
Qed.

Lemma new_handle_spec _path af _fd errno (s : system) r s1 :
  new_handle _path af _fd errno s = (r, s1) ->
  this s1 = this s /\ issued s1 = issued s /\ kern s1 = kern s /\
  ((heap s1 = heap s /\ ~ is_returns r) \/
   (exists hd, heap s1 = heap s ++ [hd] /\ r = Returns (length (heap s)) /\
               byteswritten hd = 0 /\ byteswrittenatlastfsync hd = 0)).
Proof.
  unfold new_handle.
  destruct (if negb (_fd =? -999) then ERRHOSFN _fd errno _path else Returns tt)
    as [[]| | |]; intros [= <- <-]; cbn; repeat split; eauto.
  right. eexists. repeat split; eauto.
Qed.

Lemma new_handle_ordered _path af _fd errno (s : system) :
  heap_ordered s -> heap_ordered (snd (new_handle _path af _fd errno s)).
Proof.
  intros Hs. destruct (new_handle _path af _fd errno s) as [r s1] eqn:E.
  apply new_handle_spec in E as (_ & _ & _ & [[Hh _]|(hd & Hh & _ & Ht & Hl)]);
    unfold heap_ordered; cbn; rewrite Hh; [done|].
  apply Forall_app. split; [done|].
  constructor; [|constructor]. unfold counters_ordered. lia.
Qed.

Lemma do_add_io_handle_to_parent_ordered a (s : system) :
  heap_ordered s -> heap_ordered (do_add_io_handle_to_parent a s).
Proof.
  intros Hs. unfold do_add_io_handle_to_parent.
  destruct (heap s !! a) as [hd|] eqn:Ha; [|done].
  unfold heap_ordered. cbn. apply Forall_insert; [done|].
  eapply Forall_lookup_1 in Ha; [|exact Hs]. exact Ha.
Qed.

(** What [dofile] leaves: the handles ordered, and the one it returns
    with nothing written. *)
Lemma posix_dofile_spec _id hp req (s : system) r s1 :
  posix_dofile _id hp req s = (r, s1) ->
  heap_ordered s ->
  heap_ordered s1 /\
  forall done a, r = Returns (done, Some a) ->
    exists hd, heap s1 !! a = Some hd /\
               byteswritten hd = 0 /\ byteswrittenatlastfsync hd = 0.
Proof.
  unfold posix_dofile. intros E Hs.
  destruct (issue _ s) as [[_fd errno] s0] eqn:Ei.
  apply issue_spec in Ei as (Hh & _ & _).
  assert (heap_ordered s0) as Hs0 by (unfold heap_ordered; by rewrite Hh).
  pose proof (new_handle_ordered (path req)
    (Z.lor file_flags.AutoFlush file_flags.Write =?
     Z.land (fileflags (this s) (flags req))
       (Z.lor file_flags.AutoFlush file_flags.Write)) _fd errno s0 Hs0) as Hn.
  destruct (new_handle _ _ _fd errno s0) as [rn s2] eqn:En.
  cbn in Hn. apply new_handle_spec in En as (_ & _ & _ & Hcase).
  destruct rn as [a| | |]; injection E as <- <-;
    try (split; [done|intros ?? [=]]).
  split; [by apply do_add_io_handle_to_parent_ordered|].
  intros done a' [= _ <-].
  destruct Hcase as [[_ Hnot]|(hd & Hh2 & [= Ha] & Ht & Hl)];
    [by destruct Hnot|].
  unfold do_add_io_handle_to_parent.
  assert (heap s2 !! a = Some hd) as Hat.
  { rewrite Hh2. by apply list_lookup_middle. }
  rewrite Hat. cbn. exists (set_has_been_added hd).
  split; [|done].
  apply list_lookup_insert_eq. by eapply lookup_lt_Some.
Qed.

Lemma posix_dofile_ordered _id hp req (s : system) :
  heap_ordered s -> heap_ordered (snd (posix_dofile _id hp req s)).
Proof.
  intros Hs. destruct (posix_dofile _id hp req s) as [r s1] eqn:E.
  by apply posix_dofile_spec in E as [? _].
Qed.

Lemma issue_ordered c (s : system) ret errno s1 :
  issue c s = (ret, errno, s1) -> heap_ordered s -> heap_ordered s1.
Proof.
  intros E Hs. apply issue_spec in E as (Hh & _ & _).
  unfold heap_ordered. by rewrite Hh.
Qed.

Lemma posix_dodir_ordered _id hp req (s : system) :
  heap_ordered s -> heap_ordered (snd (posix_dodir _id hp req s)).
Proof.
  intros Hs. unfold posix_dodir.
  set (flags0 := fileflags (this s) (flags req)).
  assert (exists ret flags1 s1,
    (if has_flags file_flags.Create flags0 then
       let '(ret, errno, s1) := issue (call_mkdir (path req) 504) s in
       (if (ret =? -1) && (errno =? EEXIST)
        then if negb (has_flags file_flags.CreateOnlyIfNotExist flags0)
             then 0 else ret
        else ret,
        Z.land flags0
          (Z.lnot (Z.lor file_flags.Create file_flags.CreateOnlyIfNotExist)),
        s1)
     else (0, flags0, s)) = (ret, flags1, s1) /\ heap_ordered s1)
    as (ret & flags1 & s1 & -> & Hs1).
  { destruct (has_flags file_flags.Create flags0); [|by eauto].
    destruct (issue (call_mkdir (path req) 504) s) as [[r e] s1] eqn:Ei.
    eapply issue_ordered in Ei; eauto. }
  destruct (issue (call_stat (path req)) s1) as [[r e] s2] eqn:Ei.
  eapply issue_ordered in Ei; [|done].
  destruct ((r =? 0) && negb (S_ISDIR (st_mode (path req) (kern s1))));
    [done|].
  destruct (has_flags file_flags.Read flags1).
  - destruct (posix_dofile _ _ _ s2) as [rf s3] eqn:Ef.
    apply posix_dofile_spec in Ef as [Hs3 Hnew]; [|done].
    destruct rf as [[dn [a|]]| | |]; cbn; try assumption.
    destruct (Hnew dn a eq_refl) as (hd & Ha & Ht & Hl).
    unfold heap_ordered. cbn. apply Forall_alter; [done|].
    intros x Hx _. pose proof (eq_trans (eq_sym Hx) Ha) as [= ->].
    unfold counters_ordered. cbn. lia.
  - pose proof (new_handle_ordered (path req) false (-999) e s2 Ei) as Hn.
    by destruct (new_handle (path req) false (-999) e s2) as [[| | |] s3].
Qed.

Lemma dummy_handle_ordered _path (s : system) :
  heap_ordered s -> heap_ordered (snd (dummy_handle _path s)).
Proof.
  intros Hs. unfold dummy_handle.
  pose proof (new_handle_ordered _path false (-999) 0 s Hs) as Hn.
  by destruct (new_handle _path false (-999) 0 s) as [[| | |] s3].
Qed.

Lemma posix_dormdir_ordered _id hp req (s : system) :
  heap_ordered s -> heap_ordered (snd (posix_dormdir _id hp req s)).
Proof.
  intros Hs. unfold posix_dormdir.
  destruct (issue _ s) as [[r e] s1] eqn:Ei.
  eapply issue_ordered in Ei; [|done].
  destruct (ERRHOSFN r e (path req)) as [[]| | |]; try done.
  by apply dummy_handle_ordered.
Qed.

Lemma posix_dormfile_ordered _id hp req (s : system) :
  heap_ordered s -> heap_ordered (snd (posix_dormfile _id hp req s)).
Proof.
  intros Hs. unfold posix_dormfile.
  destruct (issue _ s) as [[r e] s1] eqn:Ei.
  eapply issue_ordered in Ei; [|done].
  destruct (ERRHOSFN r e (path req)) as [[]| | |]; try done.
  by apply dummy_handle_ordered.
Qed.

Lemma deref_Some hp (s : system) a hd :
  deref hp s = Some (a, hd) -> hp = Some a /\ heap s !! a = Some hd.
Proof.
  unfold deref. destruct hp as [a'|]; [|done].
  destruct (heap s !! a') eqn:E; [|done]. by intros [= <- <-].
Qed.

Lemma posix_dosync_ordered _id hp op (s : system) :
  heap_ordered s -> heap_ordered (snd (posix_dosync _id hp op s)).
Proof.
  intros Hs. unfold posix_dosync.
  destruct (deref hp s) as [[a hd]|] eqn:Ed; [|done].
  apply deref_Some in Ed as [-> Ha].
  assert (counters_ordered hd) as Hhd by (by eapply Forall_lookup_1 in Ha).
  destruct (negb (to_size_t (write_count_since_fsync hd) =? 0)).
  - destruct (issue _ s) as [[r e] s1] eqn:Ei.
    eapply issue_ordered in Ei; [|done].
    destruct (ERRHOSFN r e (handle_path hd)) as [[]| | |]; try done.
    unfold heap_ordered. cbn. apply Forall_insert; [done|].
    by apply set_synced_ordered.
  - unfold heap_ordered. cbn. apply Forall_insert; [done|].
    by apply set_synced_ordered.
Qed.

Lemma posix_doclose_ordered _id hp op (s : system) :
  heap_ordered s -> heap_ordered (snd (posix_doclose _id hp op s)).
Proof.
  intros Hs. unfold posix_doclose.
  destruct (deref hp s) as [[a hd]|] eqn:Ed; [|done].
  apply deref_Some in Ed as [-> Ha].
  assert (counters_ordered hd) as Hhd by (by eapply Forall_lookup_1 in Ha).
  assert (exists flushed s1,
    (if autoflush hd && negb (write_count_since_fsync hd =? 0) then
       let '(ret, errno, s1) := issue (call_fsync (fd hd)) s in
       (ERRHOSFN ret errno (handle_path hd), s1)
     else (Returns tt, s)) = (flushed, s1) /\ heap_ordered s1)
    as (flushed & s1 & -> & Hs1).
  { destruct (autoflush hd && _); [|by eauto].
    destruct (issue _ s) as [[r e] s1] eqn:Ei.
    eapply issue_ordered in Ei; eauto. }
  destruct flushed as [[]| | |]; try done.
  destruct (issue _ s1) as [[r e] s2] eqn:Ei.
  eapply issue_ordered in Ei; [|done].
  destruct (ERRHOSFN r e (handle_path hd)) as [[]| | |]; try done.
  unfold heap_ordered. cbn. apply Forall_insert; [done|]. exact Hhd.
Qed.

Lemma posix_doread_ordered _id hp req (s : system) :
  heap_ordered s -> heap_ordered (snd (posix_doread _id hp req s)).
Proof.
  intros Hs. unfold posix_doread.
  destruct (deref hp s) as [[a hd]|] eqn:Ed; [|done].
  destruct (issue _ s) as [[r e] s1] eqn:Ei.
  eapply issue_ordered in Ei; [|done].
  by destruct (ERRHOSFN _ e (handle_path hd)) as [[]| | |].
Qed.

Lemma posix_dowrite_ordered _id hp req (s : system) :
  heap_ordered s -> heap_ordered (snd (posix_dowrite _id hp req s)).
Proof.
  intros Hs. unfold posix_dowrite.
  destruct (deref hp s) as [[a hd]|] eqn:Ed; [|done].
  destruct (issue _ s) as [[r e] s1] eqn:Ei.
  eapply issue_ordered in Ei; [|done].
  by destruct (ERRHOSFN _ e (handle_path hd)) as [[]| | |].
Qed.

Lemma posix_routine_ordered _id hp f (s : system) :
  heap_ordered s -> heap_ordered (snd (posix_routine _id hp f s)).
Proof.
  intros Hs. destruct f; cbn [posix_routine];
    auto using posix_dodir_ordered, posix_dormdir_ordered,
      posix_dofile_ordered, posix_dormfile_ordered, posix_dosync_ordered,
      posix_doclose_ordered, posix_doread_ordered, posix_dowrite_ordered.
Qed.

Lemma posix_run_ordered ts (s : system) :
  heap_ordered s -> heap_ordered (posix_run ts s).
Proof.
  revert s. induction ts as [|t ts IH]; intros s Hs; [done|].
  cbn. apply IH. by apply posix_routine_ordered.
Qed.

End posix_facts.

Section windows_facts.
Context {W : win32}.

Lemma w_issue_spec c (s : wsystem) ret err s1 :
  w_issue c s = (ret, err, s1) ->
  w_heap s1 = w_heap s /\ w_this s1 = w_this s /\
  w_issued s1 = w_issued s ++ [c].
Proof.
  unfold w_issue. destruct (win_call c (w_kern s)) as [[r e] k].
  intros [= <- <- <-]. done.
Qed.

Lemma w_issue_ordered c (s : wsystem) ret err s1 :
  w_issue c s = (ret, err, s1) -> w_heap_ordered s -> w_heap_ordered s1.
Proof.
  intros E Hs. apply w_issue_spec in E as (Hh & _ & _).
  unfold w_heap_ordered. by rewrite Hh.
Qed.

Lemma w_set_synced_ordered hd :
  w_counters_ordered hd ->
  w_counters_ordered
    (w_set_synced (to_size_t (w_write_count_since_fsync hd)) hd).
Proof.
  unfold w_counters_ordered, w_write_count_since_fsync. intros Hle. cbn.
  pose proof (to_size_t_le (w_byteswritten hd - w_byteswrittenatlastfsync hd)
                ltac:(lia)).
  pose proof (to_long_le 32
                (to_size_t (w_byteswritten hd - w_byteswrittenatlastfsync hd))
                ltac:(lia) ltac:(lia)).
  lia.
Qed.

Lemma w_dummy_handle_ordered _path (s : wsystem) :
  w_heap_ordered s -> w_heap_ordered (snd (w_dummy_handle _path s)).
Proof.
  intros Hs. unfold w_dummy_handle, w_heap_ordered. cbn.
  apply Forall_app. split; [done|].
  constructor; [|constructor]. unfold w_counters_ordered. cbn. lia.
Qed.

Lemma windows_dofile_ordered _id hp req (s : wsystem) :
  w_heap_ordered s -> w_heap_ordered (snd (windows_dofile _id hp req s)).
Proof.
  intros Hs. unfold windows_dofile.
  destruct (w_issue _ s) as [[handle err] s1] eqn:Ei.
  eapply w_issue_ordered in Ei; [|done].
  destruct (handle =? INVALID_HANDLE_VALUE); [done|].
  unfold w_heap_ordered. cbn.
  apply Forall_app. split; [done|].
  constructor; [|constructor]. unfold w_counters_ordered. cbn. lia.
Qed.

Lemma windows_dodir_ordered _id hp req (s : wsystem) :
  w_heap_ordered s -> w_heap_ordered (snd (windows_dodir _id hp req s)).
Proof.
  intros Hs. unfold windows_dodir.
  set (flags0 := fileflags (w_this s) (flags req)).
  assert (exists ret flags1 s1,
    (if has_flags file_flags.Create flags0 then
       let '(ret, err, s1) := w_issue (call_CreateDirectory (path req)) s in
       (if (ret =? 0) && (ERROR_ALREADY_EXISTS =? err)
        then if negb (has_flags file_flags.CreateOnlyIfNotExist flags0)
             then 1 else ret
        else ret,
        Z.land flags0
          (Z.lnot (Z.lor file_flags.Create file_flags.CreateOnlyIfNotExist)),
        s1)
     else (0, flags0, s)) = (ret, flags1, s1) /\ w_heap_ordered s1)
    as (ret & flags1 & s1 & -> & Hs1).
  { destruct (has_flags file_flags.Create flags0); [|by eauto].
    destruct (w_issue (call_CreateDirectory (path req)) s)
      as [[r e] s1] eqn:Ei.
    eapply w_issue_ordered in Ei; eauto. }
  destruct (w_issue (call_GetFileAttributes (path req)) s1)
    as [[attr e] s2] eqn:Ei.
  eapply w_issue_ordered in Ei; [|done].
  destruct (negb (INVALID_FILE_ATTRIBUTES =? attr) && _); [done|].
  destruct (has_flags file_flags.Read flags1).
  - by apply windows_dofile_ordered.
  - by apply w_dummy_handle_ordered.
Qed.

Lemma windows_dormdir_ordered _id hp req (s : wsystem) :
  w_heap_ordered s -> w_heap_ordered (snd (windows_dormdir _id hp req s)).
Proof.
  intros Hs. unfold windows_dormdir.
  destruct (w_issue _ s) as [[r e] s1] eqn:Ei.
  eapply w_issue_ordered in Ei; [|done].
  destruct (ERRHWINFN r e (path req)) as [[]| | |]; try done.
  by apply w_dummy_handle_ordered.
Qed.

Lemma windows_dormfile_ordered _id hp req (s : wsystem) :
  w_heap_ordered s -> w_heap_ordered (snd (windows_dormfile _id hp req s)).
Proof.
  intros Hs. unfold windows_dormfile.
  destruct (w_issue _ s) as [[r e] s1] eqn:Ei.
  eapply w_issue_ordered in Ei; [|done].
  destruct (ERRHWINFN r e (path req)) as [[]| | |]; try done.
  by apply w_dummy_handle_ordered.
Qed.

Lemma w_deref_Some hp (s : wsystem) a hd :
  w_deref hp s = Some (a, hd) -> hp = Some a /\ w_heap s !! a = Some hd.
Proof.
  unfold w_deref. destruct hp as [a'|]; [|done].
  destruct (w_heap s !! a') eqn:E; [|done]. by intros [= <- <-].
Qed.

Lemma windows_dosync_ordered _id hp op (s : wsystem) :
  w_heap_ordered s -> w_heap_ordered (snd (windows_dosync _id hp op s)).
Proof.
  intros Hs. unfold windows_dosync.
  destruct (w_deref hp s) as [[a hd]|] eqn:Ed; [|done].
  apply w_deref_Some in Ed as [-> Ha].
  assert (w_counters_ordered hd) as Hhd by (by eapply Forall_lookup_1 in Ha).
  destruct (negb (to_size_t (w_write_count_since_fsync hd) =? 0)).
  - destruct (w_h hd) as [handle|]; [|done].
    destruct (w_issue _ s) as [[r e] s1] eqn:Ei.
    eapply w_issue_ordered in Ei; [|done].
    destruct (ERRHWINFN r e (w_path hd)) as [[]| | |]; try done.
    unfold w_heap_ordered. cbn. apply Forall_insert; [done|].
    by apply w_set_synced_ordered.
  - unfold w_heap_ordered. cbn. apply Forall_insert; [done|].
    by apply w_set_synced_ordered.
Qed.

Lemma windows_doclose_ordered _id hp op (s : wsystem) :
  w_heap_ordered s -> w_heap_ordered (snd (windows_doclose _id hp op s)).
Proof.
  intros Hs. unfold windows_doclose.
  destruct (w_deref hp s) as [[a hd]|] eqn:Ed; [|done].
  apply w_deref_Some in Ed as [-> Ha].
  assert (w_counters_ordered hd) as Hhd by (by eapply Forall_lookup_1 in Ha).
  destruct (w_h hd) as [handle|]; [|done].
  assert (exists flushed s1,
    (if w_autoflush hd && negb (w_write_count_since_fsync hd =? 0) then
       let '(ret, err, s1) := w_issue (call_FlushFileBuffers handle) s in
       (ERRHWINFN ret err (w_path hd), s1)
     else (Returns tt, s)) = (flushed, s1) /\ w_heap_ordered s1)
    as (flushed & s1 & -> & Hs1).
  { destruct (w_autoflush hd && _); [|by eauto].
    destruct (w_issue _ s) as [[r e] s1] eqn:Ei.
    eapply w_issue_ordered in Ei; eauto. }
  destruct flushed as [[]| | |]; try done.
  destruct (w_issue _ s1) as [[r e] s2] eqn:Ei.
  eapply w_issue_ordered in Ei; [|done].
  destruct (ERRHWINFN r e (w_path hd)) as [[]| | |]; try done.
  unfold w_heap_ordered. cbn. apply Forall_insert; [done|]. exact Hhd.
Qed.

Lemma windows_doread_ordered _id hp req (s : wsystem) :
  w_heap_ordered s -> w_heap_ordered (snd (windows_doread _id hp req s)).
Proof.
  intros Hs. unfold windows_doread.
  destruct (w_deref hp s) as [[a [? ? ? [handle|] ? ? ?]]|]; try done.
  destruct (w_issue _ s) as [[r e] s1] eqn:Ei.
  by eapply w_issue_ordered in Ei.
Qed.

Lemma windows_dowrite_ordered _id hp req (s : wsystem) :
  w_heap_ordered s -> w_heap_ordered (snd (windows_dowrite _id hp req s)).
Proof.
  intros Hs. unfold windows_dowrite.
  destruct (w_deref hp s) as [[a [? ? ? [handle|] ? ? ?]]|]; try done.
  destruct (w_issue _ s) as [[r e] s1] eqn:Ei.
  by eapply w_issue_ordered in Ei.
Qed.

Lemma windows_routine_ordered _id hp f (s : wsystem) :
  w_heap_ordered s -> w_heap_ordered (snd (windows_routine _id hp f s)).
Proof.
  intros Hs. destruct f; cbn [windows_routine];
    auto using windows_dodir_ordered, windows_dormdir_ordered,
      windows_dofile_ordered, windows_dormfile_ordered,
      windows_dosync_ordered, windows_doclose_ordered,
      windows_doread_ordered, windows_dowrite_ordered.
Qed.

Lemma windows_run_ordered ts (s : wsystem) :
  w_heap_ordered s -> w_heap_ordered (windows_run ts s).
Proof.
  revert s. induction ts as [|t ts IH]; intros s Hs; [done|].
  cbn. apply IH. by apply windows_routine_ordered.
Qed.

End windows_facts.

(** *** Sync *)

Lemma flushes_same {OS : posix} (s s' : system) :
  issued s' = issued s -> flushes s s' = [].
Proof. intros E. unfold flushes. rewrite E. by rewrite drop_all. Qed.

Lemma flushes_one {OS : posix} (s s' : system) d :
  issued s' = issued s ++ [call_fsync d] -> flushes s s' = [call_fsync d].
Proof. intros E. unfold flushes. rewrite E. by rewrite drop_app_length. Qed.

Lemma w_flushes_same {W : win32} (s s' : wsystem) :
  w_issued s' = w_issued s -> w_flushes s s' = [].
Proof. intros E. unfold w_flushes. rewrite E. by rewrite drop_all. Qed.

Lemma w_flushes_one {W : win32} (s s' : wsystem) d :
  w_issued s' = w_issued s ++ [call_FlushFileBuffers d] ->
  w_flushes s s' = [call_FlushFileBuffers d].
Proof. intros E. unfold w_flushes. rewrite E. by rewrite drop_app_length. Qed.

Lemma posix_dosync_clean {OS : posix} _id op (s : system) a hd :
  heap s !! a = Some hd ->
  byteswritten hd = byteswrittenatlastfsync hd ->
  posix_dosync _id (Some a) op s
  = (Returns (true, Some a),
     with_heap (<[a := set_synced 0 hd]> (heap s)) s).
Proof.
  intros Ha Heq. unfold posix_dosync, deref. rewrite Ha.
  unfold write_count_since_fsync. rewrite Heq, Z.sub_diag. reflexivity.
Qed.

Lemma posix_dosync_dirty {OS : posix} _id op (s : system) a hd :
  heap s !! a = Some hd ->
  0 < byteswritten hd - byteswrittenatlastfsync hd <= SIZE_MAX ->
  issued (snd (posix_dosync _id (Some a) op s))
  = issued s ++ [call_fsync (fd hd)].
Proof.
  intros Ha Hd. unfold posix_dosync, deref. rewrite Ha.
  unfold write_count_since_fsync. rewrite to_size_t_small by lia.
  destruct (_ =? 0) eqn:E; [apply Z.eqb_eq in E; lia|]. cbn [negb].
  destruct (issue _ s) as [[r e] s1] eqn:Ei.
  apply issue_spec in Ei as (_ & _ & Hi).
  by destruct (ERRHOSFN r e (handle_path hd)) as [[]| | |].
Qed.

Lemma windows_dosync_clean {W : win32} _id op (s : wsystem) a hd :
  w_heap s !! a = Some hd ->
  w_byteswritten hd = w_byteswrittenatlastfsync hd ->
  windows_dosync _id (Some a) op s
  = (Returns (true, Some a),
     w_with_heap (<[a := w_set_synced 0 hd]> (w_heap s)) s).
Proof.
  intros Ha Heq. unfold windows_dosync, w_deref. rewrite Ha.
  unfold w_write_count_since_fsync. rewrite Heq, Z.sub_diag. reflexivity.
Qed.

Lemma windows_dosync_dirty {W : win32} _id op (s : wsystem) a hd handle :
  w_heap s !! a = Some hd ->
  w_h hd = Some handle ->
  0 < w_byteswritten hd - w_byteswrittenatlastfsync hd <= SIZE_MAX ->
  w_issued (snd (windows_dosync _id (Some a) op s))
  = w_issued s ++ [call_FlushFileBuffers handle].
Proof.
  intros Ha Hh Hd. unfold windows_dosync, w_deref. rewrite Ha.
  unfold w_write_count_since_fsync. rewrite to_size_t_small by lia.
  destruct (_ =? 0) eqn:E; [apply Z.eqb_eq in E; lia|]. cbn [negb].
  rewrite Hh.
  destruct (w_issue _ s) as [[r e] s1] eqn:Ei.
  apply w_issue_spec in Ei as (_ & _ & Hi).
  by destruct (ERRHWINFN r e (w_path hd)) as [[]| | |].
Qed.

(** C7.  A sync on a handle with no bytes written since the last fsync
    ([byteswritten] equal to [byteswrittenatlastfsync]) returns "done"
    with the handle, issues no call at all - so no [fsync], and no
    [FlushFileBuffers] on Windows - and leaves [byteswrittenatlastfsync]
    as it was: the dispatcher, the kernel and every other handle are
    untouched.  A flush issued by a sync means the two counters differ,
    and, the counters being ordered, that [byteswritten] exceeds
    [byteswrittenatlastfsync]; such a sync does flush (the difference
    fitting [size_t]). *)
Theorem sync_flushes_only_after_writes {OS : posix} {W : win32}
    (_id : Z) (op : async_io_op)
    (s : system) (a : nat) (hd : async_io_handle_posix)
    (ws : wsystem) (wa : nat) (whd : async_io_handle_windows) :
  heap s !! a = Some hd ->
  w_heap ws !! wa = Some whd ->
  (byteswritten hd = byteswrittenatlastfsync hd ->
     posix_dosync _id (Some a) op s
     = (Returns (true, Some a),
        with_heap (<[a := set_synced 0 hd]> (heap s)) s) /\
     byteswrittenatlastfsync (set_synced 0 hd) = byteswrittenatlastfsync hd /\
     flushes s (snd (posix_dosync _id (Some a) op s)) = []) /\
  (flushes s (snd (posix_dosync _id (Some a) op s)) <> [] ->
     byteswritten hd <> byteswrittenatlastfsync hd /\
     (counters_ordered hd -> byteswrittenatlastfsync hd < byteswritten hd)) /\
  (0 < byteswritten hd - byteswrittenatlastfsync hd <= SIZE_MAX ->
     flushes s (snd (posix_dosync _id (Some a) op s)) = [call_fsync (fd hd)]) /\
  (w_byteswritten whd = w_byteswrittenatlastfsync whd ->
     windows_dosync _id (Some wa) op ws
     = (Returns (true, Some wa),
        w_with_heap (<[wa := w_set_synced 0 whd]> (w_heap ws)) ws) /\
     w_byteswrittenatlastfsync (w_set_synced 0 whd)
     = w_byteswrittenatlastfsync whd /\
     w_flushes ws (snd (windows_dosync _id (Some wa) op ws)) = []) /\
  (w_flushes ws (snd (windows_dosync _id (Some wa) op ws)) <> [] ->
     w_byteswritten whd <> w_byteswrittenatlastfsync whd /\
     (w_counters_ordered whd ->
      w_byteswrittenatlastfsync whd < w_byteswritten whd)) /\
  (forall handle, w_h whd = Some handle ->
     0 < w_byteswritten whd - w_byteswrittenatlastfsync whd <= SIZE_MAX ->
     w_flushes ws (snd (windows_dosync _id (Some wa) op ws))
     = [call_FlushFileBuffers handle]).
Proof.
  intros Ha Hwa.
  assert (byteswritten hd = byteswrittenatlastfsync hd ->
          flushes s (snd (posix_dosync _id (Some a) op s)) = []) as Hclean.
  { intros Heq. rewrite (posix_dosync_clean _ _ _ _ _ Ha Heq).
    by apply flushes_same. }
  assert (w_byteswritten whd = w_byteswrittenatlastfsync whd ->
          w_flushes ws (snd (windows_dosync _id (Some wa) op ws)) = [])
    as Hwclean.
  { intros Heq. rewrite (windows_dosync_clean _ _ _ _ _ Hwa Heq).
    by apply w_flushes_same. }
  repeat apply conj.
  - intros Heq. repeat split; [by apply posix_dosync_clean| |by apply Hclean].
    cbn. rewrite to_long_zero by apply long_bits_pos. lia.
  - intros Hfl.
    assert (byteswritten hd <> byteswrittenatlastfsync hd) as Hne
      by (intros Heq; by apply Hfl, Hclean).
    split; [done|]. unfold counters_ordered. lia.
  - intros Hd. apply flushes_one. by apply posix_dosync_dirty.
  - intros Heq. repeat split; [by apply windows_dosync_clean| |by apply Hwclean].
    cbn. rewrite to_long_zero by lia. lia.
  - intros Hfl.
    assert (w_byteswritten whd <> w_byteswrittenatlastfsync whd) as Hne
      by (intros Heq; by apply Hfl, Hwclean).
    split; [done|]. unfold w_counters_ordered. lia.
  - intros handle Hh Hd. apply w_flushes_one.
    by apply (windows_dosync_dirty _ _ _ _ whd).
Qed.

(** The handle of "/t/a", synced, is synced again on both hosts: nothing
    is issued. *)
Lemma sync_flushes_only_after_writes_witness :
  @flushes toy_posix synced
     (snd (@posix_dosync toy_posix 2 (Some 0%nat)
             {| id := 1; h := task_future 1 |} synced)) = [] /\
  @w_flushes toy_win32 w_synced
     (snd (@windows_dosync toy_win32 2 (Some 0%nat)
             {| id := 1; h := task_future 1 |} w_synced)) = [].
Proof.
  destruct (@sync_flushes_only_after_writes toy_posix toy_win32 2
              {| id := 1; h := task_future 1 |}
              synced 0%nat synced_handle w_synced 0%nat w_synced_handle
              eq_refl eq_refl)
    as (Hp & _ & _ & Hw & _ & _).
  split.
  - apply (Hp eq_refl).
  - apply (Hw eq_refl).
Defined.

(** *** The two counters *)

(** C8.  [byteswrittenatlastfsync <= byteswritten] holds of a handle
    when it is made, and every routine of the two backends - dir, rmdir,
    file, rmfile, sync, close, read and write, whatever it returns or
    throws - keeps it of every handle alive; so it holds after any tasks
    run one after the other. *)
Theorem counters_stay_ordered {OS : posix} {W : win32}
    (s : system) (ws : wsystem) :
  heap_ordered s ->
  w_heap_ordered ws ->
  (forall _id hp f, heap_ordered (snd (posix_routine _id hp f s))) /\
  (forall _id hp f, w_heap_ordered (snd (windows_routine _id hp f ws))) /\
  (forall ts, heap_ordered (posix_run ts s)) /\
  (forall ts, w_heap_ordered (windows_run ts ws)).
Proof.
  intros Hs Hws. repeat apply conj; intros.
  - by apply posix_routine_ordered.
  - by apply windows_routine_ordered.
  - by apply posix_run_ordered.
  - by apply windows_run_ordered.
Qed.

(** The handle with two bytes to sync is synced, and the Windows handle
    is synced and closed. *)
Lemma counters_stay_ordered_witness :
  @heap_ordered toy_posix
    (snd (@posix_routine toy_posix 2 (Some 0%nat)
            (dosync {| id := 1; h := task_future 1 |}) dirty)) /\
  @w_heap_ordered toy_win32
    (@windows_run toy_win32
       [ (2, dosync {| id := 1; h := task_future 1 |}, Some 0%nat);
         (3, doclose {| id := 2; h := task_future 2 |}, Some 0%nat) ]
       w_synced).
Proof.
  destruct (@counters_stay_ordered toy_posix toy_win32 dirty w_synced)
    as (Hp & _ & _ & Hw).
  - constructor; [|constructor]. unfold counters_ordered. simpl. lia.
  - constructor; [|constructor]. unfold w_counters_ordered. simpl. lia.
  - split; [apply Hp|apply Hw].
Defined.

(** The sync of the handle with two bytes to sync: one [fsync] of the
    descriptor 3, and the counter moves from 5 to 7. *)
Lemma posix_dosync_dirty_run :
  @posix_dosync toy_posix 2 (Some 0%nat) {| id := 1; h := task_future 1 |} dirty
  = (Returns (true, Some 0%nat),
     @Build_system toy_posix (new_dispatcher 0 0)
       {| dirs := ["/t"%string]; files := ["/t/a"%string]; open_fds := [3] |}
       [call_fsync 3]
       [ {| handle_path := "/t/a"; byteswritten := 7;
            byteswrittenatlastfsync := 7; fd := 3; has_been_added := true;
            autoflush := false; has_ever_been_fsynced := true |} ]).
Proof. vm_compute. reflexivity. Qed.

(** *** The result of [mkdir] in [dodir] *)

(** Whatever [mkdir] returns, a [dodir] asked to create and not to read
    returns "done" with a new handle, unless [stat] finds something that
    is not a directory: no error of [mkdir] reaches the caller. *)
Lemma posix_dodir_create_outcome {OS : posix} _id hp req (s : system) :
  has_flags file_flags.Create (fileflags (this s) (flags req)) = true ->
  has_flags file_flags.Read
    (Z.land (fileflags (this s) (flags req))
       (Z.lnot (Z.lor file_flags.Create file_flags.CreateOnlyIfNotExist)))
    = false ->
  fst (posix_dodir _id hp req s) = Returns (true, Some (length (heap s))) \/
  fst (posix_dodir _id hp req s) = Throws (runtime_error "Not a directory").
Proof.
  intros Hc Hr. unfold posix_dodir. rewrite Hc.
  destruct (issue (call_mkdir (path req) 504) s) as [[r e] s1] eqn:E1.
  apply issue_spec in E1 as (Hh1 & _ & _).
  destruct (issue (call_stat (path req)) s1) as [[r2 e2] s2] eqn:E2.
  apply issue_spec in E2 as (Hh2 & _ & _).
  destruct ((r2 =? 0) && _); [by right|]. left.
  rewrite Hr. unfold new_handle. cbn. by rewrite Hh2, Hh1.
Qed.

Lemma windows_dodir_create_outcome {W : win32} _id hp req (s : wsystem) :
  has_flags file_flags.Create (fileflags (w_this s) (flags req)) = true ->
  has_flags file_flags.Read
    (Z.land (fileflags (w_this s) (flags req))
       (Z.lnot (Z.lor file_flags.Create file_flags.CreateOnlyIfNotExist)))
    = false ->
  fst (windows_dodir _id hp req s) = Returns (true, Some (length (w_heap s))) \/
  fst (windows_dodir _id hp req s) = Throws (runtime_error "Not a directory").
Proof.
  intros Hc Hr. unfold windows_dodir. rewrite Hc.
  destruct (w_issue (call_CreateDirectory (path req)) s)
    as [[r e] s1] eqn:E1.
  apply w_issue_spec in E1 as (Hh1 & _ & _).
  destruct (w_issue (call_GetFileAttributes (path req)) s1)
    as [[r2 e2] s2] eqn:E2.
  apply w_issue_spec in E2 as (Hh2 & _ & _).
  destruct (negb _ && _); [by right|]. left.
  rewrite Hr. unfold w_dummy_handle. cbn. by rewrite Hh2, Hh1.
Qed.

End async_io_facts.

(** ** async_file_io.cpp: more of the dispatcher *)

Module dispatcher_facts.
Import async_io async_io_facts.

(** *** fileflags *)

Lemma fileflags_testbit p f n :
  0 <= n ->
  Z.testbit (fileflags p f) n
  = (Z.testbit f n && negb (Z.testbit (flagsmask p) n))
    || Z.testbit (flagsforce p) n.
Proof.
  intros Hn. unfold fileflags.
  by rewrite Z.lor_spec, Z.land_spec, Z.lnot_spec.
Qed.

(** X1.  [fileflags] gives every flag the dispatcher forces, whatever
    was asked for and whatever is masked; it gives no masked flag that
    is not forced; and applying it again changes nothing, so the flags
    [dodir] hands to [dofile], which applies it a second time, are the
    ones [dodir] worked with. *)
Theorem fileflags_forces_masks_and_settles p f :
  has_flags (flagsforce p) (fileflags p f) = true /\
  Z.land (fileflags p f) (Z.land (flagsmask p) (Z.lnot (flagsforce p))) = 0 /\
  fileflags p (fileflags p f) = fileflags p f.
Proof.
  repeat split.
  - unfold has_flags. apply Z.eqb_eq. apply Z.bits_inj'. intros n Hn.
    rewrite Z.land_spec, fileflags_testbit by done.
    destruct (Z.testbit f n), (Z.testbit (flagsmask p) n),
      (Z.testbit (flagsforce p) n); reflexivity.
  - apply Z.bits_inj'. intros n Hn.
    rewrite !Z.land_spec, Z.lnot_spec, fileflags_testbit, Z.bits_0 by done.
    destruct (Z.testbit f n), (Z.testbit (flagsmask p) n),
      (Z.testbit (flagsforce p) n); reflexivity.
  - apply Z.bits_inj'. intros n Hn.
    rewrite !fileflags_testbit by done.
    destruct (Z.testbit f n), (Z.testbit (flagsmask p) n),
      (Z.testbit (flagsforce p) n); reflexivity.
Qed.

(** *** The order in which completions are dispatched *)

(** A call that returns, made on a precondition in flight in a
    well-formed state: the new operation is the last of the list of the
    precondition, nothing is queued, and the state stays well formed. *)
Lemma chain_on_in_flight_appends b flt ot pre det f c ref p' cs :
  well_formed c ->
  monotoniccount (disp c) < SIZE_MAX ->
  id pre <> 0 -> waiting (disp c) (id pre) = Some cs ->
  chain_async_op b flt ot pre det f (disp c) = (Returns ref, p') ->
  id ref = monotoniccount (disp c) + 1 /\
  h ref = no_state /\
  monotoniccount p' = monotoniccount (disp c) + 1 /\
  pool p' = pool (disp c) /\
  waiting p' (id pre) = Some (cs ++ [(id ref, f)]) /\
  well_formed {| disp := p'; deferred := deferred c |}.
Proof.
  intros Hwf Hlt Hid Hcs Hrun.
  pose proof (wf_count _ Hwf) as Hc.
  assert (in_flight pre (disp c) = true) as Hfl.
  { apply in_flight_waiting. split; [done|]. by rewrite Hcs. }
  pose proof (chain_async_op_well_formed _ _ _ _ _ _ _ _ _ Hwf Hlt Hrun) as Hwf'.
  pose proof (well_formed_fresh _ Hwf) as Hfresh.
  apply chain_async_op_spec in Hrun as (Hm & _ & Hcase); [|lia|done].
  destruct Hcase as [(h0 & [= ->] & Hin & _ & Hw)|[Hno _]]; [|done].
  destruct (Hin Hfl) as [-> Hpool]. cbn [id h].
  do 4 (split; [done|]). split; [|done].
  rewrite Hw. unfold waiting_after.
  destruct (decide (id pre = monotoniccount (disp c) + 1)) as [Heq|_].
  { rewrite Heq, Hfresh in Hcs. done. }
  rewrite Hfl, bool_decide_eq_true_2 by done. cbn. by rewrite Hcs.
Qed.

(** X2.  Two operations chained, one after the other, on a precondition
    that is in flight are handed to the pool when the precondition
    completes, behind the completions it already had and in the order
    they were chained, each bound to the handle the precondition
    completed with - whether it completed with a result or with an
    exception. *)
Theorem completions_run_in_chaining_order b c flt1 flt2 ot1 ot2 det1 det2
    pre f1 f2 ref1 p1 ref2 p2 hp e cs :
  well_formed c ->
  monotoniccount (disp c) + 1 < SIZE_MAX ->
  id pre <> 0 -> waiting (disp c) (id pre) = Some cs ->
  chain_async_op b flt1 ot1 pre det1 f1 (disp c) = (Returns ref1, p1) ->
  chain_async_op b flt2 ot2 pre det2 f2 p1 = (Returns ref2, p2) ->
  exists p3,
    complete_async_op (id pre) hp e p2 = (Returns tt, p3) /\
    pool p3 = pool (disp c) ++ ((fun c => (c, hp)) <$> cs)
              ++ [((id ref1, f1), hp); ((id ref2, f2), hp)] /\
    id ref1 < id ref2.
Proof.
  intros Hwf Hlt Hid Hcs Hrun1 Hrun2.
  destruct (chain_on_in_flight_appends _ _ _ _ _ _ _ _ _ _ Hwf ltac:(lia)
              Hid Hcs Hrun1) as (Hid1 & _ & Hm1 & Hpool1 & Hw1 & Hwf1).
  destruct (chain_on_in_flight_appends b flt2 ot2 pre det2 f2
              {| disp := p1; deferred := deferred c |} ref2 p2 _ Hwf1
              ltac:(cbn; lia) Hid Hw1 Hrun2)
    as (Hid2 & _ & Hm2 & Hpool2 & Hw2 & Hwf2).
  cbn [disp deferred] in *.
  destruct (complete_async_op_spec (id pre) hp e p2 _ Hw2) as (p3 & Hrun3 & Hpool3 & _).
  { intros x Hx. eapply (wf_waiting _ Hwf2); [exact Hw2|].
    apply list_elem_of_fmap. by exists x. }
  exists p3. split; [done|]. split; [|lia].
  rewrite Hpool3, Hpool2, Hpool1, !fmap_app, <- !app_assoc. reflexivity.
Qed.

Lemma file_queued_well_formed :
  well_formed {| disp := file_queued; deferred := ∅ |}.
Proof.
  apply (chain_async_op_well_formed toy_build no_fault OpType.file
           (precondition file_req) false (dofile file_req)
           {| disp := new_dispatcher 0 0; deferred := ∅ |}
           (fst (chain_async_op toy_build no_fault OpType.file
                   (precondition file_req) false (dofile file_req)
                   (new_dispatcher 0 0)))
           file_queued).
  - apply new_dispatcher_well_formed.
  - reflexivity.
  - reflexivity.
Qed.

(** A sync and a close chained on the open of the file while it is
    queued: when the open completes with the handle 0 they are queued,
    the sync first. *)
Lemma completions_run_in_chaining_order_witness :
  exists p3,
    complete_async_op 1 (Some 0%nat) None
      (snd (chain_async_op toy_build no_fault OpType.close file_ref false
              (doclose file_ref)
              (snd (chain_async_op toy_build no_fault OpType.sync file_ref
                      false (dosync file_ref) file_queued))))
    = (Returns tt, p3) /\
    pool p3 = pool file_queued ++ []
              ++ [((2, dosync file_ref), Some 0%nat);
                  ((3, doclose file_ref), Some 0%nat)] /\
    2 < 3.
Proof.
  apply (completions_run_in_chaining_order toy_build
           {| disp := file_queued; deferred := ∅ |}
           no_fault no_fault OpType.sync OpType.close false false
           file_ref (dosync file_ref) (doclose file_ref)
           {| id := 2; h := no_state |}
           (snd (chain_async_op toy_build no_fault OpType.sync file_ref
                   false (dosync file_ref) file_queued))
           {| id := 3; h := no_state |}
           (snd (chain_async_op toy_build no_fault OpType.close file_ref false
                   (doclose file_ref)
                   (snd (chain_async_op toy_build no_fault OpType.sync file_ref
                           false (dosync file_ref) file_queued))))
           (Some 0%nat) None []).
  - apply file_queued_well_formed.
  - vm_compute. reflexivity.
  - vm_compute. discriminate.
  - vm_compute. reflexivity.
  - vm_compute. reflexivity.
  - vm_compute. reflexivity.
Defined.

(** *** A routine that throws *)

(** X3.  When the routine of an operation throws, the wrapper still
    completes the operation: its completions are handed to the pool -
    bound to the handle the failed operation was given, not to a result -
    the operation leaves the registry, and the future of its task holds
    the exception.  When the routine returns "done" with a handle, the
    completions are bound to that handle. *)
Theorem completions_run_after_a_failure b n x f hp p cs :
  pool p !! n = Some ((x, f), hp) ->
  waiting p x = Some cs ->
  (forall c, c ∈ cs -> is_Some (waiting p (fst c))) ->
  (forall e, exists p',
     run_task b n (threw e) p = Some (Throws e, p') /\
     pool p' = delete n (pool p) ++ ((fun c => (c, hp)) <$> cs) /\
     ops p' !! x = None /\
     get p' (task_future x) = Throws e) /\
  (forall hp', exists p',
     run_task b n (returned true hp') p = Some (Returns hp', p') /\
     pool p' = delete n (pool p) ++ ((fun c => (c, hp')) <$> cs) /\
     ops p' !! x = None /\
     get p' (task_future x) = Returns hp').
Proof.
  intros Hn Hx Hreg.
  assert (forall h0 e0, exists p1,
            complete_async_op x h0 e0 (with_pool (delete n (pool p)) p)
            = (Returns tt, p1) /\
            pool p1 = delete n (pool p) ++ ((fun c => (c, h0)) <$> cs) /\
            ops p1 !! x = None) as Hdone.
  { intros h0 e0.
    destruct (complete_async_op_spec x h0 e0
                (with_pool (delete n (pool p)) p) cs Hx Hreg)
      as (p1 & Hrun & Hpool & Hgone & _).
    exists p1. done. }
  split.
  - intros e. destruct (Hdone hp (Some e)) as (p1 & Hrun & Hpool & Hgone).
    eexists. unfold run_task. rewrite Hn. cbn [fst].
    unfold invoke_async_op_completions, on_exception. rewrite Hrun.
    split; [reflexivity|]. cbn. split; [done|]. split; [done|].
    by rewrite lookup_insert_eq.
  - intros hp'. destruct (Hdone hp' None) as (p1 & Hrun & Hpool & Hgone).
    eexists. unfold run_task. rewrite Hn. cbn [fst].
    unfold invoke_async_op_completions. rewrite Hrun.
    split; [reflexivity|]. cbn. split; [done|]. split; [done|].
    by rewrite lookup_insert_eq.
Qed.

(** The open of the file throws while a sync waits for it: the sync is
    queued with the null handle the open was given. *)
Lemma completions_run_after_a_failure_witness :
  exists p',
    run_task toy_build 0 (threw (os_error 13 "/t/a"))
      (snd (chain_async_op toy_build no_fault OpType.sync file_ref false
              (dosync file_ref) file_queued))
    = Some (Throws (os_error 13 "/t/a"), p') /\
    pool p' = [((2, dosync file_ref), None)] /\
    ops p' !! 1 = None /\
    get p' (task_future 1) = Throws (os_error 13 "/t/a").
Proof.
  apply (proj1 (completions_run_after_a_failure toy_build 0 1
                  (dofile file_req) None
                  (snd (chain_async_op toy_build no_fault OpType.sync file_ref
                          false (dosync file_ref) file_queued))
                  [(2, dosync file_ref)] eq_refl eq_refl
                  ltac:(intros c ->%list_elem_of_singleton;
                        vm_compute; eauto))).
Defined.

(** *** An operation and its precondition *)

(** X4.  An operation chained on a precondition that is in flight does
    not start before the precondition has completed: in every state the
    dispatcher can reach, while the precondition is registered the
    operation is registered too and is neither queued nor deferred; and
    if the operation has completed, so has the precondition. *)
Theorem chained_operation_waits_for_its_precondition b c flt ot pre det f
    ref p' c' :
  well_formed c ->
  monotoniccount (disp c) < SIZE_MAX ->
  in_flight pre (disp c) = true ->
  chain_async_op b flt ot pre det f (disp c) = (Returns ref, p') ->
  reachable b {| disp := p'; deferred := deferred c |} c' ->
  (is_Some (ops (disp c') !! id pre) ->
   is_Some (ops (disp c') !! id ref) /\
   (id ref ∉ pool_ids (disp c')) /\ (id ref ∉ deferred c')) /\
  (completed (id ref) (disp c') -> completed (id pre) (disp c')).
Proof.
  intros Hwf Hlt Hfl Hrun Hreach.
  pose proof (chain_async_op_well_formed _ _ _ _ _ _ _ _ _ Hwf Hlt Hrun) as Hwf1.
  pose proof (reachable_well_formed _ _ _ Hwf1 Hreach) as Hwf'.
  destruct (chain_async_op_returned _ _ _ _ _ _ _ _ _ Hwf Hlt Hrun)
    as (Hid & _ & _ & Hin & _).
  destruct (Hin Hfl) as [Hwaits _]. rewrite <- Hid in Hwaits.
  assert (held_back (id pre) (id ref) f (disp c')) as Hheld.
  { eapply (reachable_held_back _ _ _ _ _ _ Hwf1 Hreach). by left. }
  split.
  - intros Hpre. destruct Hheld as [Hw|[_ Hgone]].
    + by destruct (waits_on_registered _ _ _ _ Hwf' Hw) as (_ & ? & ? & ?).
    + rewrite Hgone in Hpre. by destruct Hpre.
  - by apply (held_back_order _ _ _ f).
Qed.

(** The sync chained on the queued open: while the open is in flight
    the sync is registered and is not in the queue. *)
Lemma chained_operation_waits_for_its_precondition_witness :
  is_Some (ops sync_chained !! 2) /\
  (2 ∉ pool_ids sync_chained) /\ (2 ∉ (∅ : gset Z)).
Proof.
  apply (proj1 (chained_operation_waits_for_its_precondition toy_build
           {| disp := file_queued; deferred := ∅ |} no_fault OpType.sync
           file_ref false (dosync file_ref) {| id := 2; h := no_state |}
           sync_chained {| disp := sync_chained; deferred := ∅ |}
           file_queued_well_formed eq_refl eq_refl eq_refl
           (rtc_refl _ _))).
  vm_compute. eauto.
Defined.

(** *** The invariant and the depth of the registry *)

(** X5.  The invariant of the dispatcher: in every state reachable from
    a new dispatcher - by calls of [chain_async_op] that return or throw,
    by workers running queued tasks, by deferred completions being
    reported - the counter is within [size_t], every registered, queued
    or deferred id was handed out by the counter, and an operation that
    waits on a completion list is registered, waits on that list only
    and is neither queued nor deferred. *)
Theorem reachable_states_are_well_formed b ff fm c :
  reachable b {| disp := new_dispatcher ff fm; deferred := ∅ |} c ->
  well_formed c.
Proof.
  apply reachable_well_formed, new_dispatcher_well_formed.
Qed.

Lemma reachable_states_are_well_formed_witness :
  well_formed {| disp := file_opened; deferred := ∅ |}.
Proof.
  apply (reachable_states_are_well_formed toy_build 0 0
           {| disp := file_opened; deferred := ∅ |} file_opened_reachable).
Defined.

Lemma depth_same p p' :
  (forall a, waiting p' a = waiting p a) ->
  wait_queue_depth p' = wait_queue_depth p.
Proof.
  intros Hw. unfold wait_queue_depth. rewrite <- !size_dom. f_equal.
  apply set_eq. intros a. rewrite !elem_of_dom, <- !waiting_is_Some.
  by rewrite Hw.
Qed.

Lemma depth_one_more p p' k :
  waiting p k = None -> is_Some (waiting p' k) ->
  (forall a, a <> k -> is_Some (waiting p' a) <-> is_Some (waiting p a)) ->
  wait_queue_depth p' = S (wait_queue_depth p).
Proof.
  intros Hk Hk' Hw. unfold wait_queue_depth. rewrite <- !size_dom.
  assert (dom (ops p') = {[ k ]} ∪ dom (ops p)) as ->.
  { apply set_eq. intros a.
    rewrite elem_of_union, elem_of_singleton, !elem_of_dom, <- !waiting_is_Some.
    destruct (decide (a = k)) as [Heq|Hne].
    - rewrite Heq. split; [by left|by intros _].
    - rewrite (Hw a Hne). split; [by right|by intros [?|?]]. }
  rewrite size_union, size_singleton; [done|].
  apply disjoint_singleton_l. rewrite elem_of_dom, <- waiting_is_Some, Hk.
  by intros [? ?].
Qed.

(** X6.  [wait_queue_depth] counts the operations in flight.  In a
    well-formed state, a call of [chain_async_op] that returns raises it
    by one and one that throws leaves it as it was; [complete_async_op]
    on a registered operation returns and lowers it by one, and on any
    other id throws and leaves it as it was. *)
Theorem wait_queue_depth_counts_operations_in_flight b c :
  well_formed c ->
  (forall flt ot pre det f r p',
     monotoniccount (disp c) < SIZE_MAX ->
     chain_async_op b flt ot pre det f (disp c) = (r, p') ->
     wait_queue_depth p'
     = if is_returns r then S (wait_queue_depth (disp c))
       else wait_queue_depth (disp c)) /\
  (forall x hp e out p',
     complete_async_op x hp e (disp c) = (out, p') ->
     if bool_decide (is_Some (ops (disp c) !! x))
     then out = Returns tt /\ wait_queue_depth (disp c) = S (wait_queue_depth p')
     else out = Throws (runtime_error not_found) /\ p' = disp c).
Proof.
  intros Hwf. split.
  - intros flt ot pre det f r p' Hlt Hrun.
    pose proof (wf_count _ Hwf) as Hc.
    pose proof (well_formed_fresh _ Hwf) as Hfresh.
    apply chain_async_op_spec in Hrun as (_ & _ & Hcase); [|lia|done].
    destruct Hcase as [(h0 & -> & _ & _ & Hw)|[Hno Hw]].
    + cbn. apply (depth_one_more _ _ (monotoniccount (disp c) + 1)).
      * done.
      * rewrite Hw. unfold waiting_after. by rewrite decide_True.
      * intros a Hne. rewrite Hw. unfold waiting_after.
        rewrite decide_False by done.
        destruct (in_flight pre (disp c) && bool_decide (a = id pre));
          [|done].
        by rewrite fmap_is_Some.
    + rewrite Hno. by apply depth_same.
  - intros x hp e out p' Hrun.
    apply complete_async_op_effect in Hrun.
    2:{ intros cs c0 Hcs Hc0. eapply (wf_waiting _ Hwf); [exact Hcs|].
        apply list_elem_of_fmap. by exists c0. }
    destruct Hrun as [(-> & Hx & Hgone & Heff)|(-> & Hx & ->)].
    + rewrite bool_decide_eq_true_2 by (by apply waiting_is_Some).
      split; [done|].
      destruct Heff as [cs hp0 _ _ _ Hw _| ->].
      * apply (depth_one_more _ _ x).
        -- by apply waiting_None.
        -- done.
        -- intros a Hne. by rewrite Hw.
      * apply waiting_is_Some in Hx. rewrite Hgone in Hx. by destruct Hx.
    + rewrite bool_decide_eq_false_2; [done|].
      apply waiting_None in Hx. rewrite Hx. by intros [? ?].
Qed.

(** While the open of the file is queued one operation is in flight;
    chaining the sync on it makes two. *)
Lemma wait_queue_depth_counts_operations_in_flight_witness :
  wait_queue_depth sync_chained = 2%nat.
Proof.
  apply (proj1 (wait_queue_depth_counts_operations_in_flight toy_build
                  {| disp := file_queued; deferred := ∅ |}
                  file_queued_well_formed)
           no_fault OpType.sync file_ref false (dosync file_ref)
           (Returns {| id := 2; h := no_state |}) sync_chained
           eq_refl eq_refl).
Defined.

(** *** What the rollback leaves behind *)

(** X7.  The rollback of [chain_async_op] does not take back the task.
    When the precondition is not in flight the routine is queued (line
    445) before the operation is registered (line 447); if the
    registration or the allocation of the promise then fails, the
    exception leaves the registry as it was, but the task stays in the
    queue.  When a worker runs it the routine does its work, and the
    wrapper, not finding the operation, ends with the runtime error
    "Failed to find this operation ..." whatever the routine returned
    or threw (a deferred completion on a build without assertions
    apart). *)
Theorem failed_registration_leaves_its_task_queued b flt ot pre det f p hp :
  0 <= monotoniccount p < SIZE_MAX ->
  ops p !! (monotoniccount p + 1) = None ->
  in_flight pre p = false ->
  bound_handle p pre = Returns hp ->
  flt = fault_insert \/ (flt = fault_promise /\ det = true) ->
  let k := monotoniccount p + 1 in
  exists p',
    chain_async_op b flt ot pre det f p = (Throws bad_alloc, p') /\
    ops p' = ops p /\
    pool p' = pool p ++ [((k, f), hp)] /\
    forall r, (forall hp', r <> returned false hp') ->
      exists p'',
        run_task b (length (pool p)) r p'
        = Some (Throws (runtime_error not_found), p'') /\
        ops p'' = ops p /\ pool p'' = pool p /\
        get p'' (task_future k) = Throws (runtime_error not_found).
Proof.
  intros Hc Hfresh Hfl Hh Hflt k.
  assert (exists p',
    chain_async_op b flt ot pre det f p = (Throws bad_alloc, p') /\
    ops p' = ops p /\ pool p' = pool p ++ [((k, f), hp)]) as (p' & Hrun & Hops & Hpool).
  { unfold chain_async_op. rewrite allocate_next by done. cbn [fst snd].
    replace (in_flight pre (with_monotoniccount (monotoniccount p + 1) p))
      with (in_flight pre p) by reflexivity.
    rewrite Hfl. unfold bind_and_enqueue.
    replace (bound_handle (with_monotoniccount (monotoniccount p + 1) p) pre)
      with (bound_handle p pre) by reflexivity.
    rewrite Hh. cbn [bind].
    destruct Hflt as [->|[-> ->]]; cbn [fault_eqb]; unfold register;
      cbn [fault_eqb id].
    - eexists. split; [reflexivity|]. done.
    - unfold insert_op. cbn [ops enqueue with_pool with_monotoniccount].
      rewrite bool_decide_eq_true_2 by done. cbn [negb andb].
      eexists. split; [reflexivity|]. cbn.
      split; [|done]. rewrite delete_insert_eq. by apply delete_id. }
  exists p'. do 3 (split; [done|]).
  intros r Hr.
  assert (pool p' !! length (pool p) = Some ((k, f), hp)) as Hn.
  { rewrite Hpool. by apply list_lookup_middle. }
  assert (delete (length (pool p)) (pool p') = pool p) as Hdel.
  { rewrite Hpool. clear. induction (pool p) as [|t q IH]; [done|].
    cbn. f_equal. exact IH. }
  assert (forall h0 e0,
    complete_async_op k h0 e0 (with_pool (pool p) p')
    = (Throws (runtime_error not_found), with_pool (pool p) p')) as Hcomp.
  { intros h0 e0. apply complete_async_op_absent. cbn. by rewrite Hops. }
  unfold run_task. rewrite Hn, Hdel. cbn [fst].
  destruct r as [[|] hp'|e0].
  - unfold invoke_async_op_completions, on_exception. rewrite !Hcomp.
    eexists. split; [reflexivity|]. cbn. rewrite lookup_insert_eq. done.
  - by destruct (Hr hp').
  - unfold invoke_async_op_completions, on_exception. rewrite !Hcomp.
    eexists. split; [reflexivity|]. cbn. rewrite lookup_insert_eq. done.
Qed.

(** The registration of the first operation of a new dispatcher fails:
    the registry stays empty and the open of the file is queued. *)
Lemma failed_registration_leaves_its_task_queued_witness :
  exists p',
    chain_async_op toy_build fault_insert OpType.file (precondition file_req)
      false (dofile file_req) (new_dispatcher 0 0)
    = (Throws bad_alloc, p') /\
    ops p' = ∅ /\
    pool p' = [((1, dofile file_req), None)].
Proof.
  destruct (failed_registration_leaves_its_task_queued toy_build fault_insert
              OpType.file (precondition file_req) false (dofile file_req)
              (new_dispatcher 0 0) None)
    as (p' & Hrun & Hops & Hpool & _).
  - vm_compute. split; [discriminate|reflexivity].
  - reflexivity.
  - reflexivity.
  - reflexivity.
  - by left.
  - exists p'. done.
Defined.

(** *** The future of a deferred operation *)

(** X8.  The reference [chain_async_op] returns for an operation set up
    with a detached promise carries the future of the pool task (line
    445), while the registry keeps the future of the promise (line 458).
    So when the routine returns "not done" - the completion is deferred,
    as for the reads and writes of the Windows backend - the future of
    the reference is ready with the handle at once, although the
    operation is still registered and its promise is not fulfilled. *)
Theorem deferred_reference_is_ready_before_completion b ot pre f p hp hp' :
  0 <= monotoniccount p < SIZE_MAX ->
  ops p !! (monotoniccount p + 1) = None ->
  promise_results p !! (monotoniccount p + 1) = None ->
  in_flight pre p = false ->
  bound_handle p pre = Returns hp ->
  let k := monotoniccount p + 1 in
  exists p' p'',
    chain_async_op b no_fault ot pre true f p
    = (Returns {| id := k; h := task_future k |}, p') /\
    ops p' !! k = Some {| optype := ot; op_h := promise_future k;
                          detached_promise := true; completions := [] |} /\
    run_task b (length (pool p)) (returned false hp') p'
    = Some (Returns hp', p'') /\
    get p'' (task_future k) = Returns hp' /\
    get p'' (promise_future k) = Blocks /\
    is_Some (ops p'' !! k).
Proof.
  intros Hc Hfresh Hprom Hfl Hh k.
  assert (exists p',
    chain_async_op b no_fault ot pre true f p
    = (Returns {| id := k; h := task_future k |}, p') /\
    ops p' !! k = Some {| optype := ot; op_h := promise_future k;
                          detached_promise := true; completions := [] |} /\
    pool p' = pool p ++ [((k, f), hp)] /\
    promise_results p' = promise_results p)
    as (p' & Hrun & Hk & Hpool & Hpr).
  { unfold chain_async_op. rewrite allocate_next by done. cbn [fst snd].
    replace (in_flight pre (with_monotoniccount (monotoniccount p + 1) p))
      with (in_flight pre p) by reflexivity.
    rewrite Hfl. unfold bind_and_enqueue.
    replace (bound_handle (with_monotoniccount (monotoniccount p + 1) p) pre)
      with (bound_handle p pre) by reflexivity.
    rewrite Hh. cbn [bind fault_eqb fst]. unfold register.
    cbn [fault_eqb id h]. unfold insert_op.
    cbn [ops enqueue with_pool with_monotoniccount].
    rewrite bool_decide_eq_true_2 by done. cbn [negb andb].
    eexists. split; [reflexivity|]. unfold attach_promise. cbn.
    split; [|done].
    by rewrite !lookup_alter_eq, lookup_insert_eq. }
  assert (pool p' !! length (pool p) = Some ((k, f), hp)) as Hn.
  { rewrite Hpool. by apply list_lookup_middle. }
  exists p'. eexists. split; [done|]. split; [done|].
  unfold run_task. rewrite Hn. cbn [fst].
  unfold invoke_async_op_completions.
  cbn [ops with_pool]. rewrite Hk. cbn [detached_promise].
  assert ((if ndebug b
           then (Returns hp',
                 with_pool (delete (length (pool p)) (pool p')) p')
           else (Returns hp',
                 with_pool (delete (length (pool p)) (pool p')) p'))
          = (Returns hp', with_pool (delete (length (pool p)) (pool p')) p'))
    as -> by (by destruct (ndebug b)).
  split; [reflexivity|]. cbn. fold k in Hprom.
  rewrite lookup_insert_eq, Hpr, Hprom, Hk. done.
Qed.

(** A read of the Windows backend on the file opened: the future of the
    reference 2 holds the handle as soon as the read has been started. *)
Lemma deferred_reference_is_ready_before_completion_witness :
  exists p' p'',
    chain_async_op toy_build no_fault OpType.read file_ref true
      (doread {| data_precondition := file_ref; buffers := [(0, 5)];
                 where_ := 0 |}) file_opened
    = (Returns {| id := 2; h := task_future 2 |}, p') /\
    run_task toy_build 0 (returned false (Some 0%nat)) p'
    = Some (Returns (Some 0%nat), p'') /\
    get p'' (task_future 2) = Returns (Some 0%nat) /\
    get p'' (promise_future 2) = Blocks /\
    is_Some (ops p'' !! 2).
Proof.
  destruct (deferred_reference_is_ready_before_completion toy_build
              OpType.read file_ref
              (doread {| data_precondition := file_ref; buffers := [(0, 5)];
                         where_ := 0 |})
              file_opened (Some 0%nat) (Some 0%nat))
    as (p' & p'' & Hrun & _ & Htask & Hready & Hwait & Hreg).
  - vm_compute. split; [discriminate|reflexivity].
  - reflexivity.
  - reflexivity.
  - reflexivity.
  - reflexivity.
  - exists p', p''. done.
Defined.

(** *** The detached promise *)

(** X9.  Completing an operation that has a detached promise fulfils
    the promise: with the handle when no exception is given, with the
    exception otherwise, so a reader of the future of the promise gets
    the handle or has the exception thrown at it.  Completing an
    operation without one touches no promise. *)
Theorem complete_async_op_fulfils_the_promise x hp e p it :
  ops p !! x = Some it ->
  (forall c, c ∈ completions it -> is_Some (ops p !! fst c)) ->
  exists p',
    complete_async_op x hp e p = (Returns tt, p') /\
    if detached_promise it
    then get p' (promise_future x)
         = match e with Some ex => Throws ex | None => Returns hp end
    else promise_results p' = promise_results p.
Proof.
  intros Hx Hreg.
  assert (exists p2,
    dispatch_completions x hp it p = (Returns tt, p2) /\
    detached_promise <$> ops p2 !! x = Some (detached_promise it) /\
    promise_results p2 = promise_results p) as (p2 & Hd & Hflag & Hpr).
  { unfold dispatch_completions. destruct (completions it) as [|c0 cs0] eqn:Hcs.
    - exists p. by rewrite Hx.
    - destruct (enqueue_completions_spec (c0 :: cs0) hp
                  (with_ops (<[x := clear_completions it]> (ops p)) p))
        as (p2 & Hrun & _ & _ & Hfl & Hpr & _).
      { intros c Hc. cbn. apply lookup_insert_is_Some'. right. by apply Hreg. }
      assert (detached_promise <$> ops p2 !! x = Some (detached_promise it))
        as Hflag.
      { rewrite Hfl. cbn. by rewrite lookup_insert_eq. }
      exists p2. rewrite Hrun.
      destruct (ops p2 !! x) eqn:E; [done|discriminate]. }
  unfold complete_async_op. rewrite Hx, Hd.
  eexists. split; [reflexivity|]. unfold fulfil.
  destruct (ops p2 !! x) as [it2|]; [|discriminate].
  injection Hflag as ->.
  destruct (detached_promise it); cbn.
  - rewrite lookup_insert_eq. by destruct e.
  - done.
Qed.

(** The read of the Windows backend, deferred, is completed by the
    handler with the handle 0. *)
Lemma complete_async_op_fulfils_the_promise_witness :
  exists p',
    complete_async_op 2 (Some 0%nat) None
      (snd (chain_async_op toy_build no_fault OpType.read file_ref true
              (doread {| data_precondition := file_ref; buffers := [(0, 5)];
                         where_ := 0 |}) file_opened))
    = (Returns tt, p') /\
    get p' (promise_future 2) = Returns (Some 0%nat).
Proof.
  apply (complete_async_op_fulfils_the_promise 2 (Some 0%nat) None
           (snd (chain_async_op toy_build no_fault OpType.read file_ref true
                   (doread {| data_precondition := file_ref;
                              buffers := [(0, 5)]; where_ := 0 |})
                   file_opened))
           {| optype := OpType.read; op_h := promise_future 2;
              detached_promise := true; completions := [] |}).
  - reflexivity.
  - intros c Hc. by apply elem_of_nil in Hc.
Defined.

(** *** A reference without a future *)

(** X10.  The reference returned for an operation chained on one that
    is in flight carries no future, and the handle of an operation is
    kept nowhere else.  So an operation chained on such a reference
    after its operation has completed is queued at once, bound to the
    null handle - whatever handle the operation completed with. *)
Theorem stale_reference_binds_the_null_handle b c flt ot pre det f ref p1 cs
    ot2 det2 f2 p2 :
  well_formed c ->
  monotoniccount (disp c) < SIZE_MAX ->
  id pre <> 0 -> waiting (disp c) (id pre) = Some cs ->
  chain_async_op b flt ot pre det f (disp c) = (Returns ref, p1) ->
  0 <= monotoniccount p2 < SIZE_MAX ->
  ops p2 !! (monotoniccount p2 + 1) = None ->
  ops p2 !! id ref = None ->
  exists ref2 p3,
    chain_async_op b no_fault ot2 ref det2 f2 p2 = (Returns ref2, p3) /\
    id ref2 = monotoniccount p2 + 1 /\
    pool p3 = pool p2 ++ [((id ref2, f2), None)].
Proof.
  intros Hwf Hlt Hid Hcs Hrun Hc2 Hfresh Hgone.
  destruct (chain_on_in_flight_appends _ _ _ _ _ _ _ _ _ _ Hwf Hlt Hid Hcs Hrun)
    as (_ & Hh & _).
  assert (in_flight ref p2 = false) as Hfl.
  { unfold in_flight. rewrite bool_decide_eq_false_2; [by rewrite andb_false_r|].
    rewrite Hgone. by intros [? ?]. }
  destruct (chain_async_op b no_fault ot2 ref det2 f2 p2) as [r p3] eqn:Hrun2.
  assert (exists hp, bound_handle p2 ref = Returns hp /\ hp = None)
    as (hp & Hb & ->).
  { unfold bound_handle. rewrite Hh. cbn. eauto. }
  assert (r = Returns {| id := monotoniccount p2 + 1;
                         h := task_future (monotoniccount p2 + 1) |} /\
          pool p3 = pool p2 ++ [((monotoniccount p2 + 1, f2), None)])
    as [-> Hpool].
  { revert Hrun2. unfold chain_async_op. rewrite allocate_next by done.
    cbn [fst snd].
    replace (in_flight ref (with_monotoniccount (monotoniccount p2 + 1) p2))
      with (in_flight ref p2) by reflexivity.
    rewrite Hfl. unfold bind_and_enqueue.
    replace (bound_handle (with_monotoniccount (monotoniccount p2 + 1) p2) ref)
      with (bound_handle p2 ref) by reflexivity.
    rewrite Hb. cbn [bind fault_eqb fst]. unfold register.
    cbn [fault_eqb id h]. unfold insert_op.
    cbn [ops enqueue with_pool with_monotoniccount].
    rewrite bool_decide_eq_true_2 by done. cbn [negb andb].
    destruct det2; intros [= <- <-]; done. }
  eexists _, p3. done.
Qed.

(** The sync chained on the queued open has completed: a close chained
    on its reference is queued with the null handle, although the sync
    completed with the handle 0. *)
Lemma stale_reference_binds_the_null_handle_witness :
  exists ref2 p3,
    chain_async_op toy_build no_fault OpType.close
      {| id := 2; h := no_state |} false
      (doclose {| id := 2; h := no_state |}) sync_completed
    = (Returns ref2, p3) /\
    id ref2 = monotoniccount sync_completed + 1 /\
    pool p3 = pool sync_completed
              ++ [((id ref2, doclose {| id := 2; h := no_state |}), None)].
Proof.
  apply (stale_reference_binds_the_null_handle toy_build
           {| disp := file_queued; deferred := ∅ |} no_fault OpType.sync
           file_ref false (dosync file_ref) {| id := 2; h := no_state |}
           sync_chained [] OpType.close false
           (doclose {| id := 2; h := no_state |}) sync_completed).
  - apply file_queued_well_formed.
  - vm_compute. reflexivity.
  - vm_compute. discriminate.
  - vm_compute. reflexivity.
  - vm_compute. reflexivity.
  - vm_compute. split; [discriminate|reflexivity].
  - vm_compute. reflexivity.
  - vm_compute. reflexivity.
Defined.

(** *** Closing on Linux *)

(** X11.  On a Linux build [close] reads the handle of its
    precondition through the future of the reference (line 819), after
    it has chained the close.  A reference returned for an operation
    chained on one in flight has no future, so closing such an
    operation while it is in flight throws [future_uninitialized] - and
    the close stays chained on it; no reference to it is returned. *)
Theorem linux_close_needs_a_future b heap c flt ot pre det f ref p1 cs :
  linux b = true ->
  well_formed c ->
  monotoniccount (disp c) + 1 < SIZE_MAX ->
  id pre <> 0 -> waiting (disp c) (id pre) = Some cs ->
  chain_async_op b flt ot pre det f (disp c) = (Returns ref, p1) ->
  exists p2,
    close_one b heap ref p1 = (Throws future_uninitialized, p2) /\
    waits_on (id ref) (id ref + 1) (doclose ref) p2.
Proof.
  intros Hlinux Hwf Hlt Hid Hcs Hrun.
  destruct (chain_on_in_flight_appends _ _ _ _ _ _ _ _ _ _ Hwf ltac:(lia)
              Hid Hcs Hrun) as (Hid1 & Hh & Hm1 & _ & _ & Hwf1).
  pose proof (chain_async_op_returned _ _ _ _ _ _ _ _ _ Hwf ltac:(lia) Hrun)
    as (_ & _ & Hreg & _).
  rewrite <- Hid1 in Hreg. destruct Hreg as [cs1 Hcs1].
  assert (id ref <> 0) as Hne by (pose proof (wf_count _ Hwf); lia).
  destruct (chain_async_op b no_fault OpType.close ref false (doclose ref) p1)
    as [r p2] eqn:Hclose.
  assert (in_flight ref p1 = true) as Hfl.
  { apply in_flight_waiting. split; [done|]. by rewrite Hcs1. }
  destruct (chain_async_op_returns b OpType.close ref false (doclose ref)
              {| disp := p1; deferred := deferred c |} Hwf1
              ltac:(cbn; lia) ltac:(by left))
    as (h0 & p2' & Hret & _ & _).
  cbn [disp] in Hret. rewrite Hclose in Hret. injection Hret as -> <-.
  destruct (chain_async_op_returned b no_fault OpType.close ref false
              (doclose ref) {| disp := p1; deferred := deferred c |}
              _ p2 Hwf1 ltac:(cbn; lia) Hclose)
    as (_ & _ & _ & Hin & _).
  destruct (Hin Hfl) as [Hwaits _]. cbn [disp] in Hwaits.
  exists p2. split.
  - unfold close_one. rewrite Hclose, Hlinux, Hh. reflexivity.
  - replace (id ref + 1) with (monotoniccount p1 + 1) by lia. exact Hwaits.
Qed.

(** The sync chained on the queued open is closed at once. *)
Lemma linux_close_needs_a_future_witness :
  exists p2,
    close_one toy_build [] {| id := 2; h := no_state |} sync_chained
    = (Throws future_uninitialized, p2) /\
    waits_on 2 3 (doclose {| id := 2; h := no_state |}) p2.
Proof.
  apply (linux_close_needs_a_future toy_build []
           {| disp := file_queued; deferred := ∅ |} no_fault OpType.sync
           file_ref false (dosync file_ref) {| id := 2; h := no_state |}
           sync_chained []).
  - reflexivity.
  - apply file_queued_well_formed.
  - vm_compute. reflexivity.
  - vm_compute. discriminate.
  - vm_compute. reflexivity.
  - vm_compute. reflexivity.
Defined.

(** *** A batch that throws *)

Lemma chain_loop_run_calls {T} b ot (pre : T -> async_io_op) det f container :
  forall acc p,
  chain_loop b ot pre det f container acc p
  = run_calls (chain_call b ot pre det f <$> container) acc p.
Proof.
  induction container as [|i rest IH]; intros acc p; [done|].
  cbn. fold (chain_call b ot pre det f i p).
  destruct (chain_call b ot pre det f i p) as [[op| | |] p1];
    [apply IH|done|done|done].
Qed.

Lemma close_loop_run_calls b heap o : forall acc p,
  close_loop b heap o acc p = run_calls (close_one b heap <$> o) acc p.
Proof.
  induction o as [|i rest IH]; intros acc p; [done|].
  cbn. destruct (close_one b heap i p) as [[op| | |] p1];
    [apply IH|done|done|done].
Qed.

Lemma completion_loop_run_calls b o : forall callbacks acc p,
  completion_loop b o callbacks acc p
  = run_calls (completion_call b <$> zip o callbacks) acc p.
Proof.
  induction o as [|i rest IH]; intros [|cb callbacks] acc p; try done.
  cbn. change (chain_async_op b no_fault OpType.UserCompletion i (fst cb)
                 (invoke_user_completion (snd cb)) p)
    with (completion_call b (i, cb) p).
  destruct (completion_call b (i, cb) p) as [[op| | |] p1];
    [apply IH|done|done|done].
Qed.

Lemma submit_run_calls k b heap x p :
  submit k b heap x p = run_calls (calls k b heap x) [] p.
Proof.
  destruct k, x; cbn [submit calls];
    unfold compat.dir, compat.rmdir, compat.file, compat.rmfile, compat.sync,
      compat.close, compat.read, compat.write, windows.dir, windows.rmdir,
      windows.file, windows.rmfile, windows.sync, windows.close, windows.read,
      windows.write, completion, chain_async_ops, chain_async_ops_path,
      chain_async_ops_data;
    first [apply chain_loop_run_calls | apply close_loop_run_calls
          | apply completion_loop_run_calls
          | rewrite chain_loop_run_calls; by rewrite list_fmap_id ].
Qed.

Lemma run_calls_stops fs1 : forall g fs2 acc p refs p1 e p2,
  runs fs1 p refs p1 -> g p1 = (Throws e, p2) ->
  run_calls (fs1 ++ g :: fs2) acc p = (Throws e, p2).
Proof.
  induction fs1 as [|f fs1 IH]; intros g fs2 acc p refs p1 e p2 Hruns Hg.
  - inversion Hruns; subst. cbn. by rewrite Hg.
  - inversion Hruns as [|? ? ? op q ? ? Hf Hrest]; subst. cbn. rewrite Hf.
    by eapply IH.
Qed.

(** X12.  A batch is not taken back when one of its calls throws.  The
    entry points make the calls for the elements of the batch one after
    the other; when the call for one element throws, the exception
    leaves the entry point at once: the result is the state that call
    left, in which the operations of the elements before it are
    chained, and no reference to them is returned. *)
Theorem batch_stops_at_the_first_exception k b heap x p fs1 g fs2 refs p1 e p2 :
  calls k b heap x = fs1 ++ g :: fs2 ->
  runs fs1 p refs p1 ->
  g p1 = (Throws e, p2) ->
  submit k b heap x p = (Throws e, p2).
Proof.
  intros Hcalls Hruns Hg. rewrite submit_run_calls, Hcalls.
  by eapply run_calls_stops.
Qed.

(** A sync of nothing and a sync of the file whose open has failed: the
    first is chained, the second throws the error of the open. *)
Lemma batch_stops_at_the_first_exception_witness :
  submit backend_compat toy_build []
    (sync_batch [ {| id := 0; h := no_state |}; file_ref ]) file_failed
  = (Throws (os_error 13 "/t/a"),
     snd (chain_async_op toy_build no_fault OpType.sync file_ref false
            (dosync file_ref)
            (snd (chain_async_op toy_build no_fault OpType.sync
                    {| id := 0; h := no_state |} false
                    (dosync {| id := 0; h := no_state |}) file_failed)))).
Proof.
  apply (batch_stops_at_the_first_exception backend_compat toy_build []
           (sync_batch [ {| id := 0; h := no_state |}; file_ref ]) file_failed
           [chain_call toy_build OpType.sync (fun i => i) false dosync
              {| id := 0; h := no_state |}]
           (chain_call toy_build OpType.sync (fun i => i) false dosync file_ref)
           []
           [ {| id := 2; h := task_future 2 |} ]
           (snd (chain_async_op toy_build no_fault OpType.sync
                   {| id := 0; h := no_state |} false
                   (dosync {| id := 0; h := no_state |}) file_failed))).
  - reflexivity.
  - eapply runs_cons; [vm_compute; reflexivity|constructor].
  - vm_compute. reflexivity.
Defined.

(** *** Chaining on an operation that has failed *)

(** X13.  An operation whose routine threw leaves the exception in its
    future.  A call of [chain_async_op] on its reference after it has
    completed reads that future and so throws the same exception at the
    caller: nothing is queued and nothing registered, but the id
    allocated for the call is used up. *)
Theorem chaining_on_a_failed_operation_throws b flt ot pre det f p e :
  0 <= monotoniccount p < SIZE_MAX ->
  in_flight pre p = false ->
  valid (h pre) = true ->
  get p (h pre) = Throws e ->
  chain_async_op b flt ot pre det f p
  = (Throws e, with_monotoniccount (monotoniccount p + 1) p).
Proof.
  intros Hc Hfl Hvalid Hget.
  unfold chain_async_op. rewrite allocate_next by done. cbn [fst snd].
  replace (in_flight pre (with_monotoniccount (monotoniccount p + 1) p))
    with (in_flight pre p) by reflexivity.
  rewrite Hfl. unfold bind_and_enqueue.
  replace (bound_handle (with_monotoniccount (monotoniccount p + 1) p) pre)
    with (bound_handle p pre) by reflexivity.
  unfold bound_handle. rewrite Hvalid, Hget. reflexivity.
Qed.

(** A sync chained on the file whose open has failed. *)
Lemma chaining_on_a_failed_operation_throws_witness :
  chain_async_op toy_build no_fault OpType.sync file_ref false
    (dosync file_ref) file_failed
  = (Throws (os_error 13 "/t/a"), with_monotoniccount 2 file_failed).
Proof.
  apply (chaining_on_a_failed_operation_throws toy_build no_fault OpType.sync
           file_ref false (dosync file_ref) file_failed (os_error 13 "/t/a")).
  - vm_compute. split; [discriminate|reflexivity].
  - reflexivity.
  - reflexivity.
  - reflexivity.
Defined.

End dispatcher_facts.

(** ** async_file_io.cpp: more of the backends *)

Module backend_facts.
Import async_io async_io_facts.

(** *** Closing a handle and destroying it *)

Lemma posix_doclose_returned {OS : posix} _id a op (s : system) hd r s1 :
  heap s !! a = Some hd ->
  posix_doclose _id (Some a) op s = (Returns r, s1) ->
  r = (true, Some a) /\
  this s1 = this s /\
  heap s1 = <[a := set_fd (-1) hd]> (heap s) /\
  exists l, issued s1 = issued s ++ l ++ [call_close (fd hd)] /\
            (l = [] \/ l = [call_fsync (fd hd)]).
Proof.
  intros Ha. unfold posix_doclose, deref. rewrite Ha.
  destruct (autoflush hd && negb (write_count_since_fsync hd =? 0)).
  - destruct (issue (call_fsync (fd hd)) s) as [[r1 e1] s0] eqn:E1.
    apply issue_spec in E1 as (Hh1 & Ht1 & Hi1).
    destruct (ERRHOSFN r1 e1 (handle_path hd)) as [[]| | |]; try done.
    destruct (issue (call_close (fd hd)) s0) as [[r2 e2] s2] eqn:E2.
    apply issue_spec in E2 as (Hh2 & Ht2 & Hi2).
    destruct (ERRHOSFN r2 e2 (handle_path hd)) as [[]| | |]; try done.
    intros [= <- <-]. cbn. rewrite Hh2, Hh1, Ht2, Ht1, Hi2, Hi1.
    do 3 (split; [done|]). exists [call_fsync (fd hd)].
    rewrite <- app_assoc. split; [done|by right].
  - destruct (issue (call_close (fd hd)) s) as [[r2 e2] s2] eqn:E2.
    apply issue_spec in E2 as (Hh2 & Ht2 & Hi2).
    destruct (ERRHOSFN r2 e2 (handle_path hd)) as [[]| | |]; try done.
    intros [= <- <-]. cbn. rewrite Hh2, Ht2, Hi2.
    do 3 (split; [done|]). exists []. split; [done|by left].
Qed.

(** X14.  A POSIX handle that was closed by [doclose] is not closed
    again when it is destroyed: the destructor issues no call.  But it
    does not take the handle out of the table of the dispatcher either:
    [doclose] has set the descriptor to -1, the destructor erases the
    key of -1, and the entry made under the descriptor stays, so
    [count] still counts the handle.  Destroyed without a [doclose], the
    handle is taken out of the table. *)
Theorem closed_posix_handle_stays_registered {OS : posix} _id op
    (s : system) a hd r s1 :
  heap s !! a = Some hd ->
  0 <= fd hd < SIZE_MAX ->
  has_been_added hd = true ->
  posix_doclose _id (Some a) op s = (Returns r, s1) ->
  (exists s2,
     posix_destructor a s1 = (Returns tt, s2) /\
     issued s2 = issued s1 /\
     fds (this s2) !! fd hd = fds (this s) !! fd hd) /\
  fds (this (snd (posix_destructor a s))) !! fd hd = None.
Proof.
  intros Ha Hfd Hadded Hclose.
  destruct (posix_doclose_returned _ _ _ _ _ _ _ Ha Hclose)
    as (_ & Hthis & Hheap & _).
  assert (to_size_t (fd hd) = fd hd) as Hkey.
  { apply to_size_t_small. lia. }
  split.
  - assert (heap s1 !! a = Some (set_fd (-1) hd)) as Ha1.
    { rewrite Hheap. apply list_lookup_insert_eq. by eapply lookup_lt_Some. }
    unfold posix_destructor. rewrite Ha1.
    cbn [has_been_added set_fd fd]. rewrite Hadded.
    replace (0 <=? -1) with false by reflexivity.
    eexists. split; [reflexivity|]. cbn. split; [done|].
    rewrite Hthis. apply lookup_delete_ne.
    change (to_size_t (-1)) with SIZE_MAX. lia.
  - unfold posix_destructor. rewrite Ha, Hadded, Hkey.
    destruct (0 <=? fd hd) eqn:Hpos; [|apply Z.leb_gt in Hpos; lia].
    destruct (autoflush hd && negb (write_count_since_fsync hd =? 0)).
    + destruct (issue (call_fsync (fd hd)) _) as [[r1 e1] s0] eqn:E1.
      apply issue_spec in E1 as (_ & Ht1 & _).
      destruct (ERRHOSFN r1 e1 (handle_path hd)) as [[]| | |];
        try (cbn; rewrite Ht1; cbn; by apply lookup_delete_eq).
      destruct (issue (call_close (fd hd)) s0) as [[r2 e2] s2] eqn:E2.
      apply issue_spec in E2 as (_ & Ht2 & _).
      destruct (ERRHOSFN r2 e2 (handle_path hd)) as [[]| | |];
        cbn; rewrite Ht2, Ht1; cbn; by apply lookup_delete_eq.
    + destruct (issue (call_close (fd hd)) _) as [[r2 e2] s2] eqn:E2.
      apply issue_spec in E2 as (_ & Ht2 & _).
      destruct (ERRHOSFN r2 e2 (handle_path hd)) as [[]| | |];
        cbn; rewrite Ht2; cbn; by apply lookup_delete_eq.
Qed.

(** The file opened on the descriptor 3 is closed, then destroyed: the
    dispatcher still has the entry of the descriptor 3. *)
Lemma closed_posix_handle_stays_registered_witness :
  (exists s2,
     @posix_destructor toy_posix 0
       (snd (@posix_doclose toy_posix 2 (Some 0%nat) file_ref opened))
     = (Returns tt, s2) /\
     issued s2
     = issued (snd (@posix_doclose toy_posix 2 (Some 0%nat) file_ref opened)) /\
     fds (this s2) !! 3 = fds (this opened) !! 3) /\
  fds (this (snd (@posix_destructor toy_posix 0 opened))) !! 3 = None.
Proof.
  apply (@closed_posix_handle_stays_registered toy_posix 2 file_ref opened
           0%nat opened_handle (true, Some 0%nat)
           (snd (@posix_doclose toy_posix 2 (Some 0%nat) file_ref opened))).
  - reflexivity.
  - vm_compute. split; [discriminate|reflexivity].
  - reflexivity.
  - reflexivity.
Defined.

Lemma windows_doclose_returned {W : win32} _id a op (s : wsystem) hd r s1 :
  w_heap s !! a = Some hd ->
  windows_doclose _id (Some a) op s = (Returns r, s1) ->
  exists handle,
    w_h hd = Some handle /\
    r = (true, Some a) /\
    w_this s1 = w_this s /\
    w_heap s1 = <[a := w_reset_h hd]> (w_heap s) /\
    exists l, w_issued s1 = w_issued s ++ l ++ [call_CloseHandle handle] /\
              (l = [] \/ l = [call_FlushFileBuffers handle]).
Proof.
  intros Ha. unfold windows_doclose, w_deref. rewrite Ha.
  destruct (w_h hd) as [handle|]; [|done].
  destruct (w_autoflush hd && negb (w_write_count_since_fsync hd =? 0)).
  - destruct (w_issue (call_FlushFileBuffers handle) s) as [[r1 e1] s0] eqn:E1.
    apply w_issue_spec in E1 as (Hh1 & Ht1 & Hi1).
    destruct (ERRHWINFN r1 e1 (w_path hd)) as [[]| | |]; try done.
    destruct (w_issue (call_CloseHandle handle) s0) as [[r2 e2] s2] eqn:E2.
    apply w_issue_spec in E2 as (Hh2 & Ht2 & Hi2).
    destruct (ERRHWINFN r2 e2 (w_path hd)) as [[]| | |]; try done.
    intros [= <- <-]. cbn. rewrite Hh2, Hh1, Ht2, Ht1, Hi2, Hi1.
    exists handle. do 4 (split; [done|]). exists [call_FlushFileBuffers handle].
    rewrite <- app_assoc. split; [done|by right].
  - destruct (w_issue (call_CloseHandle handle) s) as [[r2 e2] s2] eqn:E2.
    apply w_issue_spec in E2 as (Hh2 & Ht2 & Hi2).
    destruct (ERRHWINFN r2 e2 (w_path hd)) as [[]| | |]; try done.
    intros [= <- <-]. cbn. rewrite Hh2, Ht2, Hi2.
    exists handle. do 4 (split; [done|]). exists []. split; [done|by left].
Qed.

(** X15.  A Windows handle that was closed by [doclose] is not closed
    again when it is destroyed - [doclose] has reset the ASIO handle, so
    the destructor issues no call - and the destructor takes it out of
    the table of the dispatcher, under the key it was registered with. *)
Theorem closed_windows_handle_is_unregistered {W : win32} _id op
    (s : wsystem) a hd r s1 :
  w_heap s !! a = Some hd ->
  w_has_been_added hd = true ->
  windows_doclose _id (Some a) op s = (Returns r, s1) ->
  exists s2,
    windows_destructor a s1 = (Returns tt, s2) /\
    w_issued s2 = w_issued s1 /\
    fds (w_this s2) = delete (w_myid hd) (fds (w_this s)).
Proof.
  intros Ha Hadded Hclose.
  destruct (windows_doclose_returned _ _ _ _ _ _ _ Ha Hclose)
    as (handle & _ & _ & Hthis & Hheap & _).
  assert (w_heap s1 !! a = Some (w_reset_h hd)) as Ha1.
  { rewrite Hheap. apply list_lookup_insert_eq. by eapply lookup_lt_Some. }
  unfold windows_destructor. rewrite Ha1.
  cbn [w_has_been_added w_reset_h w_h w_myid]. rewrite Hadded.
  eexists. split; [reflexivity|]. cbn. by rewrite Hthis.
Qed.

Lemma closed_windows_handle_is_unregistered_witness :
  exists s2,
    @windows_destructor toy_win32 0
      (snd (@windows_doclose toy_win32 2 (Some 0%nat) file_ref w_opened))
    = (Returns tt, s2) /\
    w_issued s2
    = w_issued (snd (@windows_doclose toy_win32 2 (Some 0%nat) file_ref
                       w_opened)) /\
    fds (w_this s2) = delete 7 (fds (w_this w_opened)).
Proof.
  apply (@closed_windows_handle_is_unregistered toy_win32 2 file_ref w_opened
           0%nat w_opened_handle (true, Some 0%nat)
           (snd (@windows_doclose toy_win32 2 (Some 0%nat) file_ref w_opened))).
  - reflexivity.
  - reflexivity.
  - reflexivity.
Defined.

(** *** Reads and writes *)

Lemma to_int_small x : 0 <= x < 2 ^ 31 -> to_int x = x.
Proof.
  intros Hx. unfold to_int, to_long. rewrite Z.mod_small by lia.
  change (2 ^ (32 - 1)) with (2 ^ 31).
  destruct (x <? 2 ^ 31) eqn:E; [done|]. apply Z.ltb_ge in E. lia.
Qed.

Lemma to_int_large x : 2 ^ 31 <= x < 2 ^ 32 -> to_int x = x - 2 ^ 32.
Proof.
  intros Hx. unfold to_int, to_long. rewrite Z.mod_small by lia.
  change (2 ^ (32 - 1)) with (2 ^ 31).
  destruct (x <? 2 ^ 31) eqn:E; [|done]. apply Z.ltb_lt in E. lia.
Qed.

Lemma posix_dowrite_run {OS : posix} _id a hd req (s : system) ret errno k :
  heap s !! a = Some hd ->
  posix_call (call_pwritev (fd hd) (buffers req) (where_ req)) (kern s)
  = (ret, errno, k) ->
  posix_dowrite _id (Some a) req s
  = (match ERRHOSFN (to_int ret) errno (handle_path hd) with
     | Returns tt => Returns (true, Some a)
     | Throws e => Throws e
     | Aborts => Aborts
     | Blocks => Blocks
     end,
     {| this := this s; kern := k;
        issued := issued s
                  ++ [call_pwritev (fd hd) (buffers req) (where_ req)];
        heap := heap s |}).
Proof.
  intros Ha Hk. unfold posix_dowrite, deref, issue. rewrite Ha, Hk.
  by destruct (ERRHOSFN (to_int ret) errno (handle_path hd)) as [[]| | |].
Qed.

Lemma posix_doread_run {OS : posix} _id a hd req (s : system) ret errno k :
  heap s !! a = Some hd ->
  posix_call (call_preadv (fd hd) (buffers req) (where_ req)) (kern s)
  = (ret, errno, k) ->
  posix_doread _id (Some a) req s
  = (match ERRHOSFN (to_int ret) errno (handle_path hd) with
     | Returns tt => Returns (true, Some a)
     | Throws e => Throws e
     | Aborts => Aborts
     | Blocks => Blocks
     end,
     {| this := this s; kern := k;
        issued := issued s
                  ++ [call_preadv (fd hd) (buffers req) (where_ req)];
        heap := heap s |}).
Proof.
  intros Ha Hk. unfold posix_doread, deref, issue. rewrite Ha, Hk.
  by destruct (ERRHOSFN (to_int ret) errno (handle_path hd)) as [[]| | |].
Qed.

(** X16.  [dowrite] and [doread] judge the transfer by the count cast to
    [int]: a count below 2^31 is a success; a count from 2^31 up to 2^32
    - a transfer of 2 GiB or more that the kernel carried out - turns
    negative in the cast and is thrown as a system error, with whatever
    [errno] holds.  Either way the handle and its counters are as
    before: the bytes written are not counted. *)
Theorem transfer_count_is_judged_as_int {OS : posix} _id a hd req
    (s : system) ret errno k ret' errno' k' :
  heap s !! a = Some hd ->
  posix_call (call_pwritev (fd hd) (buffers req) (where_ req)) (kern s)
  = (ret, errno, k) ->
  posix_call (call_preadv (fd hd) (buffers req) (where_ req)) (kern s)
  = (ret', errno', k') ->
  (0 <= ret < 2 ^ 31 ->
   fst (posix_dowrite _id (Some a) req s) = Returns (true, Some a)) /\
  (2 ^ 31 <= ret < 2 ^ 32 ->
   fst (posix_dowrite _id (Some a) req s)
   = Throws (os_error errno (handle_path hd))) /\
  (0 <= ret' < 2 ^ 31 ->
   fst (posix_doread _id (Some a) req s) = Returns (true, Some a)) /\
  (2 ^ 31 <= ret' < 2 ^ 32 ->
   fst (posix_doread _id (Some a) req s)
   = Throws (os_error errno' (handle_path hd))) /\
  heap (snd (posix_dowrite _id (Some a) req s)) = heap s /\
  heap (snd (posix_doread _id (Some a) req s)) = heap s.
Proof.
  intros Ha Hw Hr.
  rewrite (posix_dowrite_run _ _ _ _ _ _ _ _ Ha Hw).
  rewrite (posix_doread_run _ _ _ _ _ _ _ _ Ha Hr).
  cbn [fst snd heap]. unfold ERRHOSFN.
  repeat apply conj; try done.
  - intros H. rewrite to_int_small by done.
    destruct (ret <? 0) eqn:E; [apply Z.ltb_lt in E; lia|done].
  - intros H. rewrite to_int_large by done.
    destruct (ret - 2 ^ 32 <? 0) eqn:E; [done|apply Z.ltb_ge in E; lia].
  - intros H. rewrite to_int_small by done.
    destruct (ret' <? 0) eqn:E; [apply Z.ltb_lt in E; lia|done].
  - intros H. rewrite to_int_large by done.
    destruct (ret' - 2 ^ 32 <? 0) eqn:E; [done|apply Z.ltb_ge in E; lia].
Qed.

(** A write of one buffer of 2^31 bytes to the file opened, which the
    host carries out in full, is reported as an error. *)
Lemma transfer_count_is_judged_as_int_witness :
  fst (@posix_dowrite toy_posix 2 (Some 0%nat)
         {| data_precondition := file_ref; buffers := [(0, 2 ^ 31)];
            where_ := 0 |} opened)
  = Throws (os_error 0 "/t/a").
Proof.
  apply (proj1 (proj2 (@transfer_count_is_judged_as_int toy_posix 2 0%nat
           opened_handle
           {| data_precondition := file_ref; buffers := [(0, 2 ^ 31)];
              where_ := 0 |}
           opened (2 ^ 31) 0 (kern opened) (2 ^ 31) 0 (kern opened)
           eq_refl eq_refl eq_refl))).
  vm_compute. split; [discriminate|reflexivity].
Defined.

(** *** What a sync finds to flush *)

Lemma posix_doread_heap {OS : posix} _id hp req (s : system) :
  heap (snd (posix_doread _id hp req s)) = heap s.
Proof.
  unfold posix_doread. destruct (deref hp s) as [[a hd]|]; [|done].
  destruct (issue _ s) as [[r e] s1] eqn:Ei.
  apply issue_spec in Ei as (Hh & _ & _).
  by destruct (ERRHOSFN _ e (handle_path hd)) as [[]| | |].
Qed.

Lemma posix_dowrite_heap {OS : posix} _id hp req (s : system) :
  heap (snd (posix_dowrite _id hp req s)) = heap s.
Proof.
  unfold posix_dowrite. destruct (deref hp s) as [[a hd]|]; [|done].
  destruct (issue _ s) as [[r e] s1] eqn:Ei.
  apply issue_spec in Ei as (Hh & _ & _).
  by destruct (ERRHOSFN _ e (handle_path hd)) as [[]| | |].
Qed.

Lemma transfers_heap {OS : posix} ts : forall s : system,
  forallb transfers ts = true -> heap (posix_run ts s) = heap s.
Proof.
  induction ts as [|t ts IH]; intros s Hts; [done|].
  cbn in Hts. apply andb_true_iff in Hts as [Ht Hts].
  change (heap (posix_run ts (snd (posix_routine (fst (fst t)) (snd t)
                                     (snd (fst t)) s))) = heap s).
  rewrite IH by done.
  unfold transfers in Ht. unfold posix_routine.
  destruct (snd (fst t)); try done.
  - apply posix_doread_heap.
  - apply posix_dowrite_heap.
Qed.

(** The handle [dofile] returns is new: nothing written, nothing
    synced. *)
Lemma posix_dofile_new {OS : posix} _id hp req (s : system) dn a s1 :
  posix_dofile _id hp req s = (Returns (dn, Some a), s1) ->
  exists hd, heap s1 !! a = Some hd /\
             byteswritten hd = 0 /\ byteswrittenatlastfsync hd = 0 /\
             has_ever_been_fsynced hd = false.
Proof.
  unfold posix_dofile. intros E.
  destruct (issue _ s) as [[_fd errno] s0] eqn:Ei.
  unfold new_handle in E.
  destruct (if negb (_fd =? -999) then ERRHOSFN _fd errno (path req)
            else Returns tt) as [[]| | |]; try done.
  injection E as _ <- <-.
  unfold do_add_io_handle_to_parent. cbn [heap with_heap].
  assert (forall hd : async_io_handle_posix,
            (heap s0 ++ [hd]) !! length (heap s0) = Some hd) as Hat.
  { intros hd. by apply list_lookup_middle. }
  rewrite Hat. cbn [heap with_heap with_this].
  eexists. split.
  - apply list_lookup_insert_eq. rewrite length_app. cbn. lia.
  - done.
Qed.

(** X17.  A sync does not flush what was written through the
    dispatcher.  [dofile] makes the handle with both counters at zero
    and neither [dowrite] nor [doread] changes them, so after any reads
    and writes - whatever they returned or threw - a sync of the handle
    finds nothing written since the last fsync: it returns "done"
    without a call to [fsync]. *)
Theorem sync_after_writes_issues_no_fsync {OS : posix} _id _id' hp0 req op
    (s : system) dn a s1 ts :
  posix_dofile _id hp0 req s = (Returns (dn, Some a), s1) ->
  forallb transfers ts = true ->
  fst (posix_dosync _id' (Some a) op (posix_run ts s1))
  = Returns (true, Some a) /\
  issued (snd (posix_dosync _id' (Some a) op (posix_run ts s1)))
  = issued (posix_run ts s1).
Proof.
  intros Hfile Hts.
  destruct (posix_dofile_new _ _ _ _ _ _ _ Hfile) as (hd & Ha & Ht & Hl & _).
  assert (heap (posix_run ts s1) !! a = Some hd) as Ha'.
  { by rewrite transfers_heap. }
  rewrite (posix_dosync_clean _ _ _ _ _ Ha') by lia. done.
Qed.

(** The file is opened, ten bytes are written to it in two writes, and
    it is synced: the sync issues nothing. *)
Lemma sync_after_writes_issues_no_fsync_witness :
  issued (snd (@posix_dosync toy_posix 4 (Some 0%nat) file_ref
                 (@posix_run toy_posix
                    [ (2, dowrite {| data_precondition := file_ref;
                                     buffers := [(0, 5)]; where_ := 0 |},
                       Some 0%nat);
                      (3, dowrite {| data_precondition := file_ref;
                                     buffers := [(0, 5)]; where_ := 5 |},
                       Some 0%nat) ] opened)))
  = [call_open "/t/a" 65 432; call_pwritev 3 [(0, 5)] 0;
     call_pwritev 3 [(0, 5)] 5].
Proof.
  rewrite (proj2 (@sync_after_writes_issues_no_fsync toy_posix 1 4 None
                    file_req file_ref t_exists true 0%nat opened
                    [ (2, dowrite {| data_precondition := file_ref;
                                     buffers := [(0, 5)]; where_ := 0 |},
                       Some 0%nat);
                      (3, dowrite {| data_precondition := file_ref;
                                     buffers := [(0, 5)]; where_ := 5 |},
                       Some 0%nat) ] eq_refl eq_refl)).
  reflexivity.
Defined.

Lemma to_long_one bits : 1 < bits -> to_long bits 1 = 1.
Proof.
  intros Hb. unfold to_long.
  assert (2 <= 2 ^ (bits - 1)).
  { change 2 with (2 ^ 1) at 1. apply Z.pow_le_mono_r; lia. }
  assert (2 ^ bits = 2 * 2 ^ (bits - 1)).
  { rewrite <- Z.pow_succ_r by lia. f_equal. lia. }
  rewrite Z.mod_small by lia.
  destruct (1 <? 2 ^ (bits - 1)) eqn:E; [done|]. apply Z.ltb_ge in E. lia.
Qed.

Lemma heap_alter_lookup (g : async_io_handle_posix -> async_io_handle_posix)
    (l : list async_io_handle_posix) a hd :
  l !! a = Some hd -> alter g a l !! a = Some (g hd).
Proof. intros Ha. by rewrite list_lookup_alter_eq, Ha. Qed.

(** The handle [dodir] returns when it went on to open the directory:
    one byte counts as written. *)
Lemma posix_dodir_opened {OS : posix} _id hp req (s : system) dn a s1 :
  has_flags file_flags.Read (dodir_flags (this s) (flags req)) = true ->
  posix_dodir _id hp req s = (Returns (dn, Some a), s1) ->
  exists hd, heap s1 !! a = Some hd /\
             byteswritten hd = 1 /\ byteswrittenatlastfsync hd = 0.
Proof.
  unfold dodir_flags, posix_dodir. intros Hread E.
  destruct (has_flags file_flags.Create (fileflags (this s) (flags req))).
  - destruct (issue (call_mkdir (path req) 504) s) as [[r0 e0] s0] eqn:E0.
    destruct (issue (call_stat (path req)) s0) as [[r e] s2] eqn:Ei.
    destruct ((r =? 0) && _); [done|]. rewrite Hread in E.
    destruct (posix_dofile _ _ _ s2) as [rf s3] eqn:Ef.
    destruct rf as [[dn' [a'|]]| | |]; try done.
    injection E as <- <- <-.
    destruct (posix_dofile_new _ _ _ _ _ _ _ Ef) as (hd & Ha & Ht & Hl & _).
    exists (set_byteswritten 1 hd). split; [|done].
    cbn [heap with_heap]. by apply heap_alter_lookup.
  - destruct (issue (call_stat (path req)) s) as [[r e] s2] eqn:Ei.
    destruct ((r =? 0) && _); [done|]. rewrite Hread in E.
    destruct (posix_dofile _ _ _ s2) as [rf s3] eqn:Ef.
    destruct rf as [[dn' [a'|]]| | |]; try done.
    injection E as <- <- <-.
    destruct (posix_dofile_new _ _ _ _ _ _ _ Ef) as (hd & Ha & Ht & Hl & _).
    exists (set_byteswritten 1 hd). split; [|done].
    cbn [heap with_heap]. by apply heap_alter_lookup.
Qed.

(** X18.  A directory opened by [dodir] is flushed by its first sync
    and by no later one.  [dodir] sets the bytes written of the handle
    to 1 "to enable fsyncing of directories" (line 680): the first sync
    calls [fsync] once on its descriptor and, when that succeeds, moves
    the counter of the last fsync to 1, so a second sync issues
    nothing. *)
Theorem directory_is_flushed_by_its_first_sync {OS : posix} _id _id' _id''
    hp0 req op op' (s : system) dn a s1 :
  1 < long_bits ->
  has_flags file_flags.Read (dodir_flags (this s) (flags req)) = true ->
  posix_dodir _id hp0 req s = (Returns (dn, Some a), s1) ->
  exists hd,
    heap s1 !! a = Some hd /\
    issued (snd (posix_dosync _id' (Some a) op s1))
    = issued s1 ++ [call_fsync (fd hd)] /\
    forall r s2,
      posix_dosync _id' (Some a) op s1 = (Returns r, s2) ->
      issued (snd (posix_dosync _id'' (Some a) op' s2)) = issued s2.
Proof.
  intros Hbits Hread Hdir.
  destruct (posix_dodir_opened _ _ _ _ _ _ _ Hread Hdir)
    as (hd & Ha & Ht & Hl).
  exists hd. split; [done|]. split.
  - apply posix_dosync_dirty; [done|]. rewrite Ht, Hl. by vm_compute.
  - intros r s2. unfold posix_dosync, deref. rewrite Ha.
    unfold write_count_since_fsync. rewrite Ht, Hl.
    change (to_size_t (1 - 0)) with 1. cbn [negb Z.eqb].
    destruct (issue (call_fsync (fd hd)) s1) as [[r1 e1] s0] eqn:E1.
    apply issue_spec in E1 as (Hh1 & _ & _).
    destruct (ERRHOSFN r1 e1 (handle_path hd)) as [[]| | |]; try done.
    intros [= <- <-]. cbn [heap with_heap].
    assert (<[a := set_synced 1 hd]> (heap s0) !! a = Some (set_synced 1 hd))
      as Ha2.
    { apply list_lookup_insert_eq. rewrite Hh1. by eapply lookup_lt_Some. }
    rewrite Ha2. cbn [byteswritten byteswrittenatlastfsync set_synced].
    rewrite Ht, Hl, to_long_one by done. done.
Qed.

(** The directory "/t" is opened for reading and synced twice. *)
Lemma directory_is_flushed_by_its_first_sync_witness :
  exists hd,
    heap (snd (@posix_dodir toy_posix 1 None t_readable t_exists)) !! 0%nat
    = Some hd /\
    issued (snd (@posix_dosync toy_posix 2 (Some 0%nat) file_ref
                   (snd (@posix_dodir toy_posix 1 None t_readable t_exists))))
    = issued (snd (@posix_dodir toy_posix 1 None t_readable t_exists))
      ++ [call_fsync (fd hd)].
Proof.
  destruct (@directory_is_flushed_by_its_first_sync toy_posix 1 2 3 None
              t_readable file_ref file_ref t_exists true 0%nat
              (snd (@posix_dodir toy_posix 1 None t_readable t_exists)))
    as (hd & Ha & Hfirst & _).
  - reflexivity.
  - reflexivity.
  - reflexivity.
  - exists hd. done.
Defined.

(** *** A directory that cannot be examined *)

(** X19.  [dodir] without [Read] reports no error of the system.
    Whatever [mkdir] and [stat] return, it ends in one of two ways: it
    returns "done" with a new handle, or it throws "Not a directory" -
    and that only when [stat] succeeded.  So for a path that does not
    exist, and that it was not asked to create, it returns a handle: a
    placeholder on the descriptor -999, which is not registered with the
    dispatcher. *)
Theorem dir_without_read_reports_no_system_error {OS : posix} _id hp req
    (s : system) :
  has_flags file_flags.Read (dodir_flags (this s) (flags req)) = false ->
  (fst (posix_dodir _id hp req s) = Returns (true, Some (length (heap s))) \/
   fst (posix_dodir _id hp req s) = Throws (runtime_error "Not a directory")) /\
  this (snd (posix_dodir _id hp req s)) = this s /\
  (has_flags file_flags.Create (fileflags (this s) (flags req)) = false ->
   fst (fst (posix_call (call_stat (path req)) (kern s))) <> 0 ->
   fst (posix_dodir _id hp req s) = Returns (true, Some (length (heap s))) /\
   issued (snd (posix_dodir _id hp req s)) = issued s ++ [call_stat (path req)] /\
   heap (snd (posix_dodir _id hp req s))
   = heap s ++ [ {| handle_path := path req; byteswritten := 0;
                    byteswrittenatlastfsync := 0; fd := -999;
                    has_been_added := false; autoflush := false;
                    has_ever_been_fsynced := false |} ]).
Proof.
  unfold dodir_flags, posix_dodir. intros Hread.
  destruct (has_flags file_flags.Create (fileflags (this s) (flags req))).
  - destruct (issue (call_mkdir (path req) 504) s) as [[r0 e0] s0] eqn:E0.
    apply issue_spec in E0 as (Hh0 & Ht0 & _).
    destruct (issue (call_stat (path req)) s0) as [[r e] s2] eqn:Ei.
    apply issue_spec in Ei as (Hh2 & Ht2 & _).
    destruct ((r =? 0) && _).
    + cbn. rewrite Ht2, Ht0. split; [by right|]. split; [done|]. done.
    + rewrite Hread. unfold new_handle. cbn. rewrite Hh2, Hh0, Ht2, Ht0.
      split; [by left|]. split; [done|]. done.
  - unfold issue.
    destruct (posix_call (call_stat (path req)) (kern s)) as [[r e] k] eqn:Ek.
    destruct (r =? 0) eqn:Hr; cbn [andb fst].
    + apply Z.eqb_eq in Hr as ->.
      destruct (negb (S_ISDIR (st_mode (path req) (kern s)))).
      * cbn. split; [by right|]. split; [done|]. by intros _ ?.
      * rewrite Hread. unfold new_handle. cbn.
        split; [by left|]. split; [done|]. by intros _ ?.
    + rewrite Hread. unfold new_handle. cbn.
      split; [by left|]. split; [done|]. done.
Qed.

(** The directory "/missing" does not exist and is not to be created:
    the operation succeeds. *)
Lemma dir_without_read_reports_no_system_error_witness :
  fst (@posix_dodir toy_posix 1 None
         {| precondition := {| id := 0; h := no_state |}; path := "/missing";
            flags := file_flags.None |} t_exists)
  = Returns (true, Some 0%nat).
Proof.
  apply (proj2 (proj2 (@dir_without_read_reports_no_system_error toy_posix 1
           None
           {| precondition := {| id := 0; h := no_state |};
              path := "/missing"; flags := file_flags.None |}
           t_exists eq_refl))).
  - reflexivity.
  - vm_compute. discriminate.
Defined.

(** *** The emulation of preadv and pwritev *)

Lemma to_off_t_small x : 0 <= x < 2 ^ 31 -> to_off_t x = x.
Proof. apply to_int_small. Qed.

Lemma total_cons n l : total (n :: l) = n + total l.
Proof. reflexivity. Qed.

Lemma counts_nonneg_sum l : Forall (fun n => 0 <= n) l -> 0 <= total l.
Proof. induction 1; [done|]. rewrite total_cons. lia. Qed.

Lemma transfer_adds_up {C : msvcrt} io fd iov : forall at_ k,
  Forall (fun n => 0 <= n) (counts io fd iov k) ->
  0 <= at_ -> at_ + total (counts io fd iov k) < 2 ^ 31 ->
  fst (transfer io fd iov at_ k)
  = Some (at_ + total (counts io fd iov k)) /\
  length (counts io fd iov k) = length iov.
Proof.
  induction iov as [|v rest IH]; intros at_ k Hpos Hat Hsum;
    cbn [counts transfer] in *.
  { split; [cbn; f_equal; unfold total; cbn; lia|done]. }
  destruct (io fd (fst v) (to_unsigned (snd v)) k) as [n k1].
  destruct (n =? -1) eqn:Hn.
  { apply Z.eqb_eq in Hn as ->. apply Forall_cons in Hpos as [? _]. lia. }
  apply Forall_cons in Hpos as [Hn0 Hpos]. rewrite total_cons in Hsum.
  pose proof (counts_nonneg_sum _ Hpos) as Hrest.
  rewrite (to_off_t_small n) by lia. rewrite to_off_t_small by lia.
  destruct (IH (at_ + n) k1 Hpos ltac:(lia) ltac:(lia)) as [H1 H2].
  rewrite H1, total_cons. cbn [length]. rewrite H2.
  split; [f_equal; lia|done].
Qed.

Lemma transfer_gives_up {C : msvcrt} io fd iov : forall at_ k,
  -1 ∈ counts io fd iov k -> fst (transfer io fd iov at_ k) = None.
Proof.
  induction iov as [|v rest IH]; intros at_ k Hin; cbn [counts transfer] in *.
  { by apply elem_of_nil in Hin. }
  destruct (io fd (fst v) (to_unsigned (snd v)) k) as [n k1].
  destruct (n =? -1) eqn:Hn; [done|].
  apply elem_of_cons in Hin as [<-|Hin]; [done|]. by apply IH.
Qed.

(** X20.  The [preadv] and [pwritev] the file gives itself where the C
    runtime has none seek, then read or write the vectors one after the
    other.  When the seek fails nothing is transferred and the result
    is -1.  When a transfer fails the result is -1, whatever the
    vectors before it transferred.  Otherwise every vector is tried,
    also after a short transfer, and the result is the sum of the
    counts (the end of the transfer staying below 2^31). *)
Theorem emulated_transfers_add_up_or_give_up {C : msvcrt} fd iov offset
    (k : crt) :
  (fst (_lseeki64 fd offset k) = -1 ->
   preadv fd iov offset k = (-1, snd (_lseeki64 fd offset k)) /\
   pwritev fd iov offset k = (-1, snd (_lseeki64 fd offset k))) /\
  (fst (_lseeki64 fd offset k) <> -1 ->
   let k0 := snd (_lseeki64 fd offset k) in
   (-1 ∈ counts _read fd iov k0 -> fst (preadv fd iov offset k) = -1) /\
   (-1 ∈ counts _write fd iov k0 -> fst (pwritev fd iov offset k) = -1) /\
   (0 <= offset ->
    Forall (fun n => 0 <= n) (counts _read fd iov k0) ->
    offset + total (counts _read fd iov k0) < 2 ^ 31 ->
    fst (preadv fd iov offset k) = total (counts _read fd iov k0) /\
    length (counts _read fd iov k0) = length iov) /\
   (0 <= offset ->
    Forall (fun n => 0 <= n) (counts _write fd iov k0) ->
    offset + total (counts _write fd iov k0) < 2 ^ 31 ->
    fst (pwritev fd iov offset k) = total (counts _write fd iov k0) /\
    length (counts _write fd iov k0) = length iov)).
Proof.
  unfold preadv, pwritev.
  destruct (_lseeki64 fd offset k) as [pos k0]. cbn [fst snd]. split.
  - intros ->. done.
  - intros Hpos. destruct (pos =? -1) eqn:E; [apply Z.eqb_eq in E; done|].
    repeat apply conj.
    + intros Hin. pose proof (transfer_gives_up _read fd iov offset k0 Hin).
      destruct (transfer _read fd iov offset k0) as [[?|] ?]; [done|done].
    + intros Hin. pose proof (transfer_gives_up _write fd iov offset k0 Hin).
      destruct (transfer _write fd iov offset k0) as [[?|] ?]; [done|done].
    + intros Hoff Hall Hsum.
      destruct (transfer_adds_up _read fd iov offset k0 Hall Hoff Hsum)
        as [Hrun Hlen].
      pose proof (counts_nonneg_sum _ Hall).
      destruct (transfer _read fd iov offset k0) as [[at_|] ?]; [|done].
      cbn in *. injection Hrun as ->. split; [|done].
      rewrite to_off_t_small by lia. lia.
    + intros Hoff Hall Hsum.
      destruct (transfer_adds_up _write fd iov offset k0 Hall Hoff Hsum)
        as [Hrun Hlen].
      pose proof (counts_nonneg_sum _ Hall).
      destruct (transfer _write fd iov offset k0) as [[at_|] ?]; [|done].
      cbn in *. injection Hrun as ->. split; [|done].
      rewrite to_off_t_small by lia. lia.
Qed.

(** Two vectors of ten and of two bytes read from a file that gives four
    bytes at a time: the short first read does not end the call, the
    result is six. *)
Lemma emulated_transfers_add_up_or_give_up_witness :
  fst (@preadv toy_crt 3 [(8, 10); (16, 2)] 0 tt) = 6 /\
  length (@counts toy_crt (@_read toy_crt) 3 [(8, 10); (16, 2)] tt) = 2%nat.
Proof.
  apply (proj2 (@emulated_transfers_add_up_or_give_up toy_crt 3
                  [(8, 10); (16, 2)] 0 tt)).
  - vm_compute. discriminate.
  - lia.
  - vm_compute. repeat constructor; discriminate.
  - reflexivity.
Defined.

(** *** A descriptor that is used again *)

(** X21.  [int_add_io_handle] inserts and so keeps an entry that is
    there: when [open] returns a descriptor that is still in the table
    of the dispatcher - the entry of a handle that was closed stays,
    and the kernel gives the number out again - [dofile] returns the
    new handle, marked as added, but the table still leads to the old
    one and [count] does not change. *)
Theorem reopened_descriptor_keeps_the_old_entry {OS : posix} _id hp req
    (s : system) fd0 errno k a0 :
  posix_call (call_open (path req)
                (open_flags (fileflags (this s) (flags req))) 432) (kern s)
  = (fd0, errno, k) ->
  0 <= fd0 ->
  fds (this s) !! to_size_t fd0 = Some a0 ->
  exists s1 hd,
    posix_dofile _id hp req s = (Returns (true, Some (length (heap s))), s1) /\
    heap s1 = heap s ++ [hd] /\
    fd hd = fd0 /\ has_been_added hd = true /\
    fds (this s1) = fds (this s) /\
    count (this s1) = count (this s).
Proof.
  intros Hopen Hfd Hold.
  unfold posix_dofile, issue. rewrite Hopen. unfold new_handle, ERRHOSFN.
  destruct (fd0 <? 0) eqn:E; [apply Z.ltb_lt in E; lia|].
  assert ((if negb (fd0 =? -999) then Returns tt else Returns tt)
          = Returns tt) as -> by (by destruct (negb _)).
  cbn [heap with_heap]. unfold do_add_io_handle_to_parent.
  cbn [heap with_heap].
  assert (forall hd : async_io_handle_posix,
            (heap s ++ [hd]) !! length (heap s) = Some hd) as Hat.
  { intros hd. by apply list_lookup_middle. }
  rewrite Hat. cbn [fd this with_this with_heap heap].
  unfold int_add_io_handle. cbn [fds]. rewrite Hold.
  assert (forall (l : list async_io_handle_posix) x y,
            <[length l := y]> (l ++ [x]) = l ++ [y]) as Hins.
  { intros l x y. induction l as [|z l IH]; [done|]. cbn. f_equal. apply IH. }
  eexists _, _. split; [reflexivity|]. cbn [heap this].
  split; [apply Hins|]. cbn. done.
Qed.

(** The file is opened on the descriptor 3, closed, and opened again:
    the kernel gives out 3 again, and the table keeps its entry. *)
Lemma reopened_descriptor_keeps_the_old_entry_witness :
  exists s1 hd,
    @posix_dofile toy_posix 3 None file_req
      (snd (@posix_doclose toy_posix 2 (Some 0%nat) file_ref opened))
    = (Returns (true, Some 1%nat), s1) /\
    heap s1
    = heap (snd (@posix_doclose toy_posix 2 (Some 0%nat) file_ref opened))
      ++ [hd] /\
    fd hd = 3 /\ has_been_added hd = true /\
    fds (this s1) = fds (this opened) /\
    count (this s1) = count (this opened).
Proof.
  apply (@reopened_descriptor_keeps_the_old_entry toy_posix 3 None file_req
           (snd (@posix_doclose toy_posix 2 (Some 0%nat) file_ref opened))
           3 0
           {| dirs := ["/t"%string]; files := ["/t/a"%string];
              open_fds := [3] |}
           0%nat).
  - reflexivity.
  - lia.
  - reflexivity.
Defined.

(** *** The handle of a directory that was not opened *)

(** X22.  The handle [dodir] returns when it was not asked to read
    the directory stands for no descriptor, and closing it cannot work:
    on the POSIX backend [doclose] calls [close] on -999 and throws
    when the kernel refuses it; on the Windows backend the handle has
    no ASIO handle and [doclose] dereferences null. *)
Theorem placeholder_handle_cannot_be_closed {OS : posix} {W : win32}
    _id _id' hp req op (s : system) dn a s1 (ws : wsystem) wdn wa ws1 :
  has_flags file_flags.Read (dodir_flags (this s) (flags req)) = false ->
  posix_dodir _id hp req s = (Returns (dn, Some a), s1) ->
  has_flags file_flags.Read (dodir_flags (w_this ws) (flags req)) = false ->
  windows_dodir _id hp req ws = (Returns (wdn, Some wa), ws1) ->
  issued (snd (posix_doclose _id' (Some a) op s1))
  = issued s1 ++ [call_close (-999)] /\
  (fst (fst (posix_call (call_close (-999)) (kern s1))) < 0 ->
   fst (posix_doclose _id' (Some a) op s1)
   = Throws (os_error (snd (fst (posix_call (call_close (-999)) (kern s1))))
               (path req))) /\
  fst (windows_doclose _id' (Some wa) op ws1) = Aborts.
Proof.
  intros Hread Hdir Hwread Hwdir.
  assert (heap s1 !! a
          = Some {| handle_path := path req; byteswritten := 0;
                    byteswrittenatlastfsync := 0; fd := -999;
                    has_been_added := false; autoflush := false;
                    has_ever_been_fsynced := false |}) as Ha.
  { revert Hdir. unfold dodir_flags in Hread. unfold posix_dodir.
    destruct (has_flags file_flags.Create (fileflags (this s) (flags req))).
    - destruct (issue (call_mkdir (path req) 504) s) as [[r0 e0] s0].
      destruct (issue (call_stat (path req)) s0) as [[r e] s2].
      destruct ((r =? 0) && _); [done|]. rewrite Hread.
      unfold new_handle. cbn. intros [= _ <- <-]. cbn.
      by apply list_lookup_middle.
    - destruct (issue (call_stat (path req)) s) as [[r e] s2].
      destruct ((r =? 0) && _); [done|]. rewrite Hread.
      unfold new_handle. cbn. intros [= _ <- <-]. cbn.
      by apply list_lookup_middle. }
  assert (exists whd, w_heap ws1 !! wa = Some whd /\ w_h whd = None)
    as (whd & Hwa & Hwh).
  { revert Hwdir. unfold dodir_flags in Hwread. unfold windows_dodir.
    destruct (has_flags file_flags.Create (fileflags (w_this ws) (flags req))).
    - destruct (w_issue (call_CreateDirectory (path req)) ws) as [[r0 e0] s0].
      destruct (w_issue (call_GetFileAttributes (path req)) s0)
        as [[r e] s2].
      destruct (negb _ && _); [done|]. rewrite Hwread.
      unfold w_dummy_handle. intros [= _ <- <-]. cbn.
      eexists. split; [by apply list_lookup_middle|done].
    - destruct (w_issue (call_GetFileAttributes (path req)) ws)
        as [[r e] s2].
      destruct (negb _ && _); [done|]. rewrite Hwread.
      unfold w_dummy_handle. intros [= _ <- <-]. cbn.
      eexists. split; [by apply list_lookup_middle|done]. }
  repeat apply conj.
  - unfold posix_doclose, deref. rewrite Ha. cbn [autoflush andb fd handle_path].
    unfold issue.
    destruct (posix_call (call_close (-999)) (kern s1)) as [[r e] k].
    by destruct (ERRHOSFN r e (path req)) as [[]| | |].
  - unfold posix_doclose, deref. rewrite Ha. cbn [autoflush andb fd handle_path].
    unfold issue.
    destruct (posix_call (call_close (-999)) (kern s1)) as [[r e] k].
    cbn [fst snd]. intros Hneg. unfold ERRHOSFN.
    destruct (r <? 0) eqn:E; [done|apply Z.ltb_ge in E; lia].
  - unfold windows_doclose, w_deref. by rewrite Hwa, Hwh.
Qed.

(** The directory "/t", made sure of without reading it, on both
    hosts. *)
Lemma placeholder_handle_cannot_be_closed_witness :
  fst (@posix_doclose toy_posix 2 (Some 0%nat) file_ref
         (snd (@posix_dodir toy_posix 1 None create_t t_exists)))
  = Throws (os_error 9 "/t") /\
  fst (@windows_doclose toy_win32 2 (Some 0%nat) file_ref
         (snd (@windows_dodir toy_win32 1 None create_t w_t_exists)))
  = Aborts.
Proof.
  destruct (@placeholder_handle_cannot_be_closed toy_posix toy_win32 1 2 None
              create_t file_ref t_exists true 0%nat
              (snd (@posix_dodir toy_posix 1 None create_t t_exists))
              w_t_exists true 0%nat
              (snd (@windows_dodir toy_win32 1 None create_t w_t_exists))
              eq_refl eq_refl eq_refl eq_refl)
    as (_ & Hposix & Hwin).
  split; [|exact Hwin]. apply Hposix. vm_compute. reflexivity.
Defined.

(** *** Flags the POSIX backend does not look at *)

Lemma fileflags_lor p f c :
  fileflags p (Z.lor f c)
  = Z.lor (fileflags p f) (Z.land c (Z.lnot (flagsmask p))).
Proof.
  unfold fileflags. apply Z.bits_inj'. intros n Hn.
  rewrite !Z.lor_spec, !Z.land_spec, !Z.lor_spec, Z.lnot_spec by done.
  destruct (Z.testbit f n), (Z.testbit c n), (Z.testbit (flagsmask p) n),
    (Z.testbit (flagsforce p) n); reflexivity.
Qed.

Lemma has_flags_lor x g c : Z.land c x = 0 -> has_flags x (Z.lor g c) = has_flags x g.
Proof.
  intros Hc. unfold has_flags. by rewrite Z.land_lor_distr_l, Hc, Z.lor_0_r.
Qed.

Lemma land_land_zero c m x : Z.land c x = 0 -> Z.land (Z.land c m) x = 0.
Proof.
  intros Hc. rewrite <- Z.land_assoc, (Z.land_comm m x), Z.land_assoc, Hc.
  apply Z.land_0_l.
Qed.

Lemma open_flags_more {OS : posix} g c :
  Z.land c 319 = 0 -> open_flags (Z.lor g c) = open_flags g.
Proof.
  intros Hc.
  assert (forall x, Z.land 319 x = x -> Z.land c x = 0) as Hx.
  { intros x Ex. rewrite <- Ex, Z.land_assoc, Hc. apply Z.land_0_l. }
  unfold open_flags.
  rewrite !(has_flags_lor _ g c) by (apply Hx; reflexivity).
  reflexivity.
Qed.

(** X27.  The POSIX backend opens a file the same way with and without
    [OSSync] and [WillBeSequentiallyAccessed]: [dofile] looks at
    neither - the lines that would add [O_SYNC] are compiled only under
    [OS_SYNC], which nothing defines - so a request that asks for them
    besides gives the same call of [open], the same handle and the same
    result (the flags have the values of [file_flags] above).  The
    Windows backend passes [FILE_FLAG_WRITE_THROUGH] to [CreateFile]
    when [OSSync] is in force. *)
Theorem posix_open_ignores_ossync {OS : posix} {W : win32} _id hp req
    (s : system) (ws : wsystem) :
  posix_dofile _id hp (with_flags file_flags.OSSync req) s
  = posix_dofile _id hp req s /\
  posix_dofile _id hp (with_flags file_flags.WillBeSequentiallyAccessed req) s
  = posix_dofile _id hp req s /\
  (has_flags file_flags.OSSync (fileflags (w_this ws) (flags req)) = true ->
   exists access creation attrs,
     w_issued (snd (windows_dofile _id hp req ws))
     = w_issued ws
       ++ [call_CreateFile (path req) access
             (Z.lor (Z.lor FILE_SHARE_READ FILE_SHARE_WRITE) FILE_SHARE_DELETE)
             creation attrs] /\
     Z.land attrs FILE_FLAG_WRITE_THROUGH = FILE_FLAG_WRITE_THROUGH).
Proof.
  assert (forall c, Z.land c 319 = 0 -> Z.land c 66 = 0 ->
            posix_dofile _id hp (with_flags c req) s = posix_dofile _id hp req s)
    as Hsame.
  { intros c Hc Hc'. unfold posix_dofile, with_flags. cbn [flags path].
    rewrite fileflags_lor.
    rewrite open_flags_more by (by apply land_land_zero).
    replace (Z.land
               (Z.lor (fileflags (this s) (flags req))
                  (Z.land c (Z.lnot (flagsmask (this s)))))
               (Z.lor file_flags.AutoFlush file_flags.Write))
      with (Z.land (fileflags (this s) (flags req))
              (Z.lor file_flags.AutoFlush file_flags.Write)); [done|].
    rewrite Z.land_lor_distr_l.
    change (Z.lor file_flags.AutoFlush file_flags.Write) with 66.
    by rewrite (land_land_zero c _ 66), Z.lor_0_r. }
  split; [by apply Hsame|]. split; [by apply Hsame|].
  intros Hsync. unfold windows_dofile. rewrite Hsync.
  destruct (w_issue _ ws) as [[handle err] s1] eqn:Ei.
  apply w_issue_spec in Ei as (_ & _ & Hi).
  eexists _, _, _. split.
  - destruct (handle =? INVALID_HANDLE_VALUE); cbn; exact Hi.
  - rewrite Z.land_lor_distr_l, Z.land_diag.
    apply Z.bits_inj'. intros n Hn.
    rewrite Z.lor_spec, Z.land_spec.
    destruct (Z.testbit FILE_FLAG_WRITE_THROUGH n); [|by rewrite andb_false_r].
    by rewrite orb_true_r.
Qed.

End backend_facts.

(** ** map_handle.hpp *)

Module map_handle_facts.
Import map_handle.

(** *** The printer of the section flags *)

(** X23.  The printer of [section_handle::flag] writes, after the prefix
    "afio::section_handle::flag::", the names of the flags that are set,
    in the order of the enumeration and joined by "|": "none" when no
    flag with a name is set, the bare name when one is, and the joined
    names in parentheses when more are.  Bits without a name are not
    printed. *)
Theorem print_flag_lists_the_names v :
  print_flag v
  = ("afio::section_handle::flag::" +:+
     match names v with
     | [] => "none"
     | [x] => x
     | l => "(" +:+ join "|" l +:+ ")"
     end)%string.
Proof.
  unfold print_flag, names, named. cbn [List.filter fst].
  destruct (has v flag.read), (has v flag.write), (has v flag.cow),
    (has v flag.execute), (has v flag.nocommit), (has v flag.prefault),
    (has v flag.executable); reflexivity.
Qed.

Lemma land_bit v i :
  0 <= i -> Z.land v (Z.shiftl 1 i) = if Z.testbit v i then Z.shiftl 1 i else 0.
Proof.
  intros Hi. apply Z.bits_inj'. intros n Hn.
  rewrite Z.land_spec, Z.shiftl_1_l, Z.pow2_bits_eqb by done.
  destruct (Z.eqb_spec i n) as [->|Hne].
  - destruct (Z.testbit v n); [|by rewrite Z.bits_0].
    by rewrite Z.pow2_bits_eqb, Z.eqb_refl.
  - rewrite andb_false_r. destruct (Z.testbit v i); [|by rewrite Z.bits_0].
    rewrite Z.pow2_bits_eqb by done.
    symmetry. by apply Z.eqb_neq.
Qed.

Lemma has_bit v i : 0 <= i -> has v (Z.shiftl 1 i) = Z.testbit v i.
Proof.
  intros Hi. unfold has. rewrite land_bit by done.
  destruct (Z.testbit v i); [|done].
  rewrite Z.shiftl_1_l. destruct (Z.eqb_spec (2 ^ i) 0) as [E|]; [|done].
  pose proof (Z.pow_pos_nonneg 2 i ltac:(lia) Hi). lia.
Qed.

(** The named bits of a value are one of the sets of flags. *)
Lemma land_all_named v : Z.land v all_named ∈ masks.
Proof.
  assert (Z.land v all_named
          = Z.lor (Z.land v flag.read) (Z.lor (Z.land v flag.write)
            (Z.lor (Z.land v flag.cow) (Z.lor (Z.land v flag.execute)
            (Z.lor (Z.land v flag.nocommit) (Z.lor (Z.land v flag.prefault)
            (Z.land v flag.executable))))))) as ->.
  { unfold all_named, named. cbn [foldr fst].
    rewrite Z.lor_0_r, !Z.land_lor_distr_r. reflexivity. }
  unfold flag.read, flag.write, flag.cow, flag.execute, flag.nocommit,
    flag.prefault, flag.executable.
  rewrite !land_bit by lia.
  destruct (Z.testbit v 0), (Z.testbit v 1), (Z.testbit v 2),
    (Z.testbit v 3), (Z.testbit v 8), (Z.testbit v 9), (Z.testbit v 10);
    apply (bool_decide_unpack _); vm_compute; exact I.
Qed.

Lemma has_named v f :
  Z.land all_named f = f -> has (Z.land v all_named) f = has v f.
Proof. intros Hf. unfold has. by rewrite <- Z.land_assoc, Hf. Qed.

Lemma print_flag_named_bits v : print_flag (Z.land v all_named) = print_flag v.
Proof.
  unfold print_flag. rewrite !has_named by reflexivity. reflexivity.
Qed.

Lemma masks_told_apart : tells_apart masks = true.
Proof. vm_compute. reflexivity. Qed.

(** X24.  The printer of [section_handle::flag] tells two values apart
    exactly when they differ in a flag that has a name: the texts are
    equal if and only if the values agree on read, write, cow, execute,
    nocommit, prefault and executable. *)
Theorem print_flag_tells_named_flags_apart v w :
  print_flag v = print_flag w <-> Z.land v all_named = Z.land w all_named.
Proof.
  split.
  - intros Heq. rewrite <- (print_flag_named_bits v),
      <- (print_flag_named_bits w) in Heq.
    pose proof masks_told_apart as Hall. unfold tells_apart in Hall.
    rewrite forallb_forall in Hall.
    specialize (Hall _ (proj1 (list_elem_of_In _ _) (land_all_named v))).
    rewrite forallb_forall in Hall.
    specialize (Hall _ (proj1 (list_elem_of_In _ _) (land_all_named w))).
    rewrite Heq, String.eqb_refl in Hall. cbn in Hall.
    by apply Z.eqb_eq.
  - intros Heq. rewrite <- (print_flag_named_bits v),
      <- (print_flag_named_bits w). by rewrite Heq.
Qed.

(** *** Moving and swapping section handles *)

(** X25.  [swap] exchanges the members of two section handles - the
    backing handle, the length and the flags each has afterwards are
    those the other had before - whatever the move of the base does;
    the three objects destroyed on the way have all been moved from:
    they have no backing, length 0 and no flags.  Swapping twice gives
    every member back. *)
Theorem swap_exchanges_the_members {B : Type} (handle_move : B -> B * B)
    (this o : section_handle) :
  let '(this', o', destroyed) := swap handle_move this o in
  members this' = members o /\
  members o' = members this /\
  Forall (fun d => members d = (None, 0, flag.none)) destroyed /\
  let '(this'', o'', _) := swap handle_move this' o' in
  members this'' = members this /\ members o'' = members o.
Proof.
  unfold swap, move_assign, move_construct, members. cbn.
  repeat split. repeat constructor.
Qed.

End map_handle_facts.

(** ** benchmark_locking.cpp *)

Module benchmark_locking_facts.
Import benchmark_locking.

Lemma child_arg_two_digits n :
  10 <= n < 100 -> child_arg n = [zero + n / 10; zero + n mod 10].
Proof.
  intros Hn. unfold child_arg, to_char, zero.
  destruct (10 <=? n) eqn:E; [|apply Z.leb_gt in E; lia].
  pose proof (Z.mod_pos_bound n 10 ltac:(lia)).
  assert (1 <= n / 10 < 10).
  { split; [apply Z.div_le_lower_bound; lia|apply Z.div_lt_upper_bound; lia]. }
  by rewrite !Z.mod_small by lia.
Qed.

(** X26.  The label the parent gives the child number [n] is the
    decimal numeral of [n] as long as [n] is below 100: read back as a
    number it gives [n].  From 100 on the two characters do not hold the
    number: up to 2559 the first is no digit, and the label reads as
    nothing. *)
Theorem child_label_is_decimal_below_100 n :
  0 <= n < 2560 ->
  (n < 100 ->
   forallb is_digit (c_str (child_arg n)) = true /\
   read_digits 0 (c_str (child_arg n)) = n) /\
  (100 <= n ->
   match c_str (child_arg n) with
   | c :: _ => is_digit c = false
   | [] => True
   end /\
   read_digits 0 (c_str (child_arg n)) = 0).
Proof.
  intros Hn. split.
  - intros Hlt. destruct (decide (n < 10)) as [Hsmall|Hbig].
    + unfold child_arg, to_char, zero, is_digit.
      destruct (10 <=? n) eqn:E; [apply Z.leb_le in E; lia|].
      rewrite Z.mod_small by lia. cbn [c_str].
      destruct (48 + n =? 0) eqn:E0; [apply Z.eqb_eq in E0; lia|].
      cbn [c_str Z.eqb forallb read_digits]. unfold is_digit, zero.
      assert ((48 <=? 48 + n) && (48 + n <=? 48 + 9) = true) as ->.
      { apply andb_true_iff. split; apply Z.leb_le; lia. }
      split; [done|]. lia.
    + rewrite child_arg_two_digits by lia. unfold zero, is_digit.
      pose proof (Z.mod_pos_bound n 10 ltac:(lia)).
      assert (1 <= n / 10 < 10).
      { split; [apply Z.div_le_lower_bound; lia
               |apply Z.div_lt_upper_bound; lia]. }
      cbn [c_str].
      destruct (48 + n / 10 =? 0) eqn:E0; [apply Z.eqb_eq in E0; lia|].
      destruct (48 + n mod 10 =? 0) eqn:E1; [apply Z.eqb_eq in E1; lia|].
      cbn [c_str Z.eqb forallb read_digits]. unfold is_digit, zero.
      assert ((48 <=? 48 + n / 10) && (48 + n / 10 <=? 48 + 9) = true) as ->.
      { apply andb_true_iff. split; apply Z.leb_le; lia. }
      assert ((48 <=? 48 + n mod 10) && (48 + n mod 10 <=? 48 + 9) = true)
        as ->.
      { apply andb_true_iff. split; apply Z.leb_le; lia. }
      split; [done|].
      pose proof (Z.div_mod n 10 ltac:(lia)). lia.
  - intros Hge. unfold child_arg, to_char, zero.
    destruct (10 <=? n) eqn:E; [|apply Z.leb_gt in E; lia].
    assert (10 <= n / 10 < 256).
    { split; [apply Z.div_le_lower_bound; lia
             |apply Z.div_lt_upper_bound; lia]. }
    assert ((48 + n / 10) mod 256 = 48 + n / 10 /\ 48 + n / 10 < 256 \/
            (48 + n / 10) mod 256 = 48 + n / 10 - 256 /\ 256 <= 48 + n / 10)
      as Hc.
    { destruct (decide (48 + n / 10 < 256)).
      - left. split; [apply Z.mod_small; lia|lia].
      - right. split; [|lia].
        replace (48 + n / 10) with (48 + n / 10 - 256 + 1 * 256) at 1 by lia.
        rewrite Z.mod_add by lia. apply Z.mod_small. lia. }
    cbn [c_str].
    destruct ((48 + n / 10) mod 256 =? 0) eqn:E0; [done|].
    cbn [read_digits]. unfold is_digit, zero.
    assert ((48 <=? (48 + n / 10) mod 256)
            && ((48 + n / 10) mod 256 <=? 48 + 9) = false) as ->; [|done].
    apply andb_false_iff.
    destruct Hc as [[-> ?]|[-> ?]].
    + right. apply Z.leb_gt. lia.
    + left. apply Z.leb_gt. lia.
Qed.

(** The child 42 gets the label "42". *)
Lemma child_label_is_decimal_below_100_witness :
  read_digits 0 (c_str (child_arg 42)) = 42.
Proof.
  apply (proj1 (child_label_is_decimal_below_100 42 ltac:(lia))). lia.
Defined.

End benchmark_locking_facts.
